(** * googledrivecloner: the tree replication and reconciliation engine

    A shallow embedding of [googledrive_cloner/google_connections.py]
    (class [GoogleDriveCloner]) and of the provider it talks to.

    - Python dicts keep insertion order, and the code iterates over them,
      so a dict is an association list with unique keys: assignment to an
      existing key keeps its position, assignment to a new key appends.
    - [copied_files] is a Python set: a [gset string].
    - The methods run in a state-and-exception monad over the object's
      attributes; an exception leaves the attributes as they were when it
      was raised.
    - The Drive [files()] resource is a parameter: a handler that takes a
      request and the provider's state and either answers or raises. Every
      request sent and every [time.sleep] is recorded in a log, in order. *)

From Stdlib Require Import ZArith String List Lia.
From stdpp Require Import base strings list gmap sorting.

Open Scope string_scope.
Open Scope Z_scope.
Open Scope list_scope.

(** ** Python values *)

Inductive exn :=
| KeyError (key : string)
| IndexError
| ValueError
| RecursionError
| HttpError (reason : string).

Inductive result (A : Type) :=
| Ret (a : A)
| Raise (e : exn).
Arguments Ret {A} a.
Arguments Raise {A} e.

#[global] Instance exn_eq_dec : EqDecision exn.
Proof. solve_decision. Defined.

(** Insertion-ordered dictionaries. *)
Definition dict (K V : Type) := list (K * V).

Fixpoint dict_get {K V} `{EqDecision K} (k : K) (d : dict K V) : option V :=
  match d with
  | [] => None
  | (k', v) :: d' => if decide (k = k') then Some v else dict_get k d'
  end.

Fixpoint dict_set {K V} `{EqDecision K} (k : K) (v : V) (d : dict K V) : dict K V :=
  match d with
  | [] => [(k, v)]
  | (k', v') :: d' =>
      if decide (k = k') then (k, v) :: d' else (k', v') :: dict_set k v d'
  end.

Definition dict_mem {K V} `{EqDecision K} (k : K) (d : dict K V) : bool :=
  match dict_get k d with Some _ => true | None => false end.

Definition dict_keys {K V} (d : dict K V) : list K := d.*1.

(** [d[k]]: [KeyError] when the key is absent. *)
Definition getitem {V} (k : string) (d : dict string V) : result V :=
  match dict_get k d with
  | Some v => Ret v
  | None => Raise (KeyError k)
  end.

(** Truthiness of an [Optional[str]]: [None] and the empty string are false. *)
Definition truthy (o : option string) : bool :=
  match o with
  | Some s => negb (String.eqb s "")
  | None => false
  end.

(** [s[n:]] *)
Fixpoint string_drop (n : nat) (s : string) : string :=
  match n, s with
  | O, _ => s
  | S n', String _ s' => string_drop n' s'
  | S _, EmptyString => EmptyString
  end.

(** ** Constants of the module *)

Definition FOLDER_TYPE : string := "application/vnd.google-apps.folder".
Definition SPREADSHEET_TYPE : string := "application/vnd.google-apps.spreadsheet".

Definition MIME_TYPE_ORDER : dict string Z := [(FOLDER_TYPE, 1); (SPREADSHEET_TYPE, 0)].

Definition CLEANUP_SLEEP : Z := 45.
Definition SPREADSHEET_SLEEP : Z := 30.
Definition COPY_SLEEP : Z := 1.

(** [MIME_TYPE_ORDER.get(mimeType, -1)] *)
Definition priority_of (mimeType : string) : Z :=
  default (-1) (dict_get mimeType MIME_TYPE_ORDER).

(** ** The provider interface *)

(** A file resource as the provider sends it: a JSON object in which any
    key may be missing. *)
Record file_resource := FileResource {
  r_id : option string;
  r_kind : option string;
  r_name : option string;
  r_mimeType : option string;
  r_parents : option (list string)
}.

Inductive response :=
| FileList (files : list file_resource) (nextPageToken : option string)
| File (f : file_resource).

Inductive request :=
| List_ (pageSize : Z) (fields : string) (pageToken q : option string)
| Get (fileId fields : string)
| Copy (fileId : string)
| Delete (fileId : string)
| Update (fileId addParents removeParents name : string)
| Create (name mimeType : string) (parents : list string).

Inductive event :=
| Sleep (seconds : Z)
| Request (r : request).

#[global] Instance request_eq_dec : EqDecision request.
Proof. solve_decision. Defined.
#[global] Instance event_eq_dec : EqDecision event.
Proof. solve_decision. Defined.

(** What the cloner keeps of a file: the value stored under a file id in
    [file_info] and in the pages of a listing. The key ["parent"] holds the
    first of the resource's parents. *)
Record info := Info {
  i_kind : option string;
  i_name : option string;
  i_mimeType : option string;
  i_parent : option string
}.

(** [info[key]] for a key of the record. *)
Definition field (key : string) (o : option string) : result string :=
  match o with
  | Some v => Ret v
  | None => Raise (KeyError key)
  end.

(** [resp["files"]], [resp.get("nextPageToken")], [resp["id"]] and the
    lookups made on the answer of a [get]. *)
Definition resp_files (resp : response) : result (list file_resource) :=
  match resp with
  | FileList fs _ => Ret fs
  | File _ => Raise (KeyError "files")
  end.

Definition resp_nextPageToken (resp : response) : option string :=
  match resp with
  | FileList _ t => t
  | File _ => None
  end.

Definition resp_resource (resp : response) : file_resource :=
  match resp with
  | File f => f
  | FileList _ _ => FileResource None None None None None
  end.

Definition resp_id (resp : response) : result string :=
  field "id" (r_id (resp_resource resp)).

Definition resp_first_parent (resp : response) : result string :=
  match r_parents (resp_resource resp) with
  | None => Raise (KeyError "parents")
  | Some [] => Raise IndexError
  | Some (p :: _) => Ret p
  end.

(** ** One page of a listing, as a pure function of the answer *)

(** The inner loop of [_get_file_info_one_page] for one resource:
    [file.pop("id")], then every remaining key is stored under the id,
    ["parents"] as ["parent"] with its first element. An id seen before keeps
    its position and the keys the new resource does not carry; a resource
    with no key but its id leaves the page untouched. *)
Definition merge_info (old new : info) : info :=
  {| i_kind := from_option Some (i_kind old) (i_kind new);
     i_name := from_option Some (i_name old) (i_name new);
     i_mimeType := from_option Some (i_mimeType old) (i_mimeType new);
     i_parent := from_option Some (i_parent old) (i_parent new) |}.

Definition empty_info : info := Info None None None None.

Definition no_fields (f : file_resource) : bool :=
  match r_kind f, r_name f, r_mimeType f, r_parents f with
  | None, None, None, None => true
  | _, _, _, _ => false
  end.

Definition add_file (f : file_resource) (page : dict string info)
  : result (dict string info) :=
  match r_id f with
  | None => Raise (KeyError "id")
  | Some file_id =>
      match r_parents f with
      | Some [] => Raise IndexError
      | parents =>
          if no_fields f then Ret page
          else
            let new := {| i_kind := r_kind f; i_name := r_name f;
                          i_mimeType := r_mimeType f;
                          i_parent := parents ≫= head |} in
            Ret (dict_set file_id
                   (merge_info (default empty_info (dict_get file_id page)) new)
                   page)
      end
  end.

Fixpoint add_files (fs : list file_resource) (page : dict string info)
  : result (dict string info) :=
  match fs with
  | [] => Ret page
  | f :: fs' =>
      match add_file f page with
      | Ret page' => add_files fs' page'
      | Raise e => Raise e
      end
  end.

(** ** Ordering the children of a folder (the first loop of [copy_item]) *)

(** [child_files_to_copy[priority].append(pair)] on a [defaultdict(list)]. *)
Definition group_append (priority : Z) (pair : string * string)
    (groups : dict Z (list (string * string))) : dict Z (list (string * string)) :=
  dict_set priority (default [] (dict_get priority groups) ++ [pair]) groups.

Fixpoint group_children (items : list (string * info)) (item_id created_folder_id : string)
    (groups : dict Z (list (string * string)))
  : result (dict Z (list (string * string))) :=
  match items with
  | [] => Ret groups
  | (file_id, file) :: items' =>
      if decide (i_parent file = Some item_id) then
        match i_mimeType file with
        | None => Raise (KeyError "mimeType")
        | Some mimeType =>
            group_children items' item_id created_folder_id
              (group_append (priority_of mimeType) (file_id, created_folder_id) groups)
        end
      else group_children items' item_id created_folder_id groups
  end.

(** [list(sorted(child_files_to_copy))[::-1]] *)
Definition priorities_of (groups : dict Z (list (string * string))) : list Z :=
  reverse (merge_sort Z.le (dict_keys groups)).

(** The pairs in the order the two nested loops visit them. *)
Definition copy_order (groups : dict Z (list (string * string))) : list (string * string) :=
  concat (map (λ priority, default [] (dict_get priority groups)) (priorities_of groups)).

(** The children of [item_id] in the snapshot whose mime-type is of a given
    kind, in the order of the snapshot, each paired with the new folder. *)
Definition child_pairs (kind : string → bool) (snapshot : dict string info)
    (item_id created_folder_id : string) : list (string * string) :=
  omap (λ '(file_id, file),
          if decide (i_parent file = Some item_id) then
            mimeType ← i_mimeType file;
            if kind mimeType then Some (file_id, created_folder_id) else None
          else None)
       snapshot.

Definition is_folder (mimeType : string) : bool := bool_decide (mimeType = FOLDER_TYPE).
Definition is_spreadsheet (mimeType : string) : bool :=
  bool_decide (mimeType = SPREADSHEET_TYPE).
Definition is_other (mimeType : string) : bool :=
  negb (is_folder mimeType) && negb (is_spreadsheet mimeType).
Definition has_priority (priority : Z) (mimeType : string) : bool :=
  bool_decide (priority_of mimeType = priority).

(** ** The destination name-to-id map of [_cleanup_files] *)

Fixpoint name_to_id (items : list (string * info)) (acc : dict string string)
  : result (dict string string) :=
  match items with
  | [] => Ret acc
  | (k, v) :: items' =>
      match i_name v with
      | None => Raise (KeyError "name")
      | Some n => name_to_id items' (dict_set n k acc)
      end
  end.

(** The id listed last under a name. *)
Definition last_named (n : string) (items : list (string * info)) : option string :=
  fst <$> last (filter (λ kv, i_name kv.2 = Some n) items).

Definition prefix : string := "Copy of ".

(** The name [_cleanup_files] gives a stray: the listed name without the
    prefix, if it has it. *)
Definition clean (name : string) : string :=
  if String.prefix prefix name then string_drop (String.length prefix) name else name.

Definition parent_query (parent_id : string) : string :=
  "'" +:+ parent_id +:+ "' in parents".

Definition LIST_FIELDS : string := "files(id,kind,name,mimeType,parents), nextPageToken".
Definition GET_FIELDS : string := "id,mimeType,name,parents".

(** The provider, the [files()] resource the cloner is given: [W] is
    whatever the remote side holds; [service_execute] answers one request
    (a call of [execute()], with the transport's retries beneath it) or
    raises. *)
Class Service (W : Type) := service_execute : request → W → result response * W.

(** ** The cloner object and its monad *)

Section Cloner.

Context {W : Type} `{!Service W}.

(** The attributes of a [GoogleDriveCloner], with the log of what it did. *)
Record cloner := Cloner {
  service : W;
  file_info : dict string info;
  copied_files : gset string;
  folders_copied : list (string * string);
  log : list event
}.

Definition M (A : Type) : Type := cloner → result A * cloner.

#[global] Instance M_ret : MRet M := λ A a self, (Ret a, self).

#[global] Instance M_bind : MBind M := λ A B k m self,
  match m self with
  | (Ret a, self') => k a self'
  | (Raise e, self') => (Raise e, self')
  end.

Definition raise {A} (e : exn) : M A := λ self, (Raise e, self).

(** A pure computation that may raise. *)
Definition lift {A} (r : result A) : M A := λ self, (r, self).

Definition gets {A} (f : cloner → A) : M A := λ self, (Ret (f self), self).

Definition emit (e : event) : M unit := λ self,
  (Ret (),
   {| service := service self; file_info := file_info self;
      copied_files := copied_files self; folders_copied := folders_copied self;
      log := log self ++ [e] |}).

(** [time.sleep(seconds)] *)
Definition sleep (seconds : Z) : M unit := emit (Sleep seconds).

(** [self.service.method(kwargs).execute(num_retries)]: the request is
    logged, then answered by the provider. *)
Definition execute (r : request) : M response := λ self,
  let self1 := snd (emit (Request r) self) in
  let '(resp, w) := service_execute r (service self1) in
  (resp,
   {| service := w; file_info := file_info self1;
      copied_files := copied_files self1; folders_copied := folders_copied self1;
      log := log self1 |}).

(** [self.copied_files.add(file_id)] *)
Definition copied_files_add (file_id : string) : M unit := λ self,
  (Ret (),
   {| service := service self; file_info := file_info self;
      copied_files := {[ file_id ]} ∪ copied_files self;
      folders_copied := folders_copied self; log := log self |}).

(** [self.folders_copied.append(pair)] *)
Definition folders_copied_append (pair : string * string) : M unit := λ self,
  (Ret (),
   {| service := service self; file_info := file_info self;
      copied_files := copied_files self;
      folders_copied := folders_copied self ++ [pair]; log := log self |}).

(** [for x in xs: body(x)] *)
Fixpoint for_each {A} (xs : list A) (body : A → M unit) : M unit :=
  match xs with
  | [] => mret ()
  | x :: xs' => body x ;; for_each xs' body
  end.

(** ** The methods *)

Definition _get_file_info_one_page (page_token query : option string)
  : M (dict string info * option string) :=
  let pageToken := if truthy page_token then page_token else None in
  let q := if truthy query then query else None in
  resp ← execute (List_ 1000 LIST_FIELDS pageToken q);
  file_data ← lift (resp_files resp);
  file_id_to_info ← lift (add_files file_data []);
  mret (file_id_to_info, resp_nextPageToken resp).

(** [for file_id, info in next_page_info.items(): file_id_to_info[file_id] = info] *)
Definition merge_page (file_id_to_info next_page_info : dict string info)
  : dict string info :=
  foldl (λ acc '(file_id, i), dict_set file_id i acc) file_id_to_info next_page_info.

(** The [while init or next_token] loop of [_get_all_file_info]. The loop
    has no bound of its own (a provider may hand out tokens for ever), so
    the model takes the number of pages it may still ask for and answers
    [None] when that runs out. *)
Fixpoint get_all_pages (pages : nat) (next_token : option string)
    (file_id_to_info : dict string info) : M (option (dict string info)) :=
  match pages with
  | O => mret None
  | S pages' =>
      '(next_page_info, next_token) ← _get_file_info_one_page next_token None;
      let file_id_to_info := merge_page file_id_to_info next_page_info in
      if truthy next_token then get_all_pages pages' next_token file_id_to_info
      else mret (Some file_id_to_info)
  end.

Definition _get_all_file_info (pages : nat) : M (option (dict string info)) :=
  get_all_pages pages None [].

Definition _clone_file (file_id : string) : M response :=
  execute (Copy file_id).

Definition _delete_file (file_id : string) : M response :=
  execute (Delete file_id).

Definition _get_one_file_info (file_id : string) (fields : option (list string))
  : M response :=
  let fields := match fields with
                | Some (f :: fs) => f :: fs
                | _ => ["id"; "mimeType"; "name"; "parents"]
                end in
  execute (Get file_id (String.concat "," fields)).

Definition move_file (file_id destination_parent_id : string)
    (current_parent_id name mime_type : option string) : M string :=
  '(current_parent_id, name) ←
    (if truthy current_parent_id && truthy name && truthy mime_type
     then mret (default "" current_parent_id, default "" name)
     else
       file_info ← _get_one_file_info file_id None;
       current_parent_id ← lift (resp_first_parent file_info);
       name ← lift (field "name" (r_name (resp_resource file_info)));
       _ ← lift (field "mimeType" (r_mimeType (resp_resource file_info)));
       mret (current_parent_id, name));
  resp ← execute (Update file_id destination_parent_id current_parent_id name);
  lift (resp_id resp).

Definition cleanup_one (parent_id destination_parent_id : string)
    (destination_file_name_to_id : dict string string)
    (item : string * info) : M unit :=
  let '(current_file_id, file_info_) := item in
  clean_name ← lift (field "name" (i_name file_info_));
  let is_copy := String.prefix prefix clean_name in
  snapshot ← gets file_info;
  if dict_mem current_file_id snapshot then mret ()
  else
    let clean_name :=
      if is_copy then string_drop (String.length prefix) clean_name else clean_name in
    let move :=
      mime_type ← lift (field "mimeType" (i_mimeType file_info_));
      move_file current_file_id destination_parent_id
        (Some parent_id) (Some clean_name) (Some mime_type) ;; mret () in
    match dict_get clean_name destination_file_name_to_id with
    | Some id_to_delete =>
        if decide (id_to_delete = current_file_id) then mret ()
        else _delete_file id_to_delete ;; move
    | None => move
    end.

Definition _cleanup_files (parent_id destination_parent_id : string) : M unit :=
  let current_query := parent_query parent_id in
  '(files_in_current, _) ← _get_file_info_one_page None (Some current_query);
  let destination_query := parent_query destination_parent_id in
  '(files_in_destination, _) ← _get_file_info_one_page None (Some destination_query);
  destination_file_name_to_id ← lift (name_to_id files_in_destination []);
  for_each files_in_current
    (cleanup_one parent_id destination_parent_id destination_file_name_to_id).

Definition copy_file (file_id destination_parent_id : string) : M string :=
  cloned ← _clone_file file_id;
  snapshot ← gets file_info;
  current ← lift (getitem file_id snapshot);
  cloned_id ← lift (resp_id cloned);
  current_parent ← lift (field "parent" (i_parent current));
  current_name ← lift (field "name" (i_name current));
  current_mimeType ← lift (field "mimeType" (i_mimeType current));
  moved ← move_file cloned_id destination_parent_id
            (Some current_parent) (Some current_name) (Some current_mimeType);
  (if decide (current_mimeType = SPREADSHEET_TYPE) then sleep SPREADSHEET_SLEEP
   else mret ()) ;;
  copied_files_add file_id ;;
  _cleanup_files current_parent destination_parent_id ;;
  mret moved.

Definition create_folder (destination_parent_id new_name : string) : M string :=
  resp ← execute (Create new_name FOLDER_TYPE [destination_parent_id]);
  lift (resp_id resp).

(** The two loops of [copy_item] over the grouped children; [copy_item_] is
    the recursive call. *)
Definition copy_children (copy_item_ : string → string → option string → M (option string))
    (child_files_to_copy : dict Z (list (string * string))) : M unit :=
  let priorities := priorities_of child_files_to_copy in
  for_each priorities (λ priority,
    for_each (default [] (dict_get priority child_files_to_copy))
      (λ '(file_id, created_folder_id),
         copy_item_ file_id created_folder_id None ;; mret ())).

(** [copy_item] calls itself for every child. [depth] is the number of
    nested calls the interpreter still allows; a call made when none is left
    raises [RecursionError], as Python does at its recursion limit. *)
Fixpoint copy_item (depth : nat) (item_id destination_parent_id : string)
    (new_name : option string) : M (option string) :=
  match depth with
  | O => raise RecursionError
  | S depth' =>
      sleep COPY_SLEEP ;;
      snapshot ← gets file_info;
      item_info ← lift (getitem item_id snapshot);
      name ← lift (field "name" (i_name item_info));
      mimeType ← lift (field "mimeType" (i_mimeType item_info));
      copied ← gets copied_files;
      if decide (item_id ∈ copied) then mret None
      else if decide (mimeType = FOLDER_TYPE) then
        created_folder_id ←
          create_folder destination_parent_id
            (if truthy new_name then default "" new_name else name);
        snapshot ← gets file_info;
        child_files_to_copy ← lift (group_children snapshot item_id created_folder_id []);
        copy_children (copy_item depth') child_files_to_copy ;;
        copied_files_add item_id ;;
        folders_copied_append (item_id, created_folder_id) ;;
        mret (Some created_folder_id)
      else
        moved ← copy_file item_id destination_parent_id;
        mret (Some moved)
  end.

Definition run_cleanup : M unit :=
  pairs ← gets folders_copied;
  for_each pairs (λ '(parent, destination), _cleanup_files parent destination).

(** [run]: the [try ... except Exception as e] around [copy_item] hands the
    outcome on as a value; the call then always continues with the sleep and
    the sweep. *)
Definition run (depth : nat) (base_folder_id destination_parent_folder_id : string)
    (new_name : option string) : M (option string) := λ self,
  let '(outcome, self1) :=
    copy_item depth base_folder_id destination_parent_folder_id new_name self in
  ((sleep CLEANUP_SLEEP ;;
    run_cleanup ;;
    match outcome with
    | Raise exception => raise exception
    | Ret result_ => mret result_
    end) : M (option string)) self1.

End Cloner.

Arguments cloner : clear implicits.
Arguments M : clear implicits.
Arguments Cloner {W} service file_info copied_files folders_copied log.
Arguments service {W} c.
Arguments file_info {W} c.
Arguments copied_files {W} c.
Arguments folders_copied {W} c.
Arguments log {W} c.

(** ** Two providers to run the cloner against *)

(** A scripted provider, in the manner of a [Mock] with a [side_effect]
    list: the answers are fixed in advance and handed out in order, whatever
    the request. *)
#[global] Instance scripted : Service (list (result response)) := λ r answers,
  match answers with
  | [] => (Raise (HttpError "no answer left"), [])
  | a :: answers' => (a, answers')
  end.

Definition id_only (file_id : string) : response :=
  File (FileResource (Some file_id) None None None None).

Definition listed (file_id name mimeType : string) (parents : list string) : file_resource :=
  FileResource (Some file_id) None (Some name) (Some mimeType) (Some parents).

(** An immediately consistent provider: a store of files that applies each
    of the six operations at once, in the manner of the [MockService] of the
    repository's tests (a dict of files with their name, mime-type and list
    of parents; [update] removes one parent, appends the other and renames).
    Unlike that mock, a listing honours the parent filter of its query, and
    [Copy] leaves the clone beside the original under a decorated name, as
    the service does. Everything that matches is listed in one page; new ids
    are drawn from a supply; an operation on a file that is not there raises
    an [HttpError]. *)
Module Drive.

Record file := DriveFile {
  name : string;
  mimeType : string;
  parents : list string
}.

Record store := Store {
  files : gmap string file;
  fresh : list string
}.

Definition resource (file_id : string) (f : file) : file_resource :=
  {| r_id := Some file_id; r_kind := Some "drive#file"; r_name := Some (name f);
     r_mimeType := Some (mimeType f);
     r_parents := match parents f with [] => None | ps => Some ps end |}.

Definition matches (q : option string) (f : file) : bool :=
  match q with
  | None => true
  | Some q => existsb (λ p, String.eqb q (parent_query p)) (parents f)
  end.

Definition listing (q : option string) (w : store) : list (string * file) :=
  filter (λ kf, matches q kf.2 = true) (map_to_list (files w)).

Fixpoint remove_first (x : string) (l : list string) : list string :=
  match l with
  | [] => []
  | y :: l' => if decide (x = y) then l' else y :: remove_first x l'
  end.

Definition not_found {A} : result A := Raise (HttpError "notFound").

#[global] Instance execute : Service store := λ r w,
  match r with
  | List_ _ _ _ q =>
      (Ret (FileList (map (λ kf, resource kf.1 kf.2) (listing q w)) None), w)
  | Get file_id _ =>
      match files w !! file_id with
      | Some f => (Ret (File (resource file_id f)), w)
      | None => (not_found, w)
      end
  | Copy file_id =>
      match files w !! file_id, fresh w with
      | Some f, new_id :: rest =>
          (Ret (id_only new_id),
           {| files := <[new_id := DriveFile (prefix +:+ name f) (mimeType f) (parents f)]>
                         (files w);
              fresh := rest |})
      | _, _ => (not_found, w)
      end
  | Delete file_id =>
      match files w !! file_id with
      | Some _ =>
          (Ret (File (FileResource None None None None None)),
           {| files := delete file_id (files w); fresh := fresh w |})
      | None => (not_found, w)
      end
  | Update file_id addParents removeParents new_name =>
      match files w !! file_id with
      | Some f =>
          if bool_decide (removeParents ∈ parents f) then
            (Ret (id_only file_id),
             {| files := <[file_id :=
                           DriveFile new_name (mimeType f)
                             (remove_first removeParents (parents f) ++ [addParents])]>
                           (files w);
                fresh := fresh w |})
          else (Raise (HttpError "badRequest"), w)
      | None => (not_found, w)
      end
  | Create new_name mime ps =>
      match fresh w with
      | new_id :: rest =>
          (Ret (id_only new_id),
           {| files := <[new_id := DriveFile new_name mime ps]> (files w);
              fresh := rest |})
      | [] => (Raise (HttpError "backendError"), w)
      end
  end.

(** What a page of the cloner holds for a file of the store. *)
Definition info_of (f : file) : info :=
  Info (Some "drive#file") (Some (name f)) (Some (mimeType f)) (head (parents f)).

Definition page (q : option string) (w : store) : dict string info :=
  map (λ kf, (kf.1, info_of kf.2)) (listing q w).

(** The entries of folder [d] that bear the name [n]. *)
Definition named_in (d n : string) (w : store) : list string :=
  (filter (λ kf, d ∈ parents kf.2 ∧ name kf.2 = n) (map_to_list (files w))).*1.

End Drive.

(** ** What one turn of the loop of [_cleanup_files] may send *)

(** The requests sent for [item], an entry of the listing of the source
    parent: none unless the item is a stray (its id is not in the snapshot)
    whose clean name does not lead back to itself in the destination map;
    then a [Delete] of the id found under the clean name, the [Get] of
    [move_file], and an [Update] that moves the item to the destination. *)
Definition cleanup_event (snapshot : dict string info) (names : dict string string)
    (destination_parent_id : string) (item : string * info) (e : event) : Prop :=
  dict_mem item.1 snapshot = false
  ∧ ∃ n, i_name item.2 = Some n
         ∧ dict_get (clean n) names ≠ Some item.1
         ∧ ((∃ x, e = Request (Delete x) ∧ dict_get (clean n) names = Some x)
            ∨ e = Request (Get item.1 GET_FIELDS)
            ∨ ∃ removed new_name,
                e = Request (Update item.1 destination_parent_id removed new_name)).

Definition is_delete (e : event) : bool :=
  match e with Request (Delete _) => true | _ => false end.

(** The [Create] and [Copy] requests of a log, in order. *)
Definition creates_and_copies (events : list event) : list request :=
  omap (λ e, match e with
             | Request (Create n m ps) => Some (Create n m ps)
             | Request (Copy f) => Some (Copy f)
             | _ => None
             end) events.

(** ** Sessions *)

Section Session.
Context {W : Type} `{!Service W}.

(** [GoogleDriveCloner(service)]: the snapshot is taken first, then the two
    stores are created empty. The outcome is [None] when the listing did not
    end within [pages] pages. *)
Definition __init__ (pages : nat) (service_ : W) : result (option (cloner W)) :=
  match _get_all_file_info pages
          (Cloner service_ [] ∅ [] []) with
  | (Ret (Some snapshot), self) =>
      Ret (Some (Cloner (service self) snapshot ∅ [] (log self)))
  | (Ret None, _) => Ret None
  | (Raise e, _) => Raise e
  end.

(** The methods a client can call on the object once it is built. *)
Inductive call :=
| get_all_file_info (pages : nat)
| get_file_info_one_page (page_token query : option string)
| clone_file (file_id : string)
| delete_file (file_id : string)
| cleanup_files (parent_id destination_parent_id : string)
| get_one_file_info (file_id : string) (fields : option (list string))
| call_move_file (file_id destination_parent_id : string)
    (current_parent_id name mime_type : option string)
| call_copy_file (file_id destination_parent_id : string)
| call_create_folder (destination_parent_id new_name : string)
| call_copy_item (depth : nat) (item_id destination_parent_id : string)
    (new_name : option string)
| call_run_cleanup
| call_run (depth : nat) (base_folder_id destination_parent_folder_id : string)
    (new_name : option string).

(** The object after one call, whether it returned or raised. *)
Definition perform (self : cloner W) (c : call) : cloner W :=
  match c with
  | get_all_file_info pages => (_get_all_file_info pages self).2
  | get_file_info_one_page t q => (_get_file_info_one_page t q self).2
  | clone_file f => (_clone_file f self).2
  | delete_file f => (_delete_file f self).2
  | cleanup_files p d => (_cleanup_files p d self).2
  | get_one_file_info f fs => (_get_one_file_info f fs self).2
  | call_move_file f d p n m => (move_file f d p n m self).2
  | call_copy_file f d => (copy_file f d self).2
  | call_create_folder d n => (create_folder d n self).2
  | call_copy_item depth i d n => (copy_item depth i d n self).2
  | call_run_cleanup => (run_cleanup self).2
  | call_run depth b d n => (run depth b d n self).2
  end.

Definition session (self : cloner W) (calls : list call) : cloner W :=
  foldl perform self calls.

(** A listing that goes to the end: every request after the first carries
    the token of the answer before it, and the last answer carries none. *)
Inductive listed_to_the_end :
  option string → dict string info → cloner W → dict string info → cloner W → Prop :=
| last_page token acc self page token' self1 :
    _get_file_info_one_page token None self = (Ret (page, token'), self1) →
    truthy token' = false →
    listed_to_the_end token acc self (merge_page acc page) self1
| next_page token acc self page token' self1 snapshot self2 :
    _get_file_info_one_page token None self = (Ret (page, token'), self1) →
    truthy token' = true →
    listed_to_the_end token' (merge_page acc page) self1 snapshot self2 →
    listed_to_the_end token acc self snapshot self2.

(** A sweep that goes through: [_cleanup_files] returns for every pair, in
    order. *)
Inductive sweep : list (string * string) → cloner W → cloner W → Prop :=
| sweep_nil self : sweep [] self self
| sweep_cons parent destination pairs self self1 self2 :
    _cleanup_files parent destination self = (Ret (), self1) →
    sweep pairs self1 self2 →
    sweep ((parent, destination) :: pairs) self self2.

(** [always R m]: running [m] takes every object to one related to it by
    [R], whether [m] returns or raises. *)
Definition always {A} (R : relation (cloner W)) (m : M W A) : Prop :=
  ∀ self, R self (m self).2.

(** A source id recorded in [folders_copied] names a folder of the snapshot. *)
Definition is_snapshot_folder (snapshot : dict string info) (pair : string * string) : Prop :=
  ∃ item_info, dict_get pair.1 snapshot = Some item_info
               ∧ i_mimeType item_info = Some FOLDER_TYPE.

(** How the object may differ after some calls: same snapshot, a larger
    copied set, more recorded folders (each a folder of the snapshot), a
    longer log. *)
Record extends (self self' : cloner W) : Prop := Extends {
  ext_file_info : file_info self' = file_info self;
  ext_copied_files : copied_files self ⊆ copied_files self';
  ext_folders_copied :
    ∃ new, folders_copied self' = folders_copied self ++ new
           ∧ Forall (is_snapshot_folder (file_info self)) new;
  ext_log : ∃ events, log self' = log self ++ events
}.

(** A sweep that stops: the first [_cleanup_files] to raise ends it. *)
Inductive sweep_stops : list (string * string) → cloner W → exn → cloner W → Prop :=
| stops_here parent destination pairs self e self1 :
    _cleanup_files parent destination self = (Raise e, self1) →
    sweep_stops ((parent, destination) :: pairs) self e self1
| stops_later parent destination pairs self self1 e self2 :
    _cleanup_files parent destination self = (Ret (), self1) →
    sweep_stops pairs self1 e self2 →
    sweep_stops ((parent, destination) :: pairs) self e self2.

(** What [_cleanup_files] has in hand when its loop starts: the two pages it
    listed ([cur] under the source parent, [dst] under the destination) and
    the name-to-id map of the second. *)
Definition cleanup_listing (parent_id destination_parent_id : string) (self : cloner W)
    (cur dst : dict string info) (names : dict string string) (self2 : cloner W) : Prop :=
  ∃ token1 self1 token2,
    _get_file_info_one_page None (Some (parent_query parent_id)) self
    = (Ret (cur, token1), self1)
    ∧ _get_file_info_one_page None (Some (parent_query destination_parent_id)) self1
      = (Ret (dst, token2), self2)
    ∧ name_to_id dst [] = Ret names.

(** [emits P]: the snapshot is kept and every event added to the log
    satisfies [P]. *)
Definition emits (P : event → Prop) : relation (cloner W) := λ self self',
  file_info self' = file_info self
  ∧ ∃ events, log self' = log self ++ events ∧ Forall P events.

(** The events a computation adds to the log of [self]. *)
Definition emitted {A} (m : M W A) (self : cloner W) : list event :=
  drop (length (log self)) (log (m self).2).

End Session.

(** A provider that looks every request up in a table and never changes:
    the same request always gets the same answer. *)
#[global] Instance table : Service (list (request * result response)) := λ r answers,
  (default (Raise (HttpError "notFound"))
     ((λ found, found.2.2) <$> list_find (λ entry, entry.1 = r) answers),
   answers).

(** ** Concrete sessions used below *)

(** The page a listing of [parent] returns to [self], and the name-to-id
    map of a page. *)
Definition listing_of {W} `{!Service W} (parent : string) (self : cloner W)
  : dict string info :=
  match (_get_file_info_one_page None (Some (parent_query parent)) self).1 with
  | Ret (page, _) => page
  | Raise _ => []
  end.

Definition after_listing {W} `{!Service W} (parent : string) (self : cloner W) : cloner W :=
  (_get_file_info_one_page None (Some (parent_query parent)) self).2.

Definition names_of (page : dict string info) : dict string string :=
  match name_to_id page [] with
  | Ret names => names
  | Raise _ => []
  end.

Definition folder_info (name : string) : info :=
  Info (Some "drive#file") (Some name) (Some FOLDER_TYPE) None.

Definition file_in (name parent : string) : info :=
  Info (Some "drive#file") (Some name) (Some "mime") (Some parent).


(** A snapshot with one plain file, and a provider that answers its copy,
    its move and the two listings of the clean-up. *)
Definition plain_file_snapshot : dict string info :=
  [("1", Info None (Some "test name") (Some "mime") (Some "2"))].

Definition before_first_copy : cloner (list (result response)) :=
  Cloner [Ret (id_only "c1"); Ret (id_only "c1");
          Ret (FileList [] None); Ret (FileList [] None)]
         plain_file_snapshot ∅ [] [].

Definition after_first_copy : cloner (list (result response)) :=
  (copy_item 1 "1" "3" None before_first_copy).2.

(** An object whose copied set holds an id the snapshot does not know. *)
Definition copied_but_unknown : cloner (list (result response)) :=
  Cloner [] plain_file_snapshot {[ "x" ]} [] [].

(** An object that has copied the plain file of its snapshot. *)
Definition copied_and_known : cloner (list (result response)) :=
  Cloner [] plain_file_snapshot {[ "1" ]} [] [].

(** A provider that answers a [Get] and then an [Update]. *)
Definition answers_get_then_update : cloner (list (result response)) :=
  Cloner [Ret (File (listed "f" "remote name" "mime" ["remote parent"]));
          Ret (id_only "f")]
         [] ∅ [] [].

(** A root folder with two sub-folders; the second one has a child whose
    mime-type the snapshot lacks, so the walk raises [KeyError] there, after
    the first sub-folder has been recorded. *)
Definition broken_tree : dict string info :=
  [("R", Info None (Some "root") (Some FOLDER_TYPE) None);
   ("F", Info None (Some "first") (Some FOLDER_TYPE) (Some "R"));
   ("G", Info None (Some "second") (Some FOLDER_TYPE) (Some "R"));
   ("bad", Info None (Some "no type") None (Some "G"))].

(** The provider creates the three folders and answers the two listings of
    the final sweep. *)
Definition sweep_goes_through : cloner (list (result response)) :=
  Cloner [Ret (id_only "R'"); Ret (id_only "F'"); Ret (id_only "G'");
          Ret (FileList [] None); Ret (FileList [] None)]
         broken_tree ∅ [] [].

(** The provider creates the three folders and is out of order when the
    final sweep asks for its first listing. *)
Definition sweep_fails : cloner (list (result response)) :=
  Cloner [Ret (id_only "R'"); Ret (id_only "F'"); Ret (id_only "G'");
          Raise (HttpError "backendError")]
         broken_tree ∅ [] [].

(** A folder whose children are, in the order of the snapshot, a plain
    file, a folder, a spreadsheet and another plain file; and a store that
    holds the same files, with a destination folder ["D"]. *)
Definition four_children : dict string info :=
  [("p1", Info (Some "drive#file") (Some "a.txt") (Some "text/plain") (Some "R"));
   ("F", Info (Some "drive#file") (Some "sub") (Some FOLDER_TYPE) (Some "R"));
   ("S", Info (Some "drive#file") (Some "sheet") (Some SPREADSHEET_TYPE) (Some "R"));
   ("p2", Info (Some "drive#file") (Some "b.txt") (Some "text/plain") (Some "R"));
   ("R", Info (Some "drive#file") (Some "root") (Some FOLDER_TYPE) None);
   ("D", Info (Some "drive#file") (Some "dest") (Some FOLDER_TYPE) None)].

Definition four_children_store : Drive.store :=
  Drive.Store
    (list_to_map
       [("p1", Drive.DriveFile "a.txt" "text/plain" ["R"]);
        ("F", Drive.DriveFile "sub" FOLDER_TYPE ["R"]);
        ("S", Drive.DriveFile "sheet" SPREADSHEET_TYPE ["R"]);
        ("p2", Drive.DriveFile "b.txt" "text/plain" ["R"]);
        ("R", Drive.DriveFile "root" FOLDER_TYPE []);
        ("D", Drive.DriveFile "dest" FOLDER_TYPE [])])
    ["n1"; "n2"; "n3"; "n4"; "n5"; "n6"].

Definition four_children_session : cloner Drive.store :=
  Cloner four_children_store four_children ∅ [] [].

(** Two strays with the same clean name under ["s"]: ["A"], already moved
    and renamed but still shown under its old parent as well, and ["T"]. *)
Definition twin_strays : cloner Drive.store :=
  Cloner
    (Drive.Store
       (list_to_map
          [("s", Drive.DriveFile "source" FOLDER_TYPE []);
           ("d", Drive.DriveFile "destination" FOLDER_TYPE []);
           ("A", Drive.DriveFile "X" "mime" ["s"; "d"]);
           ("T", Drive.DriveFile "Copy of X" "mime" ["s"])])
       [])
    [("s", folder_info "source"); ("d", folder_info "destination")]
    ∅ [] [].

(** A stray ["Copy of X"] under ["s"] and two entries named ["X"] under
    ["d"]. *)
Definition two_namesakes : cloner Drive.store :=
  Cloner
    (Drive.Store
       (list_to_map
          [("s", Drive.DriveFile "source" FOLDER_TYPE []);
           ("d", Drive.DriveFile "destination" FOLDER_TYPE []);
           ("o1", Drive.DriveFile "X" "mime" ["d"]);
           ("o2", Drive.DriveFile "X" "mime" ["d"]);
           ("T", Drive.DriveFile "Copy of X" "mime" ["s"])])
       [])
    [("s", folder_info "source"); ("d", folder_info "destination");
     ("o1", file_in "X" "d"); ("o2", file_in "X" "d")]
    ∅ [] [].

(** A source folder whose listing takes two pages: the original file on the
    first, a stray on the second. The unfiltered listing takes two pages as
    well. *)
Definition two_pages : cloner (list (request * result response)) :=
  Cloner
    [(List_ 1000 LIST_FIELDS None (Some (parent_query "s")),
      Ret (FileList [listed "3" "test_file" "mime" ["s"]] (Some "page-2")));
     (List_ 1000 LIST_FIELDS (Some "page-2") (Some (parent_query "s")),
      Ret (FileList [listed "5" "Copy of test_file" "mime" ["s"]] None));
     (List_ 1000 LIST_FIELDS None (Some (parent_query "d")),
      Ret (FileList [] None));
     (List_ 1000 LIST_FIELDS None None,
      Ret (FileList [listed "3" "test_file" "mime" ["s"]] (Some "page-2")));
     (List_ 1000 LIST_FIELDS (Some "page-2") None,
      Ret (FileList [listed "s" "source" FOLDER_TYPE ["root"];
                     listed "d" "destination" FOLDER_TYPE ["root"]] None))]
    [("3", Info None (Some "test_file") (Some "mime") (Some "s"))]
    ∅ [] [].

(** The third scenario of the repository's test of [_cleanup_files]: an
    original under ["s"], an earlier copy of it under ["d"], and a stray
    ["Copy of test_file"] under ["s"]. *)
Definition stray_and_old_copy : cloner Drive.store :=
  Cloner
    (Drive.Store
       (list_to_map
          [("s", Drive.DriveFile "source" FOLDER_TYPE []);
           ("d", Drive.DriveFile "destination" FOLDER_TYPE []);
           ("3", Drive.DriveFile "test_file" "mime" ["s"]);
           ("4", Drive.DriveFile "test_file" "mime" ["d"]);
           ("5", Drive.DriveFile "Copy of test_file" "mime" ["s"])])
       [])
    [("s", folder_info "source"); ("d", folder_info "destination");
     ("3", file_in "test_file" "s"); ("4", file_in "test_file" "d")]
    ∅ [] [].

(** The same with an empty clean name: the stray is named ["Copy of "] and
    the entry under ["d"] has the empty name. *)
Definition stray_with_empty_clean_name : cloner Drive.store :=
  Cloner
    (Drive.Store
       (list_to_map
          [("s", Drive.DriveFile "source" FOLDER_TYPE []);
           ("d", Drive.DriveFile "destination" FOLDER_TYPE []);
           ("4", Drive.DriveFile "" "mime" ["d"]);
           ("5", Drive.DriveFile "Copy of " "mime" ["s"])])
       [])
    [("s", folder_info "source"); ("d", folder_info "destination");
     ("4", file_in "" "d")]
    ∅ [] [].

(** A stray ["Copy of X"] shown under both parents, an entry ["X"] under
    ["d"], and a second stray under ["s"] whose clean name is
    ["Copy of X"]. *)
Definition stray_beside_its_copy : cloner Drive.store :=
  Cloner
    (Drive.Store
       (list_to_map
          [("s", Drive.DriveFile "source" FOLDER_TYPE []);
           ("d", Drive.DriveFile "destination" FOLDER_TYPE []);
           ("4", Drive.DriveFile "X" "mime" ["d"]);
           ("A", Drive.DriveFile "Copy of X" "mime" ["s"; "d"]);
           ("T", Drive.DriveFile "Copy of Copy of X" "mime" ["s"])])
       [])
    [("s", folder_info "source"); ("d", folder_info "destination");
     ("4", file_in "X" "d")]
    ∅ [] [].

(** A stray ["Copy of Copy of Y"], the entry ["Copy of Y"] under ["d"], and
    a second stray under ["s"] that is itself named ["Copy of Y"] and has
    an empty mime-type. *)
Definition stray_beside_an_untyped_namesake : cloner Drive.store :=
  Cloner
    (Drive.Store
       (list_to_map
          [("s", Drive.DriveFile "source" FOLDER_TYPE []);
           ("d", Drive.DriveFile "destination" FOLDER_TYPE []);
           ("4", Drive.DriveFile "Copy of Y" "mime" ["d"]);
           ("5", Drive.DriveFile "Copy of Copy of Y" "mime" ["s"]);
           ("6", Drive.DriveFile "Copy of Y" "" ["s"])])
       [])
    [("s", folder_info "source"); ("d", folder_info "destination");
     ("4", file_in "Copy of Y" "d")]
    ∅ [] [].

(** A stray ["Copy of X"] with an empty mime-type, and the entry ["X"]
    under ["d"]. *)
Definition stray_without_mime_type : cloner Drive.store :=
  Cloner
    (Drive.Store
       (list_to_map
          [("s", Drive.DriveFile "source" FOLDER_TYPE []);
           ("d", Drive.DriveFile "destination" FOLDER_TYPE []);
           ("4", Drive.DriveFile "X" "mime" ["d"]);
           ("5", Drive.DriveFile "Copy of X" "" ["s"])])
       [])
    [("s", folder_info "source"); ("d", folder_info "destination");
     ("4", file_in "X" "d")]
    ∅ [] [].

(** A stray ["Copy of X"] under the parent whose id is the empty string,
    and the entry ["X"] under ["d"]. *)
Definition stray_under_the_empty_id : cloner Drive.store :=
  Cloner
    (Drive.Store
       (list_to_map
          [("d", Drive.DriveFile "destination" FOLDER_TYPE []);
           ("4", Drive.DriveFile "X" "mime" ["d"]);
           ("5", Drive.DriveFile "Copy of X" "mime" [""])])
       [])
    [("d", folder_info "destination"); ("4", file_in "X" "d")]
    ∅ [] [].

(** Two strays under ["s"], ["Copy of test_file"] and ["Copy of notes"],
    the originals beside them, and an earlier copy of the first under
    ["d"]. *)
Definition two_strays_and_old_copy : cloner Drive.store :=
  Cloner
    (Drive.Store
       (list_to_map
          [("s", Drive.DriveFile "source" FOLDER_TYPE []);
           ("d", Drive.DriveFile "destination" FOLDER_TYPE []);
           ("2", Drive.DriveFile "notes" "mime" ["s"]);
           ("3", Drive.DriveFile "test_file" "mime" ["s"]);
           ("4", Drive.DriveFile "test_file" "mime" ["d"]);
           ("5", Drive.DriveFile "Copy of test_file" "mime" ["s"]);
           ("6", Drive.DriveFile "Copy of notes" "mime" ["s"])])
       [])
    [("s", folder_info "source"); ("d", folder_info "destination");
     ("2", file_in "notes" "s"); ("3", file_in "test_file" "s");
     ("4", file_in "test_file" "d")]
    ∅ [] [].

(** ** What a page keeps of a resource *)

(** The entry stored under the id of a resource seen for the first time:
    every key but the id, ["parents"] as ["parent"] with its first element. *)
Definition info_of_resource (f : file_resource) : info :=
  {| i_kind := r_kind f; i_name := r_name f; i_mimeType := r_mimeType f;
     i_parent := r_parents f ≫= head |}.

(** The exception the loop of [_get_file_info_one_page] raises on a
    resource, if any: [file.pop("id")] on a resource without id, [v[0]] on
    an empty list of parents. *)
Definition resource_error (f : file_resource) : option exn :=
  match r_id f, r_parents f with
  | None, _ => Some (KeyError "id")
  | Some _, Some [] => Some IndexError
  | Some _, _ => None
  end.

Definition is_sleep (e : event) : bool :=
  match e with Sleep _ => true | Request _ => false end.

(** ** Relations between the object before and after a call *)

Section Bookkeeping.
Context {W : Type} `{!Service W}.

(** The three local stores are untouched. *)
Definition same_stores (self self' : cloner W) : Prop :=
  file_info self' = file_info self
  ∧ copied_files self' = copied_files self
  ∧ folders_copied self' = folders_copied self.

(** Nothing but the ids of [marked] was added to [copied_files]; the
    snapshot and [folders_copied] are untouched. *)
Definition marks (marked : gset string) (self self' : cloner W) : Prop :=
  file_info self' = file_info self
  ∧ folders_copied self' = folders_copied self
  ∧ copied_files self ⊆ copied_files self'
  ∧ copied_files self' ⊆ marked ∪ copied_files self.

(** The two stores agree with the snapshot and with each other: an id
    marked as copied is a key of the snapshot, and the source of a recorded
    folder is marked as copied. *)
Definition consistent (self : cloner W) : Prop :=
  (∀ file_id, file_id ∈ copied_files self → dict_mem file_id (file_info self) = true)
  ∧ Forall (λ pair, pair.1 ∈ copied_files self) (folders_copied self).

(** How a call may change an object: the snapshot is kept, ids are only
    added to [copied_files] and each added id is a key of the snapshot,
    pairs are only appended to [folders_copied] and the source of each
    appended pair is marked as copied afterwards. *)
Definition keeps (self self' : cloner W) : Prop :=
  file_info self' = file_info self
  ∧ copied_files self ⊆ copied_files self'
  ∧ (∀ file_id, file_id ∈ copied_files self' →
       file_id ∈ copied_files self ∨ dict_mem file_id (file_info self) = true)
  ∧ ∃ new, folders_copied self' = folders_copied self ++ new
           ∧ Forall (λ pair, pair.1 ∈ copied_files self') new.

End Bookkeeping.

(** The first lookup of [copy_file] that fails, if any: the item in the
    snapshot, then its ["parent"], ["name"] and ["mimeType"]. *)
Definition lookup_error (snapshot : dict string info) (file_id : string) : option exn :=
  match dict_get file_id snapshot with
  | None => Some (KeyError file_id)
  | Some current =>
      match i_parent current, i_name current, i_mimeType current with
      | None, _, _ => Some (KeyError "parent")
      | Some _, None, _ => Some (KeyError "name")
      | Some _, Some _, None => Some (KeyError "mimeType")
      | Some _, Some _, Some _ => None
      end
  end.

(** What a pass of [_cleanup_files] over the destination [d] may put in the
    log, given the snapshot: listings without a page token, deletions,
    look-ups, and moves into [d] of files the snapshot does not know. *)
Definition cleanup_request (snapshot : dict string info) (d : string) (e : event) : Prop :=
  match e with
  | Request (List_ _ _ token _) => token = None
  | Request (Delete _) | Request (Get _ _) => True
  | Request (Update file_id added _ _) => added = d ∧ dict_mem file_id snapshot = false
  | Request (Copy _) | Request (Create _ _ _) | Sleep _ => False
  end.

(** ** The mock provider of the repository's tests *)

(** [del d[k]] on a dict that has the key, and [l.remove(x)]: the first
    occurrence goes. *)
Fixpoint dict_del {K V} `{EqDecision K} (k : K) (d : dict K V) : dict K V :=
  match d with
  | [] => []
  | (k', v) :: d' => if decide (k = k') then d' else (k', v) :: dict_del k d'
  end.

Fixpoint list_remove (x : string) (l : list string) : option (list string) :=
  match l with
  | [] => None
  | y :: l' => if decide (x = y) then Some l' else (y ::.) <$> list_remove x l'
  end.

(** [fields.split(",")] *)
Fixpoint split_commas (s : string) : list string :=
  match s with
  | EmptyString => [EmptyString]
  | String c s' =>
      if String.eqb (String c EmptyString) "," then EmptyString :: split_commas s'
      else match split_commas s' with
           | [] => [String c EmptyString]
           | x :: xs => String c x :: xs
           end
  end.

(** [tests/mock_service.py]: class [File] and class [MockService], the
    stand-in for the Drive [files()] resource that the tests hand to the
    cloner. [files] is a dict from id to [File]; [next_tokens] is a stack of
    tokens, and a listing pops one if there is any; [list_mock] and
    [get_mock] record the calls of [list] and [get]. The ids of new files
    come from [uuid4()], a random source: [uuid4] is the sequence of values
    it will return and [drawn] counts those already taken. A decorated
    method runs when [execute()] is called on what it returned, which the
    cloner does at once. *)
Module MockService.

Record file := MockFile {
  id : string;
  name : string;
  parents : list string;
  mimeType : string
}.

(** [File.__eq__]: the id does not count. *)
Definition file_eq (a b : file) : bool :=
  bool_decide (name a = name b ∧ parents a = parents b ∧ mimeType a = mimeType b).

(** [File.copy] *)
Definition copy (f : file) (new_id : string) : file :=
  MockFile new_id (name f) (parents f) (mimeType f).

Record state := MockState {
  files : dict string file;
  next_tokens : list string;
  list_mock : list request;
  get_mock : list request;
  uuid4 : nat → string;
  drawn : nat
}.

(** [MockService()] *)
Definition __init__ (uuid4 : nat → string) : state :=
  MockState [] [] [] [] uuid4 0.

(** [_add_file] *)
Definition _add_file (f : file) (self : state) : state :=
  MockState (dict_set (id f) f (files self)) (next_tokens self) (list_mock self)
    (get_mock self) (uuid4 self) (drawn self).

(** [_get(fileId, fields)]: every requested field gets a dummy value, and
    the four real ones are laid over them. Of the dummies only ["kind"] has
    a place in a [file_resource]; the cloner reads no other. *)
Definition _get (fileId fields : string) (self : state) : result file_resource :=
  match dict_get fileId (files self) with
  | None => Raise (KeyError fileId)
  | Some f =>
      Ret {| r_id := Some fileId;
             r_kind := if bool_decide ("kind" ∈ split_commas fields)
                       then Some "kind_value" else None;
             r_name := Some (name f);
             r_mimeType := Some (mimeType f);
             r_parents := Some (parents f) |}
  end.

(** The comprehension of [list]: [_get] for every key of [files]. *)
Definition listed_files (self : state) : list file_resource :=
  omap (λ kf, match _get kf.1 "name,parents,mimeType" self with
              | Ret r => Some r
              | Raise _ => None
              end) (files self).

#[global] Instance execute : Service state := λ r self,
  match r with
  | List_ _ _ _ _ =>
      (Ret (FileList (listed_files self) (last (next_tokens self))),
       MockState (files self) (removelast (next_tokens self)) (list_mock self ++ [r])
         (get_mock self) (uuid4 self) (drawn self))
  | Get fileId fields =>
      (match _get fileId fields self with
       | Ret f => Ret (File f)
       | Raise e => Raise e
       end,
       MockState (files self) (next_tokens self) (list_mock self) (get_mock self ++ [r])
         (uuid4 self) (drawn self))
  | Copy fileId =>
      match dict_get fileId (files self) with
      | None => (Raise (KeyError fileId), self)
      | Some old_file =>
          let new_id := uuid4 self (drawn self) in
          (Ret (id_only new_id),
           MockState (dict_set new_id (copy old_file new_id) (files self))
             (next_tokens self) (list_mock self) (get_mock self)
             (uuid4 self) (S (drawn self)))
      end
  | Delete fileId =>
      match dict_get fileId (files self) with
      | None => (Raise (KeyError fileId), self)
      | Some _ =>
          (Ret (id_only fileId),
           MockState (dict_del fileId (files self))
             (next_tokens self) (list_mock self) (get_mock self)
             (uuid4 self) (drawn self))
      end
  | Update file_id addParents removeParents new_name =>
      match dict_get file_id (files self) with
      | None => (Raise (KeyError file_id), self)
      | Some f =>
          match list_remove removeParents (parents f) with
          | None => (Raise ValueError, self)
          | Some rest =>
              (Ret (id_only file_id),
               MockState
                 (dict_set file_id
                    (MockFile (id f) new_name (rest ++ [addParents]) (mimeType f))
                    (files self))
                 (next_tokens self) (list_mock self) (get_mock self)
                 (uuid4 self) (drawn self))
          end
      end
  | Create new_name mime ps =>
      let file_id := uuid4 self (drawn self) in
      (Ret (id_only file_id),
       MockState (dict_set file_id (MockFile file_id new_name ps mime) (files self))
         (next_tokens self) (list_mock self) (get_mock self)
         (uuid4 self) (S (drawn self)))
  end.

(** What a page of the cloner holds for a file of the mock. *)
Definition info_of (f : file) : info :=
  Info None (Some (name f)) (Some (mimeType f)) (head (parents f)).

Definition page (self : state) : dict string info :=
  map (λ kf, (kf.1, info_of kf.2)) (files self).

End MockService.

(** ** The recursion of [copy_item] and its budget *)

Section Budget.
Context {W : Type} `{!Service W}.

(** One level of [copy_item]: its body, with the call it makes for every
    child as a parameter. [copy_item (S depth)] is this body over
    [copy_item depth]. *)
Definition copy_item_body
    (copy_item_ : string → string → option string → M W (option string))
    (item_id destination_parent_id : string) (new_name : option string)
  : M W (option string) :=
  sleep COPY_SLEEP ;;
  snapshot ← gets file_info;
  item_info ← lift (getitem item_id snapshot);
  name ← lift (field "name" (i_name item_info));
  mimeType ← lift (field "mimeType" (i_mimeType item_info));
  copied ← gets copied_files;
  if decide (item_id ∈ copied) then mret None
  else if decide (mimeType = FOLDER_TYPE) then
    created_folder_id ←
      create_folder destination_parent_id
        (if truthy new_name then default "" new_name else name);
    snapshot ← gets file_info;
    child_files_to_copy ← lift (group_children snapshot item_id created_folder_id []);
    copy_children copy_item_ child_files_to_copy ;;
    copied_files_add item_id ;;
    folders_copied_append (item_id, created_folder_id) ;;
    mret (Some created_folder_id)
  else
    moved ← copy_file item_id destination_parent_id;
    mret (Some moved).

(** A computation that never raises [RecursionError]. *)
Definition quiet {A} (m : M W A) : Prop :=
  ∀ self, (m self).1 ≠ Raise RecursionError.

End Budget.

(** [fits snapshot depth item_id]: the items below [item_id] in the
    snapshot are nested less than [depth] deep. *)
Fixpoint fits (snapshot : dict string info) (depth : nat) (item_id : string) : bool :=
  match depth with
  | O => false
  | S depth' =>
      forallb (λ entry : string * info,
                 if decide (i_parent entry.2 = Some item_id)
                 then fits snapshot depth' entry.1 else true)
              snapshot
  end.

(** ** More concrete sessions *)

(** A provider whose only listing holds, between two well-formed
    resources, one with an empty list of parents. *)
Definition parentless_listing : cloner (list (result response)) :=
  Cloner [Ret (FileList [listed "1" "a" "mime" ["p"];
                         listed "2" "b" "mime" [];
                         listed "3" "c" "mime" ["p"]] None)]
         [] ∅ [] [].

(** Two pages that both list the id ["2"]. *)
Definition first_page : dict string info :=
  [("1", file_in "a" "p"); ("2", file_in "b" "p")].

Definition second_page : dict string info :=
  [("2", file_in "b2" "q"); ("3", file_in "c" "q")].

(** The snapshot the provider of [two_pages] gives to a new object, and
    that object. *)
Definition two_pages_snapshot : dict string info :=
  [("3", Info None (Some "test_file") (Some "mime") (Some "s"));
   ("s", Info None (Some "source") (Some FOLDER_TYPE) (Some "root"));
   ("d", Info None (Some "destination") (Some FOLDER_TYPE) (Some "root"))].

Definition two_pages_object : cloner (list (request * result response)) :=
  Cloner (service two_pages) two_pages_snapshot ∅ []
    [Request (List_ 1000 LIST_FIELDS None None);
     Request (List_ 1000 LIST_FIELDS (Some "page-2") None)].

(** A snapshot with one spreadsheet, and a provider that answers its copy,
    its move and the two listings of the clean-up. *)
Definition before_spreadsheet_copy : cloner (list (result response)) :=
  Cloner [Ret (id_only "c1"); Ret (id_only "c1");
          Ret (FileList [] None); Ret (FileList [] None)]
         [("1", Info None (Some "sheet") (Some SPREADSHEET_TYPE) (Some "2"))] ∅ [] [].

(** The groups of the children of ["R"] in [four_children]. *)
Definition four_children_groups : dict Z (list (string * string)) :=
  [(-1, [("p1", "n1"); ("p2", "n1")]); (1, [("F", "n1")]); (0, [("S", "n1")])].

(** The mock of the repository's test of [_get_file_info_one_page]: two
    files, each with one parent; [new_ids] stands for what [uuid4] will
    return. *)
Fixpoint new_ids (n : nat) : string :=
  match n with
  | O => "u"
  | S n' => "u" +:+ new_ids n'
  end.

Definition two_mock_files : MockService.state :=
  MockService._add_file (MockService.MockFile "11" "file11" ["12"] "mime")
    (MockService._add_file (MockService.MockFile "1" "file1" ["2"] "mime")
       (MockService.__init__ new_ids)).

Definition mock_session (tokens : list string) : cloner MockService.state :=
  Cloner (MockService.MockState (MockService.files two_mock_files) tokens [] [] new_ids 0)
    [] ∅ [] [].

(** * Properties *)

(** ** Dictionaries *)

Section Dict.
Context {K V : Type} `{EqDecision K}.
Implicit Types (d : dict K V) (k : K) (v : V).

Lemma dict_get_set_eq d k v : dict_get k (dict_set k v d) = Some v.
Proof.
  induction d as [|[k' v'] d IH]; simpl.
  - by rewrite decide_True.
  - destruct (decide (k = k')); simpl.
    + by rewrite decide_True.
    + by rewrite decide_False.
Qed.

Lemma dict_get_set_ne d k k' v : k ≠ k' → dict_get k' (dict_set k v d) = dict_get k' d.
Proof.
  intros Hne. induction d as [|[k0 v0] d IH]; simpl.
  - by rewrite decide_False.
  - destruct (decide (k = k0)) as [->|]; simpl.
    + by rewrite !decide_False.
    + destruct (decide (k' = k0)); done.
Qed.

Lemma dict_get_Some_elem d k v : dict_get k d = Some v → (k, v) ∈ d.
Proof.
  induction d as [|[k' v'] d IH]; simpl; [done|].
  destruct (decide (k = k')) as [->|].
  - intros [= ->]. left.
  - intros. right. auto.
Qed.

Lemma dict_get_None d k : dict_get k d = None ↔ k ∉ dict_keys d.
Proof.
  unfold dict_keys. induction d as [|[k' v'] d IH]; simpl.
  - split; [intros _|done]. apply not_elem_of_nil.
  - rewrite not_elem_of_cons. destruct (decide (k = k')); [|tauto].
    split; [done|]. tauto.
Qed.

Lemma dict_get_elem d k v : NoDup (dict_keys d) → (k, v) ∈ d → dict_get k d = Some v.
Proof.
  unfold dict_keys. induction d as [|[k' v'] d IH]; simpl.
  - intros _ Hin. by apply elem_of_nil in Hin.
  - intros [Hk' Hnd]%NoDup_cons [[= -> ->]|Hin]%elem_of_cons.
    + by rewrite decide_True.
    + rewrite decide_False; [auto|]. intros ->. apply Hk'.
      apply list_elem_of_fmap. by exists (k', v).
Qed.

Lemma dict_set_absent d k v : dict_get k d = None → dict_set k v d = d ++ [(k, v)].
Proof.
  induction d as [|[k' v'] d IH]; simpl; [done|].
  destruct (decide (k = k')); [done|]. intros. by rewrite IH.
Qed.

Lemma dict_keys_set d k v :
  dict_keys (dict_set k v d)
  = match dict_get k d with
    | Some _ => dict_keys d
    | None => dict_keys d ++ [k]
    end.
Proof.
  unfold dict_keys. induction d as [|[k' v'] d IH]; csimpl; [done|].
  destruct (decide (k = k')) as [->|]; csimpl; [done|].
  rewrite IH. by destruct (dict_get k d).
Qed.

Lemma dict_set_NoDup d k v : NoDup (dict_keys d) → NoDup (dict_keys (dict_set k v d)).
Proof.
  intros Hnd. rewrite dict_keys_set. destruct (dict_get k d) eqn:E; [done|].
  apply NoDup_app. split_and!; [done| |apply NoDup_singleton].
  intros x Hx ->%list_elem_of_singleton. by apply dict_get_None in E.
Qed.

Lemma dict_mem_true d k : dict_mem k d = true ↔ k ∈ dict_keys d.
Proof.
  unfold dict_mem. destruct (dict_get k d) eqn:E.
  - split; [intros _|done]. destruct (decide (k ∈ dict_keys d)); [done|].
    apply dict_get_None in n. congruence.
  - split; [done|]. intros Hin. by apply dict_get_None in E.
Qed.

End Dict.

(** ** The monad *)

Section Properties.
Context {W : Type} `{!Service W}.
Local Abbreviation cloner := (cloner W).
Local Abbreviation M := (M W).
Local Abbreviation extends := (@extends W).
Implicit Types self : cloner.

Lemma bind_unfold {A B} (m : M A) (k : A → M B) self :
  (m ≫= k) self
  = match m self with
    | (Ret a, self') => k a self'
    | (Raise e, self') => (Raise e, self')
    end.
Proof. reflexivity. Qed.

Lemma bind_Ret {A B} (m : M A) (k : A → M B) self a self1 :
  m self = (Ret a, self1) → (m ≫= k) self = k a self1.
Proof. intros E. by rewrite bind_unfold, E. Qed.

Lemma bind_Raise {A B} (m : M A) (k : A → M B) self e self1 :
  m self = (Raise e, self1) → (m ≫= k) self = (Raise e, self1).
Proof. intros E. by rewrite bind_unfold, E. Qed.

Lemma bind_inv {A B} (m : M A) (k : A → M B) self r self2 :
  (m ≫= k) self = (r, self2) →
  (∃ a self1, m self = (Ret a, self1) ∧ k a self1 = (r, self2))
  ∨ (∃ e, m self = (Raise e, self2) ∧ r = Raise e).
Proof.
  rewrite bind_unfold. destruct (m self) as [[a|e] self1]; intros E.
  - left. eauto.
  - right. injection E as <- <-. eauto.
Qed.

Section Always.
Context (R : relation cloner) `{!PreOrder R}.

Lemma bind_rel {A B} (m : M A) (k : A → M B) self :
  R self (m self).2 →
  (∀ a self1, m self = (Ret a, self1) → R self self1 → R self1 (k a self1).2) →
  R self ((m ≫= k) self).2.
Proof.
  intros Hm Hk. rewrite bind_unfold. destruct (m self) as [[a|e] self1] eqn:E; simpl in *.
  - etrans; [exact Hm|]. by apply Hk.
  - done.
Qed.

Lemma always_bind {A B} (m : M A) (k : A → M B) :
  always R m → (∀ a, always R (k a)) → always R (m ≫= k).
Proof. intros Hm Hk self. apply bind_rel; [apply Hm|]. intros. apply Hk. Qed.

Lemma always_mono {A} (R' : relation cloner) (m : M A) :
  (∀ s s', R' s s' → R s s') → always R' m → always R m.
Proof. intros HR Hm self. apply HR, Hm. Qed.

Lemma always_ret {A} (a : A) : always R (mret a : M A).
Proof. intros self. reflexivity. Qed.

Lemma always_raise {A} e : always R (raise e : M A).
Proof. intros self. reflexivity. Qed.

Lemma always_lift {A} (r : result A) : always R (lift r).
Proof. intros self. reflexivity. Qed.

Lemma always_gets {A} (f : cloner → A) : always R (gets f).
Proof. intros self. reflexivity. Qed.

Lemma always_for_each {A} (xs : list A) (body : A → M unit) :
  (∀ x, x ∈ xs → always R (body x)) → always R (for_each xs body).
Proof.
  induction xs as [|x xs IH]; intros Hbody; simpl.
  - apply always_ret.
  - apply always_bind.
    + apply Hbody. left.
    + intros _. apply IH. intros y Hy. apply Hbody. by right.
Qed.

End Always.

Ltac always_step :=
  lazymatch goal with
  | |- always _ (let _ := _ in _) => cbv zeta
  | |- always _ (mbind _ _) => apply always_bind; [apply _|try done|intros ?]
  | |- always _ (mret _) => apply always_ret; apply _
  | |- always _ (lift _) => apply always_lift; apply _
  | |- always _ (gets _) => apply always_gets; apply _
  | |- always _ (raise _) => apply always_raise; apply _
  | |- always _ (for_each _ _) => apply always_for_each; [apply _|]; intros ? ?
  | |- always _ (if ?b then _ else _) => destruct b
  | |- always _ (match ?x with _ => _ end) => destruct x
  end.

(** ** The local stores only grow *)

#[local] Instance extends_preorder : PreOrder extends.
Proof.
  split.
  - intros self. split; [done|done| |].
    + exists []. by rewrite app_nil_r.
    + exists []. by rewrite app_nil_r.
  - intros s1 s2 s3 [Hf1 Hc1 (n1 & Hn1 & Ha1) (e1 & He1)]
                     [Hf2 Hc2 (n2 & Hn2 & Ha2) (e2 & He2)].
    split.
    + congruence.
    + set_solver.
    + exists (n1 ++ n2). rewrite Hn2, Hn1, app_assoc. split; [done|].
      apply Forall_app. split; [done|]. by rewrite <- Hf1.
    + exists (e1 ++ e2). by rewrite He2, He1, app_assoc.
Qed.

Lemma extends_emit e : always extends (emit e).
Proof.
  intros self. split; simpl; [done|done| |by eexists].
  exists []. by rewrite app_nil_r.
Qed.

Lemma extends_sleep n : always extends (sleep n).
Proof. apply extends_emit. Qed.

Lemma extends_execute r : always extends (execute r).
Proof.
  intros self. unfold execute. simpl.
  destruct (service_execute r (service self)) as [resp w]. simpl.
  split; simpl; [done|done| |by eexists].
  exists []. by rewrite app_nil_r.
Qed.

Lemma extends_copied_files_add file_id : always extends (copied_files_add file_id).
Proof.
  intros self. split; simpl; [done|set_solver| |].
  - exists []. by rewrite app_nil_r.
  - exists []. by rewrite app_nil_r.
Qed.

Lemma extends_folders_copied_append self pair :
  is_snapshot_folder (file_info self) pair →
  extends self (folders_copied_append pair self).2.
Proof.
  intros Hp. split; simpl; [done|done| |].
  - exists [pair]. split; [done|]. by apply Forall_singleton.
  - exists []. by rewrite app_nil_r.
Qed.

Lemma extends_get_file_info_one_page t q : always extends (_get_file_info_one_page t q).
Proof.
  unfold _get_file_info_one_page. repeat always_step. apply extends_execute.
Qed.

Lemma extends_get_all_pages pages t acc : always extends (get_all_pages pages t acc).
Proof.
  revert t acc. induction pages as [|pages IH]; intros t acc; simpl.
  - always_step.
  - always_step; [apply extends_get_file_info_one_page|].
    repeat always_step. apply IH.
Qed.

Lemma extends_delete_file file_id : always extends (_delete_file file_id).
Proof. apply extends_execute. Qed.

Lemma extends_get_one_file_info file_id fields :
  always extends (_get_one_file_info file_id fields).
Proof. apply extends_execute. Qed.

Lemma extends_move_file file_id d p n m : always extends (move_file file_id d p n m).
Proof.
  unfold move_file. always_step.
  - always_step; [always_step|]. repeat always_step. apply extends_get_one_file_info.
  - repeat always_step. apply extends_execute.
Qed.

Lemma extends_cleanup_one p d names item : always extends (cleanup_one p d names item).
Proof.
  unfold cleanup_one. destruct item as [current_file_id file_info_].
  repeat always_step; first [apply extends_delete_file | apply extends_move_file].
Qed.

Lemma extends_cleanup_files p d : always extends (_cleanup_files p d).
Proof.
  unfold _cleanup_files.
  repeat always_step;
    first [apply extends_get_file_info_one_page | apply extends_cleanup_one].
Qed.

Lemma extends_copy_file file_id d : always extends (copy_file file_id d).
Proof.
  unfold copy_file.
  repeat always_step;
    first [apply extends_execute | apply extends_move_file | apply extends_sleep
          | apply extends_copied_files_add | apply extends_cleanup_files].
Qed.

Lemma extends_create_folder d n : always extends (create_folder d n).
Proof. unfold create_folder. repeat always_step. apply extends_execute. Qed.

Lemma extends_copy_item depth item_id d n : always extends (copy_item depth item_id d n).
Proof.
  revert item_id d n. induction depth as [|depth IH]; intros item_id d n; simpl.
  - always_step.
  - intros self. apply bind_rel; [apply _|apply extends_sleep|].
    intros [] self1 _ _. rewrite bind_unfold. simpl.
    rewrite bind_unfold. simpl.
    destruct (getitem item_id (file_info self1)) as [item_info|e] eqn:Hitem; simpl; [|done].
    rewrite bind_unfold. simpl.
    destruct (field "name" (i_name item_info)) as [name|e]; simpl; [|done].
    rewrite bind_unfold. simpl.
    destruct (field "mimeType" (i_mimeType item_info)) as [mime|e] eqn:Hmime; simpl; [|done].
    rewrite bind_unfold. simpl.
    destruct (decide (item_id ∈ copied_files self1)); [done|].
    destruct (decide (mime = FOLDER_TYPE)) as [->|].
    + apply bind_rel; [apply _|apply extends_create_folder|].
      intros created self2 _ H12. rewrite bind_unfold. simpl.
      rewrite bind_unfold. simpl.
      destruct (group_children _ _ _ _) as [groups|e]; simpl; [|done].
      apply bind_rel; [apply _| |].
      { unfold copy_children. apply (always_for_each extends). intros priority _.
        apply always_for_each; [apply _|]. intros [f c] _.
        repeat always_step. }
      intros [] self3 _ H23. rewrite bind_unfold. simpl.
      split; simpl; [done|set_solver| |exists []; by rewrite app_nil_r].
      exists [(item_id, created)]. split; [done|]. apply Forall_singleton.
      rewrite (ext_file_info _ _ H23), (ext_file_info _ _ H12).
      exists item_info. split.
      * unfold getitem in Hitem. simpl.
        destruct (dict_get item_id (file_info self1)); congruence.
      * simpl in Hmime. destruct (i_mimeType item_info); simpl in Hmime; congruence.
    + apply (always_bind extends); [apply extends_copy_file|].
      intros moved. always_step.
Qed.

Lemma extends_run_cleanup : always extends run_cleanup.
Proof.
  unfold run_cleanup. repeat always_step. apply extends_cleanup_files.
Qed.

Lemma extends_run depth b d n : always extends (run depth b d n).
Proof.
  intros self. unfold run.
  pose proof (extends_copy_item depth b d n self) as H1.
  destruct (copy_item depth b d n self) as [outcome self1]. simpl in H1.
  etrans; [exact H1|]. revert self1 H1. intros self1 _. revert self1.
  change (always extends
    (sleep CLEANUP_SLEEP ;; run_cleanup ;;
     match outcome with Raise e => raise e | Ret r => mret r end : M (option string))).
  repeat always_step; first [apply extends_sleep | apply extends_run_cleanup].
Qed.

Lemma extends_perform self c : extends self (perform self c).
Proof.
  destruct c; simpl.
  - apply extends_get_all_pages.
  - apply extends_get_file_info_one_page.
  - apply extends_execute.
  - apply extends_delete_file.
  - apply extends_cleanup_files.
  - apply extends_get_one_file_info.
  - apply extends_move_file.
  - apply extends_copy_file.
  - apply extends_create_folder.
  - apply extends_copy_item.
  - apply extends_run_cleanup.
  - apply extends_run.
Qed.

Lemma extends_session calls self : extends self (session self calls).
Proof.
  revert self. induction calls as [|c calls IH]; intros self; simpl.
  - reflexivity.
  - etrans; [apply extends_perform|apply IH].
Qed.

(** C8. Whatever methods are called on the object after its construction, and
    whether they return or raise: [file_info] stays what it was,
    [copied_files] loses no element, and [folders_copied] only gets pairs
    appended whose source id is a key of [file_info] with the folder
    mime-type. *)
Theorem local_stores_only_grow (self : cloner) (calls : list call) :
  file_info (session self calls) = file_info self
  ∧ copied_files self ⊆ copied_files (session self calls)
  ∧ ∃ new, folders_copied (session self calls) = folders_copied self ++ new
           ∧ Forall (is_snapshot_folder (file_info self)) new.
Proof.
  destruct (extends_session calls self) as [Hf Hc Hn _]. auto.
Qed.

(** ** Copying an item twice *)

Lemma bind_Ret_inv {A B} (m : M A) (k : A → M B) self b self2 :
  (m ≫= k) self = (Ret b, self2) →
  ∃ a self1, m self = (Ret a, self1) ∧ k a self1 = (Ret b, self2).
Proof. intros [H|(e & _ & [=])]%bind_inv. done. Qed.

Lemma lift_Ret_inv {A} (r : result A) self a (self1 : cloner) :
  lift r self = (Ret a, self1) → r = Ret a ∧ self1 = self.
Proof. by intros [= -> ->]. Qed.

Lemma field_Ret_inv key o v : field key o = Ret v → o = Some v.
Proof. destruct o; simpl; congruence. Qed.

Lemma getitem_Ret_inv {V} k (d : dict string V) v : getitem k d = Ret v → dict_get k d = Some v.
Proof. unfold getitem. destruct (dict_get k d); congruence. Qed.

Lemma copy_file_Ret file_id d self moved self1 :
  copy_file file_id d self = (Ret moved, self1) → file_id ∈ copied_files self1.
Proof.
  unfold copy_file. intros H.
  apply bind_Ret_inv in H as (cloned & s1 & _ & H).
  rewrite bind_unfold in H. simpl in H.
  do 5 (apply bind_Ret_inv in H as (? & ? & [_ ->]%lift_Ret_inv & H)).
  apply bind_Ret_inv in H as (? & s2 & _ & H).
  apply bind_Ret_inv in H as ([] & s3 & _ & H).
  apply bind_Ret_inv in H as ([] & s4 & Hadd & H).
  apply bind_Ret_inv in H as ([] & s5 & Hclean & H).
  injection H as _ <-.
  match type of Hclean with
  | ?m ?s = _ => pose proof (extends_cleanup_files _ _ s : extends s (m s).2) as Hext
  end.
  rewrite Hclean in Hext.
  apply (ext_copied_files _ _ Hext).
  injection Hadd as <-. simpl. set_solver.
Qed.

Lemma copy_item_Ret depth item_id d n self new_id self1 :
  copy_item depth item_id d n self = (Ret (Some new_id), self1) →
  item_id ∈ copied_files self1
  ∧ ∃ item_info name mime, dict_get item_id (file_info self) = Some item_info
      ∧ i_name item_info = Some name ∧ i_mimeType item_info = Some mime.
Proof.
  destruct depth as [|depth]; simpl; [done|]. intros H.
  rewrite bind_unfold in H. simpl in H. rewrite bind_unfold in H. simpl in H.
  apply bind_Ret_inv in H as (item_info & ? & [Hitem%getitem_Ret_inv ->]%lift_Ret_inv & H).
  apply bind_Ret_inv in H as (name & ? & [Hname%field_Ret_inv ->]%lift_Ret_inv & H).
  apply bind_Ret_inv in H as (mime & ? & [Hmime%field_Ret_inv ->]%lift_Ret_inv & H).
  simpl in Hitem. split; [|by eauto 6].
  rewrite bind_unfold in H. simpl in H.
  destruct (decide (item_id ∈ _)); [done|].
  destruct (decide (mime = FOLDER_TYPE)).
  - apply bind_Ret_inv in H as (created & s2 & _ & H).
    rewrite bind_unfold in H. simpl in H.
    apply bind_Ret_inv in H as (groups & ? & [_ ->]%lift_Ret_inv & H).
    apply bind_Ret_inv in H as ([] & s3 & _ & H).
    rewrite bind_unfold in H. simpl in H.
    injection H as _ <-. simpl. set_solver.
  - apply bind_Ret_inv in H as (moved & s2 & Hcopy & H).
    injection H as _ <-. by eapply copy_file_Ret.
Qed.

Lemma copy_item_copied depth item_id d n self :
  item_id ∈ copied_files self →
  copy_item (S depth) item_id d n self
  = (match dict_get item_id (file_info self) with
     | None => Raise (KeyError item_id)
     | Some item_info =>
         match i_name item_info, i_mimeType item_info with
         | None, _ => Raise (KeyError "name")
         | Some _, None => Raise (KeyError "mimeType")
         | Some _, Some _ => Ret None
         end
     end,
     (sleep COPY_SLEEP self).2).
Proof.
  intros Hin. simpl. rewrite bind_unfold. simpl. rewrite bind_unfold. simpl.
  unfold getitem. destruct (dict_get item_id (file_info self)) as [item_info|]; [|done].
  rewrite bind_unfold. simpl.
  destruct (i_name item_info); simpl; [|done].
  rewrite bind_unfold. simpl.
  destruct (i_mimeType item_info); simpl; [|done].
  rewrite bind_unfold. simpl. rewrite bind_unfold. simpl. by rewrite decide_True.
Qed.

(** C2. Once [copy_item] has returned an id for [item_id], a later call for
    the same item in the same session (whatever was called in between, with
    whatever destination) returns [None]; it only sleeps: no request is sent
    and the provider is left as it was. *)
Theorem copy_item_twice depth item_id d n self new_id self1 calls depth' d' n' :
  copy_item depth item_id d n self = (Ret (Some new_id), self1) →
  copy_item (S depth') item_id d' n' (session self1 calls)
  = (Ret None, (sleep COPY_SLEEP (session self1 calls)).2)
  ∧ service (sleep COPY_SLEEP (session self1 calls)).2 = service (session self1 calls)
  ∧ log (sleep COPY_SLEEP (session self1 calls)).2
    = log (session self1 calls) ++ [Sleep COPY_SLEEP].
Proof.
  intros H. split; [|done].
  pose proof (extends_copy_item depth item_id d n self) as H01. rewrite H in H01.
  simpl in H01.
  apply copy_item_Ret in H as (Hin & item_info & name & mime & Hitem & Hname & Hmime).
  pose proof (extends_session calls self1) as H12.
  assert (item_id ∈ copied_files (session self1 calls)) as Hin2.
  { by apply (ext_copied_files _ _ H12). }
  rewrite (copy_item_copied _ _ _ _ _ Hin2).
  by rewrite (ext_file_info _ _ H12), (ext_file_info _ _ H01), Hitem, Hname, Hmime.
Qed.

(** C6, as the code has it. For an item already in [copied_files],
    [copy_item] sleeps and then looks the item up in the snapshot before it
    tests the membership: it returns [None] when the snapshot has the item
    with its name and mime-type, and raises [KeyError] otherwise. Either way
    no request is sent. *)
Theorem copy_item_copied_no_op depth item_id d n self :
  item_id ∈ copied_files self →
  copy_item (S depth) item_id d n self
  = (match dict_get item_id (file_info self) with
     | None => Raise (KeyError item_id)
     | Some item_info =>
         match i_name item_info, i_mimeType item_info with
         | None, _ => Raise (KeyError "name")
         | Some _, None => Raise (KeyError "mimeType")
         | Some _, Some _ => Ret None
         end
     end,
     (sleep COPY_SLEEP self).2)
  ∧ service (sleep COPY_SLEEP self).2 = service self
  ∧ log (sleep COPY_SLEEP self).2 = log self ++ [Sleep COPY_SLEEP].
Proof. intros Hin. split; [by apply copy_item_copied|done]. Qed.


(** ** What [move_file] sends *)

Lemma emitted_app {A} (m : M A) self events :
  log (m self).2 = log self ++ events → emitted m self = events.
Proof. unfold emitted. intros ->. by rewrite drop_app_length. Qed.

Lemma emitted_ext {A} (m m' : M A) self self' :
  m self = m' self' → emitted m self = drop (length (log self)) (log (m' self').2).
Proof. unfold emitted. by intros ->. Qed.

Lemma execute_log r self : log (execute r self).2 = log self ++ [Request r].
Proof.
  unfold execute. simpl. by destruct (service_execute r (service self)).
Qed.

Lemma execute_file_info r self : file_info (execute r self).2 = file_info self.
Proof.
  unfold execute. simpl. by destruct (service_execute r (service self)).
Qed.

Lemma execute_fst r self : (execute r self).1 = (service_execute r (service self)).1.
Proof.
  unfold execute. simpl. by destruct (service_execute r (service self)).
Qed.

Lemma execute_service r self :
  service (execute r self).2 = (service_execute r (service self)).2.
Proof.
  unfold execute. simpl. by destruct (service_execute r (service self)).
Qed.

(** The log after [move_file], in full. *)
Lemma move_file_log file_id d p n m self :
  log (move_file file_id d p n m self).2
  = log self ++
    if truthy p && truthy n && truthy m
    then [Request (Update file_id d (default "" p) (default "" n))]
    else Request (Get file_id GET_FIELDS) ::
         match (service_execute (Get file_id GET_FIELDS) (service self)).1 with
         | Ret resp =>
             match resp_first_parent resp,
                   field "name" (r_name (resp_resource resp)),
                   field "mimeType" (r_mimeType (resp_resource resp)) with
             | Ret p', Ret n', Ret _ => [Request (Update file_id d p' n')]
             | _, _, _ => []
             end
         | Raise _ => []
         end.
Proof.
  unfold move_file. destruct (truthy p && truthy n && truthy m).
  - rewrite bind_unfold. simpl. rewrite bind_unfold.
    pose proof (execute_log (Update file_id d (default "" p) (default "" n)) self) as Hl.
    destruct (execute _ self) as [[resp|e] self1]; simpl in *; [|done].
    by destruct (resp_id resp).
  - rewrite bind_unfold. rewrite bind_unfold. unfold _get_one_file_info.
    change (String.concat "," ["id"; "mimeType"; "name"; "parents"]) with GET_FIELDS.
    pose proof (execute_log (Get file_id GET_FIELDS) self) as Hl.
    pose proof (execute_fst (Get file_id GET_FIELDS) self) as Hr.
    destruct (execute _ self) as [[resp|e] self1]; simpl in Hl, Hr; rewrite <- Hr;
      [|simpl; by rewrite Hl].
    rewrite bind_unfold. simpl.
    destruct (resp_first_parent resp) as [p'|e]; simpl; [|by rewrite Hl].
    rewrite bind_unfold. simpl.
    destruct (r_name (resp_resource resp)) as [n'|]; simpl; [|by rewrite Hl].
    rewrite bind_unfold. simpl.
    destruct (r_mimeType (resp_resource resp)) as [m'|]; simpl; [|by rewrite Hl].
    rewrite bind_unfold.
    pose proof (execute_log (Update file_id d p' n') self1) as Hl1.
    destruct (execute _ self1) as [[resp1|e] self2]; simpl in *.
    + destruct (resp_id resp1); simpl; by rewrite Hl1, Hl, <- app_assoc.
    + by rewrite Hl1, Hl, <- app_assoc.
Qed.

(** C9, as the code has it. [move_file] tests its three optional arguments
    for truth, so an argument that is [None] or the empty string counts as
    missing. When all three are non-empty the only request is the [Update],
    with the caller's parent and name. Otherwise a [Get] for the file comes
    first, and the [Update] (if the answer has what it needs) carries the
    first parent and the name of that answer. *)
Theorem move_file_requests file_id d p n m self :
  emitted (move_file file_id d p n m) self
  = (if truthy p && truthy n && truthy m
     then [Request (Update file_id d (default "" p) (default "" n))]
     else Request (Get file_id GET_FIELDS) ::
          match (service_execute (Get file_id GET_FIELDS) (service self)).1 with
          | Ret resp =>
              match resp_first_parent resp,
                    field "name" (r_name (resp_resource resp)),
                    field "mimeType" (r_mimeType (resp_resource resp)) with
              | Ret p', Ret n', Ret _ => [Request (Update file_id d p' n')]
              | _, _, _ => []
              end
          | Raise _ => []
          end)
  ∧ (Request (Get file_id GET_FIELDS) ∈ emitted (move_file file_id d p n m) self
     ↔ truthy p && truthy n && truthy m = false).
Proof.
  assert (emitted (move_file file_id d p n m) self = _) as Heq
    by apply emitted_app, move_file_log.
  split; [exact Heq|]. rewrite Heq.
  destruct (truthy p && truthy n && truthy m).
  - split; [|done]. intros [=]%list_elem_of_singleton.
  - split; [done|]. intros _. left.
Qed.


(** ** The final sweep of [run] *)

Lemma sweep_for_each pairs self self2 :
  sweep pairs self self2 →
  for_each pairs (λ '(parent, destination), _cleanup_files parent destination) self
  = (Ret (), self2).
Proof.
  induction 1 as [|p d pairs self self1 self2 Hc _ IH]; simpl; [done|].
  by rewrite (bind_Ret _ _ _ _ _ Hc).
Qed.

Lemma sweep_stops_for_each pairs self e self2 :
  sweep_stops pairs self e self2 →
  for_each pairs (λ '(parent, destination), _cleanup_files parent destination) self
  = (Raise e, self2).
Proof.
  induction 1 as [p d pairs self e self1 Hc|p d pairs self self1 e self2 Hc _ IH]; simpl.
  - by rewrite (bind_Raise _ _ _ _ _ Hc).
  - by rewrite (bind_Ret _ _ _ _ _ Hc).
Qed.

(** Every sweep either goes through or stops at the first failure. *)
Lemma sweep_or_stops pairs self :
  (∃ self2, sweep pairs self self2) ∨ (∃ e self2, sweep_stops pairs self e self2).
Proof.
  revert self. induction pairs as [|[p d] pairs IH]; intros self.
  - left. eexists. constructor.
  - destruct (_cleanup_files p d self) as [[[]|e] self1] eqn:Hc.
    + destruct (IH self1) as [[self2 Hs]|(e & self2 & Hs)].
      * left. exists self2. by eapply sweep_cons.
      * right. exists e, self2. by eapply stops_later.
    + right. exists e, self1. by apply stops_here.
Qed.

(** C1, as the code has it. Whatever [copy_item] did (returned or raised),
    [run] sleeps [CLEANUP_SLEEP] and calls [_cleanup_files] for the pairs
    recorded in [folders_copied] by then, in order. When each of these calls
    returns, [run] ends as [copy_item] did: the same exception, or the same
    result. When one of them raises, the sweep stops there, the later pairs
    are not cleaned up, and that exception is the one [run] raises. *)
Theorem run_sweeps_then_ends_as_copy_item depth b d n self outcome self1 :
  copy_item depth b d n self = (outcome, self1) →
  (∀ self2,
     sweep (folders_copied self1) (sleep CLEANUP_SLEEP self1).2 self2 →
     run depth b d n self = (outcome, self2))
  ∧ (∀ e self2,
       sweep_stops (folders_copied self1) (sleep CLEANUP_SLEEP self1).2 e self2 →
       run depth b d n self = (Raise e, self2)).
Proof.
  intros Hcopy. unfold run. rewrite Hcopy. split.
  - intros self2 Hsweep%sweep_for_each.
    rewrite bind_unfold. simpl. rewrite bind_unfold. unfold run_cleanup.
    rewrite bind_unfold. simpl. simpl in Hsweep. rewrite Hsweep.
    by destruct outcome.
  - intros e self2 Hsweep%sweep_stops_for_each.
    rewrite bind_unfold. simpl. rewrite bind_unfold. unfold run_cleanup.
    rewrite bind_unfold. simpl. simpl in Hsweep. by rewrite Hsweep.
Qed.

(** ** The order in which the children of a folder are copied *)

Lemma priority_of_cases mimeType :
  priority_of mimeType
  = if is_folder mimeType then 1 else if is_spreadsheet mimeType then 0 else -1.
Proof.
  unfold priority_of, is_folder, is_spreadsheet. simpl.
  repeat case_decide; repeat case_bool_decide; simpl; congruence.
Qed.

Lemma child_pairs_ext kind1 kind2 snapshot item_id created :
  (∀ m, kind1 m = kind2 m) →
  child_pairs kind1 snapshot item_id created = child_pairs kind2 snapshot item_id created.
Proof.
  intros Hk. unfold child_pairs.
  induction snapshot as [|[file_id file] snapshot IH]; csimpl; [done|].
  rewrite IH. case_decide; [|done].
  destruct (i_mimeType file); simpl; [|done]. by rewrite Hk.
Qed.

Lemma child_pairs_cons kind item snapshot item_id created :
  child_pairs kind (item :: snapshot) item_id created
  = child_pairs kind [item] item_id created ++ child_pairs kind snapshot item_id created.
Proof.
  unfold child_pairs. csimpl.
  by destruct (let '(file_id, file) := item in _).
Qed.

Lemma child_pairs_one kind file_id file item_id created :
  child_pairs kind [(file_id, file)] item_id created
  = if decide (i_parent file = Some item_id) then
      match i_mimeType file with
      | Some m => if kind m then [(file_id, created)] else []
      | None => []
      end
    else [].
Proof.
  unfold child_pairs. cbn [omap list_omap]. case_decide; [|done].
  destruct (i_mimeType file) as [m|]; [|done]. cbn. by destruct (kind m).
Qed.

Lemma group_append_get priority pair groups p :
  default [] (dict_get p (group_append priority pair groups))
  = default [] (dict_get p groups) ++ (if decide (priority = p) then [pair] else []).
Proof.
  unfold group_append. case_decide as Hp.
  - subst. by rewrite dict_get_set_eq.
  - rewrite dict_get_set_ne by done. by rewrite app_nil_r.
Qed.

Lemma group_append_keys priority pair groups p :
  p ∈ dict_keys (group_append priority pair groups) → p ∈ dict_keys groups ∨ p = priority.
Proof.
  unfold group_append. rewrite dict_keys_set. destruct (dict_get _ _); [auto|].
  rewrite elem_of_app, list_elem_of_singleton. auto.
Qed.

(** What [group_children] builds: under every priority, the children of that
    priority in snapshot order; no key twice; no key but the three ranks. *)
Lemma group_children_spec items item_id created groups0 groups :
  group_children items item_id created groups0 = Ret groups →
  NoDup (dict_keys groups0) →
  NoDup (dict_keys groups)
  ∧ (∀ p, default [] (dict_get p groups)
          = default [] (dict_get p groups0)
            ++ child_pairs (has_priority p) items item_id created)
  ∧ (∀ p, p ∈ dict_keys groups → p ∈ dict_keys groups0 ∨ p = 1 ∨ p = 0 ∨ p = -1).
Proof.
  revert groups0.
  induction items as [|[file_id file] items IH]; intros groups0; cbn [group_children].
  - intros [= <-] Hnd. split_and!; [done| |auto]. intros p. by rewrite app_nil_r.
  - case_decide as Hparent.
    + destruct (i_mimeType file) as [mimeType|] eqn:Hmime; [|done].
      intros Hg Hnd. apply IH in Hg as (Hnd' & Hget & Hkeys);
        [|by apply dict_set_NoDup].
      split_and!; [done| |].
      * intros p. rewrite Hget, group_append_get, <- app_assoc. f_equal.
        rewrite (child_pairs_cons _ (file_id, file)). f_equal.
        rewrite child_pairs_one, Hmime. unfold has_priority.
        destruct (decide (i_parent file = Some item_id)); [|done].
        case_decide; case_bool_decide; done.
      * intros p Hp. destruct (Hkeys p Hp) as [Hp'|?]; [|auto].
        apply group_append_keys in Hp' as [?| ->]; [auto|].
        right. rewrite priority_of_cases. repeat case_match; auto.
    + intros Hg Hnd. apply IH in Hg as (Hnd' & Hget & Hkeys); [|done].
      split_and!; [done| |done]. intros p. rewrite Hget. f_equal.
      rewrite (child_pairs_cons _ (file_id, file)).
      rewrite child_pairs_one.
      by destruct (decide (i_parent file = Some item_id)).
Qed.

Lemma priorities_of_ranks (groups : dict Z (list (string * string))) :
  NoDup (dict_keys groups) →
  (∀ p, p ∈ dict_keys groups → p = 1 ∨ p = 0 ∨ p = -1) →
  priorities_of groups = filter (λ p, p ∈ dict_keys groups) [1; 0; -1].
Proof.
  intros Hnd Hkeys. unfold priorities_of.
  assert (merge_sort Z.le (dict_keys groups)
          = filter (λ p, p ∈ dict_keys groups) [-1; 0; 1]) as ->.
  { apply (Sorted_unique Z.le).
    - apply Sorted_merge_sort, _.
    - rewrite !filter_cons, filter_nil.
      repeat case_decide; repeat constructor; lia.
    - apply NoDup_Permutation.
      + by rewrite merge_sort_Permutation.
      + apply NoDup_filter. apply (bool_decide_unpack _). by vm_compute.
      + intros p. rewrite merge_sort_Permutation, list_elem_of_filter.
        split; [|tauto]. intros Hp. split; [done|].
        destruct (Hkeys p Hp) as [->|[->| ->]];
          apply (bool_decide_unpack _); by vm_compute. }
  rewrite !filter_cons, !filter_nil. by repeat case_decide.
Qed.

Lemma copy_order_ranks (groups : dict Z (list (string * string))) :
  NoDup (dict_keys groups) →
  (∀ p, p ∈ dict_keys groups → p = 1 ∨ p = 0 ∨ p = -1) →
  copy_order groups
  = default [] (dict_get 1 groups) ++ default [] (dict_get 0 groups)
    ++ default [] (dict_get (-1) groups).
Proof.
  intros Hnd Hkeys. unfold copy_order. rewrite priorities_of_ranks by done.
  rewrite !filter_cons, !filter_nil.
  repeat case_decide; simpl; rewrite ?app_nil_r;
    repeat match goal with
           | H : ?p ∉ dict_keys groups |- _ => apply dict_get_None in H; rewrite H
           end; simpl; by rewrite ?app_nil_r.
Qed.

Lemma for_each_app {A} (xs ys : list A) (body : A → M unit) self :
  for_each (xs ++ ys) body self = (for_each xs body ;; for_each ys body) self.
Proof.
  revert self. induction xs as [|x xs IH]; intros self; simpl; [done|].
  rewrite !bind_unfold. destruct (body x self) as [[[]|e] self1]; [|done].
  by rewrite IH.
Qed.

Lemma for_each_concat {A B} (f : A → list B) (ps : list A) (body : B → M unit) self :
  for_each ps (λ p, for_each (f p) body) self = for_each (concat (map f ps)) body self.
Proof.
  revert self. induction ps as [|p ps IH]; intros self; simpl; [done|].
  rewrite for_each_app, !bind_unfold.
  destruct (for_each (f p) body self) as [[[]|e] self1]; [|done]. apply IH.
Qed.

Lemma copy_children_order copy_item_ groups self :
  copy_children copy_item_ groups self
  = for_each (copy_order groups)
      (λ '(file_id, created_folder_id),
         copy_item_ file_id created_folder_id None ;; mret ()) self.
Proof. unfold copy_children, copy_order. apply for_each_concat. Qed.

(** The children of a folder are grouped by the rank of their mime-type
    (folder 1, spreadsheet 0, anything else -1) and copied group by group,
    highest rank first. *)
Lemma copy_children_by_rank snapshot item_id created groups copy_item_ self :
  group_children snapshot item_id created [] = Ret groups →
  copy_children copy_item_ groups self
  = for_each (child_pairs is_folder snapshot item_id created
              ++ child_pairs is_spreadsheet snapshot item_id created
              ++ child_pairs is_other snapshot item_id created)
      (λ '(file_id, created_folder_id),
         copy_item_ file_id created_folder_id None ;; mret ()) self.
Proof.
  intros (Hnd & Hget & Hkeys)%group_children_spec; [|constructor].
  rewrite copy_children_order, copy_order_ranks; [|done|].
  - rewrite !Hget. simpl.
    rewrite (child_pairs_ext (has_priority 1) is_folder),
            (child_pairs_ext (has_priority 0) is_spreadsheet),
            (child_pairs_ext (has_priority (-1)) is_other); [done|..];
      intros m; unfold has_priority, is_other; rewrite priority_of_cases;
      unfold is_folder, is_spreadsheet;
      repeat case_bool_decide; simplify_eq; done.
  - intros p Hp. destruct (Hkeys p Hp) as [[]%elem_of_nil|?]. done.
Qed.

(** [copy_item] on a folder that is not copied yet, once the new folder
    exists: the children are copied by rank, then the folder is recorded. *)
Lemma copy_item_folder depth item_id d n self item_info name created self1 :
  dict_get item_id (file_info self) = Some item_info →
  i_name item_info = Some name →
  i_mimeType item_info = Some FOLDER_TYPE →
  item_id ∉ copied_files self →
  create_folder d (if truthy n then default "" n else name) (sleep COPY_SLEEP self).2
  = (Ret created, self1) →
  copy_item (S depth) item_id d n self
  = match group_children (file_info self) item_id created [] with
    | Raise e => (Raise e, self1)
    | Ret _ =>
        (for_each (child_pairs is_folder (file_info self) item_id created
                   ++ child_pairs is_spreadsheet (file_info self) item_id created
                   ++ child_pairs is_other (file_info self) item_id created)
           (λ '(file_id, created_folder_id),
              copy_item depth file_id created_folder_id None ;; mret ()) ;;
         copied_files_add item_id ;;
         folders_copied_append (item_id, created) ;;
         mret (Some created)) self1
    end.
Proof.
  intros Hitem Hname Hmime Hnot Hcreate. cbn [copy_item].
  rewrite bind_unfold. cbn [sleep emit]. rewrite bind_unfold. cbn [gets file_info].
  rewrite bind_unfold. unfold getitem. rewrite Hitem. cbn [lift].
  rewrite bind_unfold, Hname. cbn [lift field].
  rewrite bind_unfold, Hmime. cbn [lift field].
  rewrite bind_unfold. cbn [gets copied_files].
  rewrite decide_False by done. rewrite decide_True by done.
  rewrite bind_unfold. change (emit (Sleep COPY_SLEEP) self).2 with (sleep COPY_SLEEP self).2 in *.
  cbn [sleep emit snd] in Hcreate. rewrite Hcreate.
  rewrite bind_unfold. cbn [gets].
  pose proof (extends_create_folder d (if truthy n then default "" n else name)
                (sleep COPY_SLEEP self).2) as Hext.
  cbn [sleep emit snd] in Hext. rewrite Hcreate in Hext.
  apply ext_file_info in Hext. cbn [snd file_info] in Hext. rewrite Hext.
  rewrite bind_unfold. unfold lift at 1.
  destruct (group_children (file_info self) item_id created []) as [groups|e] eqn:Hg;
    [|done].
  rewrite !(bind_unfold (copy_children _ _)).
  by rewrite (copy_children_by_rank _ _ _ _ _ _ Hg).
Qed.

(** ** What [_cleanup_files] sends *)

#[local] Arguments string_drop : simpl never.
#[local] Arguments String.prefix : simpl never.
#[local] Arguments String.length : simpl never.

Local Abbreviation emits := (@emits W).

#[local] Instance emits_preorder P : PreOrder (emits P).
Proof.
  split.
  - intros self. split; [done|]. exists []. by rewrite app_nil_r.
  - intros s1 s2 s3 [Hf1 (e1 & He1 & HP1)] [Hf2 (e2 & He2 & HP2)]. split; [congruence|].
    exists (e1 ++ e2). rewrite He2, He1, app_assoc. split; [done|].
    by apply Forall_app.
Qed.

Lemma emits_mono (P Q : event → Prop) self self' :
  (∀ e, P e → Q e) → emits P self self' → emits Q self self'.
Proof.
  intros HPQ [Hf (events & He & HP)]. split; [done|]. exists events. split; [done|].
  by eapply Forall_impl.
Qed.

Lemma emits_execute P r : P (Request r) → always (emits P) (execute r).
Proof.
  intros HP self. split; [apply execute_file_info|].
  exists [Request r]. split; [apply execute_log|]. by apply Forall_singleton.
Qed.

Lemma emits_move_file P file_id d p n m :
  P (Request (Get file_id GET_FIELDS)) →
  (∀ removed new_name, P (Request (Update file_id d removed new_name))) →
  always (emits P) (move_file file_id d p n m).
Proof.
  intros HG HU. unfold move_file. always_step.
  - always_step; [always_step|]. repeat always_step. by apply emits_execute.
  - repeat always_step. by apply emits_execute.
Qed.

Lemma cleanup_one_emits p d names item self :
  emits (cleanup_event (file_info self) names d item) self
    (cleanup_one p d names item self).2.
Proof.
  destruct item as [T iT]. unfold cleanup_one.
  rewrite bind_unfold. simpl.
  destruct (i_name iT) as [n|] eqn:Hn; simpl; [|reflexivity].
  rewrite bind_unfold. simpl.
  destruct (dict_mem T (file_info self)) eqn:Hmem; [reflexivity|].
  fold (clean n).
  assert (dict_get (clean n) names ≠ Some T →
          always (emits (cleanup_event (file_info self) names d (T, iT)))
            (lift (field "mimeType" (i_mimeType iT))
             ≫= λ mime_type,
                  move_file T d (Some p) (Some (clean n)) (Some mime_type) ;; mret ()))
    as Hmove.
  { intros Hne. repeat always_step. apply emits_move_file.
    - split; [done|]. exists n. split_and!; [done|done|]. right. by left.
    - intros removed new_name. split; [done|]. exists n.
      split_and!; [done|done|]. right. right. eauto. }
  destruct (dict_get (clean n) names) as [x|] eqn:Hx.
  - destruct (decide (x = T)) as [->|Hne]; [reflexivity|].
    assert (Some x ≠ Some T) as Hne' by (by intros [= ->]).
    apply (always_bind (emits _)); [|intros _; by apply Hmove].
    apply emits_execute. split; [done|]. exists n. rewrite Hx.
    split_and!; [done|done|]. left. eauto.
  - by apply Hmove.
Qed.

Lemma cleanup_loop_emits p d names items snapshot self :
  file_info self = snapshot →
  emits (λ e, ∃ item, item ∈ items ∧ cleanup_event snapshot names d item e)
    self (for_each items (cleanup_one p d names) self).2.
Proof.
  revert self. induction items as [|item items IH]; intros self Hsnap; simpl; [reflexivity|].
  apply (bind_rel (emits _)).
  - eapply emits_mono; [|apply cleanup_one_emits]. rewrite Hsnap.
    intros e He. exists item. split; [left|done].
  - intros [] self1 _ [Hf _]. eapply emits_mono; [|apply IH; congruence].
    intros e (item' & Hin & He). exists item'. split; [by right|done].
Qed.

(** The destination map sends a name to the id listed last under it. *)
Lemma name_to_id_get items acc names n :
  name_to_id items acc = Ret names →
  dict_get n names
  = match last_named n items with
    | Some k => Some k
    | None => dict_get n acc
    end.
Proof.
  unfold last_named. revert acc.
  induction items as [|[k v] items IH]; intros acc; cbn [name_to_id].
  - by intros [= <-].
  - destruct (i_name v) as [m|] eqn:Hm; [|done]. intros H. rewrite (IH _ H).
    rewrite filter_cons. cbn [snd]. rewrite Hm. case_decide as Hn.
    + injection Hn as ->. rewrite last_cons.
      destruct (last (filter _ items)); simpl; [done|]. apply dict_get_set_eq.
    + destruct (last (filter _ items)); simpl; [done|].
      apply dict_get_set_ne. congruence.
Qed.

Lemma last_named_Some n items k :
  last_named n items = Some k →
  ∃ i l1 l2, items = l1 ++ (k, i) :: l2 ∧ i_name i = Some n
             ∧ Forall (λ kv, i_name kv.2 ≠ Some n) l2.
Proof.
  unfold last_named. destruct (last _) as [[k' i]|] eqn:Hl; [|done]. intros [= ->].
  pose proof (last_Some_elem_of _ _ Hl) as [Hn _]%list_elem_of_filter.
  apply last_filter_Some in Hl as (l1 & l2 & -> & Hl2). eauto 6.
Qed.

Lemma name_to_id_Some dst names n k :
  name_to_id dst [] = Ret names → dict_get n names = Some k →
  ∃ i, (k, i) ∈ dst ∧ i_name i = Some n.
Proof.
  intros H. rewrite (name_to_id_get _ _ _ n H).
  destruct (last_named n dst) as [k'|] eqn:Hl; [|done]. intros [= ->].
  apply last_named_Some in Hl as (i & l1 & l2 & -> & Hn & _).
  exists i. split; [|done]. apply elem_of_app. right. left.
Qed.

Lemma name_to_id_inj dst names n1 n2 k :
  NoDup (dict_keys dst) → name_to_id dst [] = Ret names →
  dict_get n1 names = Some k → dict_get n2 names = Some k → n1 = n2.
Proof.
  intros Hnd H (i1 & Hi1 & Hn1)%(name_to_id_Some _ _ _ _ H)
               (i2 & Hi2 & Hn2)%(name_to_id_Some _ _ _ _ H).
  apply (dict_get_elem _ _ _ Hnd) in Hi1, Hi2. congruence.
Qed.

(** ** What a listing returns *)

Lemma add_file_NoDup f page page' :
  add_file f page = Ret page' → NoDup (dict_keys page) → NoDup (dict_keys page').
Proof.
  unfold add_file. destruct (r_id f); [|done].
  destruct (r_parents f) as [[|]|]; try done;
    (destruct (no_fields f); intros [= <-]; [done|]; apply dict_set_NoDup).
Qed.

Lemma add_files_NoDup fs page page' :
  add_files fs page = Ret page' → NoDup (dict_keys page) → NoDup (dict_keys page').
Proof.
  revert page. induction fs as [|f fs IH]; intros page; simpl.
  - by intros [= <-].
  - destruct (add_file f page) eqn:Hf; [|done]. intros H Hnd.
    apply (IH _ H). by apply (add_file_NoDup _ _ _ Hf).
Qed.

Lemma get_file_info_one_page_Ret t q self page token self1 :
  _get_file_info_one_page t q self = (Ret (page, token), self1) →
  NoDup (dict_keys page)
  ∧ file_info self1 = file_info self
  ∧ log self1
    = log self ++ [Request (List_ 1000 LIST_FIELDS (if truthy t then t else None)
                              (if truthy q then q else None))].
Proof.
  unfold _get_file_info_one_page. intros H.
  apply bind_Ret_inv in H as (resp & s1 & Hex & H).
  apply bind_Ret_inv in H as (fs & ? & [_ ->]%lift_Ret_inv & H).
  apply bind_Ret_inv in H as (page' & ? & [Hadd ->]%lift_Ret_inv & H).
  injection H as <- _ <-.
  pose proof (execute_log (List_ 1000 LIST_FIELDS (if truthy t then t else None)
                             (if truthy q then q else None)) self) as Hl.
  pose proof (execute_file_info (List_ 1000 LIST_FIELDS (if truthy t then t else None)
                             (if truthy q then q else None)) self) as Hf.
  rewrite Hex in Hl, Hf. split_and!; [|done|done].
  apply (add_files_NoDup _ _ _ Hadd). constructor.
Qed.

Lemma cleanup_files_loop p d self cur dst names self2 :
  cleanup_listing p d self cur dst names self2 →
  _cleanup_files p d self = for_each cur (cleanup_one p d names) self2.
Proof.
  intros (t1 & s1 & t2 & H1 & H2 & H3). unfold _cleanup_files.
  rewrite (bind_Ret _ _ _ _ _ H1). cbv zeta. rewrite (bind_Ret _ _ _ _ _ H2).
  rewrite bind_unfold. unfold lift. by rewrite H3.
Qed.

(** The log of a pass: the two listings, then what the loop sends. *)
Lemma cleanup_files_emitted p d self cur dst names self2 :
  cleanup_listing p d self cur dst names self2 →
  ∃ events,
    emitted (_cleanup_files p d) self
    = Request (List_ 1000 LIST_FIELDS None (Some (parent_query p)))
      :: Request (List_ 1000 LIST_FIELDS None (Some (parent_query d))) :: events
    ∧ Forall (λ e, ∃ item, item ∈ cur ∧ cleanup_event (file_info self) names d item e)
        events.
Proof.
  intros Hl. rewrite (emitted_ext _ _ _ _ (cleanup_files_loop _ _ _ _ _ _ _ Hl)).
  destruct Hl as (t1 & s1 & t2 & H1 & H2 & H3).
  apply get_file_info_one_page_Ret in H1 as (_ & Hf1 & Hl1).
  apply get_file_info_one_page_Ret in H2 as (_ & Hf2 & Hl2).
  destruct (cleanup_loop_emits p d names cur (file_info self) self2) as [_ (events & He & HP)];
    [congruence|].
  exists events. split; [|done]. unfold emitted. rewrite He, Hl2, Hl1.
  rewrite <- !app_assoc. by rewrite drop_app_length.
Qed.

Lemma cleanup_listing_NoDup p d self cur dst names self2 :
  cleanup_listing p d self cur dst names self2 →
  NoDup (dict_keys cur) ∧ NoDup (dict_keys dst).
Proof.
  intros (t1 & s1 & t2 & H1 & H2 & _).
  apply get_file_info_one_page_Ret in H1 as (? & _).
  by apply get_file_info_one_page_Ret in H2 as (? & _).
Qed.

(** C7, as the code has it. A stray whose clean name leads, in the
    destination map, to its own id is skipped: no [Update] is sent for it in
    the pass. A [Delete] of its id can still be sent, on behalf of another
    stray of the same listing that has the same clean name. *)
Theorem resolved_stray_is_not_moved p d self cur dst names self2 A iA nA :
  cleanup_listing p d self cur dst names self2 →
  (A, iA) ∈ cur →
  dict_mem A (file_info self) = false →
  i_name iA = Some nA →
  dict_get (clean nA) names = Some A →
  (∀ added removed new_name,
     Request (Update A added removed new_name) ∉ emitted (_cleanup_files p d) self)
  ∧ (Request (Delete A) ∈ emitted (_cleanup_files p d) self →
     ∃ T iT nT, (T, iT) ∈ cur ∧ T ≠ A ∧ dict_mem T (file_info self) = false
                ∧ i_name iT = Some nT ∧ clean nT = clean nA).
Proof.
  intros Hl HA Hstray HnA Hself.
  destruct (cleanup_listing_NoDup _ _ _ _ _ _ _ Hl) as [Hcur Hdst].
  destruct (cleanup_files_emitted _ _ _ _ _ _ _ Hl) as (events & -> & HP).
  rewrite Forall_forall in HP. split.
  - intros added removed new_name [[=]|[[=]|Hin]%elem_of_cons]%elem_of_cons.
    destruct (HP _ Hin) as ([T iT] & HT & _ & n & Hn & Hne & [(x & [=] & _)|[[=]|(r & n' & [=])]]).
    simpl in *. subst T.
    apply (dict_get_elem _ _ _ Hcur) in HA, HT. congruence.
  - intros [[=]|[[=]|Hin]%elem_of_cons]%elem_of_cons.
    destruct (HP _ Hin) as ([T iT] & HT & Hs & n & Hn & Hne & [(x & [= <-] & Hx)|[[=]|(r & n' & [=])]]).
    simpl in *. exists T, iT, n. split_and!; [done|congruence|done|done|].
    destruct Hl as (_ & _ & _ & _ & _ & Hnames).
    by eapply name_to_id_inj.
Qed.

Lemma split_at_key {V} (l1 l2 l1' l2' : list (string * V)) k v v' :
  NoDup (dict_keys (l1 ++ (k, v) :: l2)) →
  l1 ++ (k, v) :: l2 = l1' ++ (k, v') :: l2' →
  l1 = l1' ∧ v = v' ∧ l2 = l2'.
Proof.
  unfold dict_keys. revert l1'. induction l1 as [|x l1 IH]; intros l1'; csimpl.
  - intros [Hk _]%NoDup_cons. destruct l1' as [|y l1']; csimpl.
    + by intros [= -> ->].
    + intros [= <- ->]. exfalso. apply Hk. rewrite fmap_app, elem_of_app. right. left.
  - intros [Hx Hnd]%NoDup_cons. destruct l1' as [|y l1']; csimpl.
    + intros [= -> <-]. exfalso. apply Hx. rewrite fmap_app, elem_of_app. right. left.
    + intros [= <- H]. destruct (IH _ Hnd H) as (-> & -> & ->). done.
Qed.

Lemma count_deletes_none (events : list event) :
  Forall (λ e, is_delete e = false) events → filter (λ e, is_delete e) events = [].
Proof.
  induction 1 as [|e events He _ IH]; [done|].
  rewrite filter_cons. rewrite He. by case_decide.
Qed.

Lemma cleanup_one_log p d names item self :
  ∃ pre post,
    log (cleanup_one p d names item self).2 = log self ++ pre ++ post
    ∧ (pre = [] ∨ ∃ x, pre = [Request (Delete x)])
    ∧ Forall (λ e, is_delete e = false) post.
Proof.
  assert (∀ self1 T n (iT : info),
            ∃ post,
              log ((lift (field "mimeType" (i_mimeType iT))
                    ≫= λ mime_type,
                         move_file T d (Some p) (Some n) (Some mime_type) ;; mret ())
                     self1).2
              = log self1 ++ post
              ∧ Forall (λ e, is_delete e = false) post) as Hmove.
  { intros self1 T n iT.
    assert (always (emits (λ e, is_delete e = false))
              (lift (field "mimeType" (i_mimeType iT))
               ≫= λ mime_type,
                    move_file T d (Some p) (Some n) (Some mime_type) ;; mret ())) as Hm.
    { repeat always_step. by apply emits_move_file. }
    by destruct (Hm self1) as [_ ?]. }
  assert (∃ pre post, log self = log self ++ pre ++ post
                      ∧ (pre = [] ∨ ∃ x, pre = [Request (Delete x)])
                      ∧ Forall (λ e, is_delete e = false) post) as Hnone.
  { exists [], []. rewrite !app_nil_r. auto. }
  destruct item as [T iT]. unfold cleanup_one.
  rewrite bind_unfold. simpl.
  destruct (i_name iT) as [n|]; simpl; [|done].
  rewrite bind_unfold. simpl.
  destruct (dict_mem T (file_info self)); [done|].
  destruct (dict_get _ names) as [x|].
  - destruct (decide (x = T)); [done|].
    rewrite bind_unfold. pose proof (execute_log (Delete x) self) as Hx.
    unfold _delete_file. destruct (execute (Delete x) self) as [[resp|e] self1]; simpl in Hx.
    + destruct (Hmove self1 T (if String.prefix prefix n
                                then string_drop (String.length prefix) n else n) iT)
        as (post & Hpost & HP).
      exists [Request (Delete x)], post. rewrite Hpost, Hx, <- app_assoc. eauto.
    + exists [Request (Delete x)], []. simpl. rewrite Hx. eauto.
  - destruct (Hmove self T (if String.prefix prefix n
                            then string_drop (String.length prefix) n else n) iT)
      as (post & Hpost & HP).
    exists [], post. eauto.
Qed.

(** What the pass deletes, for every provider. The
    destination map sends every name to the id listed last under it; one
    turn of the loop sends at most one [Delete]; an id deleted in the pass is
    the last one listed under its name, so an entry of the destination
    listing that is followed by an entry of the same name is not deleted. *)
Lemma cleanup_deletes_last_listed p d self cur dst names self2 :
  cleanup_listing p d self cur dst names self2 →
  (∀ n, dict_get n names = last_named n dst)
  ∧ (∀ item self', (length (filter (λ e, is_delete e)
                      (emitted (cleanup_one p d names item) self')) ≤ 1)%nat)
  ∧ (∀ x, Request (Delete x) ∈ emitted (_cleanup_files p d) self →
          ∃ n, last_named n dst = Some x)
  ∧ (∀ l1 k i l2 n,
       dst = l1 ++ (k, i) :: l2 → i_name i = Some n →
       Exists (λ kv, i_name kv.2 = Some n) l2 →
       Request (Delete k) ∉ emitted (_cleanup_files p d) self).
Proof.
  intros Hl.
  destruct (cleanup_listing_NoDup _ _ _ _ _ _ _ Hl) as [_ Hdst].
  assert (∀ n, dict_get n names = last_named n dst) as Hnames.
  { destruct Hl as (_ & _ & _ & _ & _ & Hnames). intros n.
    rewrite (name_to_id_get _ _ _ n Hnames). by destruct (last_named n dst). }
  assert (∀ x, Request (Delete x) ∈ emitted (_cleanup_files p d) self →
               ∃ n, last_named n dst = Some x) as Hdel.
  { destruct (cleanup_files_emitted _ _ _ _ _ _ _ Hl) as (events & -> & HP).
    rewrite Forall_forall in HP.
    intros x [[=]|[[=]|Hin]%elem_of_cons]%elem_of_cons.
    destruct (HP _ Hin) as (_ & _ & _ & n & _ & _ & [(? & [= <-] & Hx)|[[=]|(? & ? & [=])]]).
    exists (clean n). by rewrite <- Hnames. }
  split_and!; [done| |done|].
  - intros item self'. destruct (cleanup_one_log p d names item self')
      as (pre & post & Hlog & Hpre & Hpost).
    rewrite (emitted_app _ _ _ Hlog), filter_app, (count_deletes_none _ Hpost), app_nil_r.
    destruct Hpre as [->|(x & ->)]; simpl; lia.
  - intros l1 k i l2 n -> Hn Hlater (n' & Hlast)%Hdel.
    apply last_named_Some in Hlast as (i' & l1' & l2' & Heq & Hn' & Hnone).
    destruct (split_at_key _ _ _ _ _ _ _ Hdst Heq) as (_ & <- & <-).
    assert (n' = n) as -> by congruence.
    apply Exists_exists in Hlater as (kv & Hkv & Hname).
    rewrite Forall_forall in Hnone. by apply (Hnone kv).
Qed.

(** [_cleanup_files] never asks for a second page: no request of a pass
    carries a page token, whatever the provider answered. *)
Lemma cleanup_files_sends_no_page_token p d :
  always (emits (λ e, ∀ size fields token q,
                   e = Request (List_ size fields token q) → token = None))
    (_cleanup_files p d).
Proof.
  assert (∀ q, always (emits (λ e, ∀ size fields token q,
                                 e = Request (List_ size fields token q) → token = None))
                 (_get_file_info_one_page None q)) as Hpage.
  { intros q. unfold _get_file_info_one_page. repeat always_step.
    apply emits_execute. by intros ???? [= _ _ <- _]. }
  unfold _cleanup_files. repeat always_step; try apply Hpage.
  destruct x as [T iT]. unfold cleanup_one.
  repeat always_step; first [by apply emits_execute | by apply emits_move_file].
Qed.

(** ** The first request of [copy_item] *)

Lemma emits_emit P e : P e → always (emits P) (emit e).
Proof.
  intros HP self. split; [done|]. exists [e]. split; [done|]. by apply Forall_singleton.
Qed.

Lemma emits_copied_files_add P file_id : always (emits P) (copied_files_add file_id).
Proof. intros self. split; [done|]. exists []. by rewrite app_nil_r. Qed.

Lemma emits_folders_copied_append P pair : always (emits P) (folders_copied_append pair).
Proof. intros self. split; [done|]. exists []. by rewrite app_nil_r. Qed.

Lemma log_grows_cleanup_files p d : always (emits (λ _, True)) (_cleanup_files p d).
Proof.
  eapply (always_mono (emits _)); [|apply cleanup_files_sends_no_page_token].
  intros s s'. by apply emits_mono.
Qed.

Lemma log_grows_copy_file file_id d : always (emits (λ _, True)) (copy_file file_id d).
Proof.
  unfold copy_file.
  repeat always_step;
    first [by apply emits_execute | by apply emits_move_file | by apply emits_emit
          | apply emits_copied_files_add | apply log_grows_cleanup_files].
Qed.

Lemma log_grows_copy_item depth item_id d n :
  always (emits (λ _, True)) (copy_item depth item_id d n).
Proof.
  revert item_id d n. induction depth as [|depth IH]; intros item_id d n; cbn [copy_item].
  - always_step.
  - unfold copy_children, create_folder.
    repeat always_step;
      first [by apply emits_execute | by apply emits_emit | apply emits_copied_files_add
            | apply emits_folders_copied_append | apply log_grows_copy_file].
Qed.

Lemma bind_log {A B} (m : M A) (k : A → M B) self :
  (∀ a, always (emits (λ _, True)) (k a)) →
  ∃ events, log ((m ≫= k) self).2 = log (m self).2 ++ events.
Proof.
  intros Hk. rewrite bind_unfold. destruct (m self) as [[a|e] self1]; simpl.
  - destruct (Hk a self1) as [_ (events & He & _)]. eauto.
  - exists []. by rewrite app_nil_r.
Qed.

Lemma create_folder_log d new_name self :
  log (create_folder d new_name self).2
  = log self ++ [Request (Create new_name FOLDER_TYPE [d])].
Proof.
  unfold create_folder. rewrite bind_unfold.
  pose proof (execute_log (Create new_name FOLDER_TYPE [d]) self) as Hl.
  destruct (execute _ self) as [[resp|e] self1]; [|done].
  by destruct (resp_id resp).
Qed.

(** An item of the snapshot that is not copied yet: after the pause, the
    first request is the [Create] of the new folder for a folder, and the
    [Copy] of the item for anything else. *)
Lemma copy_item_first_request depth item_id d n self item_info name mimeType :
  dict_get item_id (file_info self) = Some item_info →
  i_name item_info = Some name →
  i_mimeType item_info = Some mimeType →
  item_id ∉ copied_files self →
  ∃ events,
    emitted (copy_item (S depth) item_id d n) self
    = Sleep COPY_SLEEP
      :: Request (if is_folder mimeType
                  then Create (if truthy n then default "" n else name) FOLDER_TYPE [d]
                  else Copy item_id)
      :: events.
Proof.
  intros Hitem Hname Hmime Hnot.
  enough (∃ events,
            log (copy_item (S depth) item_id d n self).2
            = log self ++
              Sleep COPY_SLEEP
              :: Request (if is_folder mimeType
                          then Create (if truthy n then default "" n else name)
                                 FOLDER_TYPE [d]
                          else Copy item_id)
              :: events) as [events He].
  { exists events. by apply emitted_app. }
  cbn [copy_item].
  rewrite bind_unfold. cbn [sleep emit]. rewrite bind_unfold. cbn [gets file_info].
  rewrite bind_unfold. unfold getitem. rewrite Hitem. cbn [lift].
  rewrite bind_unfold, Hname. cbn [lift field].
  rewrite bind_unfold, Hmime. cbn [lift field].
  rewrite bind_unfold. cbn [gets copied_files].
  rewrite decide_False by done. unfold is_folder. case_bool_decide as Hf.
  - rewrite decide_True by done.
    match goal with
    | |- context [(?m ≫= ?k) ?s] => destruct (bind_log m k s) as [events He]
    end.
    { intros created. repeat always_step;
        first [apply emits_copied_files_add | apply emits_folders_copied_append|idtac].
      unfold copy_children. repeat always_step. apply log_grows_copy_item. }
    exists events. rewrite He, create_folder_log. cbn [log]. by rewrite <- !app_assoc.
  - rewrite decide_False by done.
    match goal with
    | |- context [(?m ≫= ?k) ?s] => destruct (bind_log m k s) as [events1 He1]
    end.
    { intros moved. always_step. }
    rewrite He1. unfold copy_file.
    match goal with
    | |- context [(?m ≫= ?k) ?s] => destruct (bind_log m k s) as [events He]
    end.
    { intros cloned. repeat always_step;
        first [by apply emits_move_file | by apply emits_emit
              | apply emits_copied_files_add | apply log_grows_cleanup_files]. }
    exists (events ++ events1). unfold _clone_file in *. rewrite He, execute_log.
    cbn [log]. by rewrite <- !app_assoc.
Qed.

(** ** The snapshot is listed to the end *)

Lemma get_all_pages_sound pages token acc self snapshot self1 :
  get_all_pages pages token acc self = (Ret (Some snapshot), self1) →
  listed_to_the_end token acc self snapshot self1.
Proof.
  revert token acc self. induction pages as [|pages IH]; intros token acc self; simpl.
  - intros [=].
  - intros H. apply bind_Ret_inv in H as ([page token'] & self' & Hpage & H).
    destruct (truthy token') eqn:Htoken.
    + eapply next_page; eauto.
    + injection H as <- <-. eapply last_page; eauto.
Qed.

Lemma get_all_pages_complete token acc self snapshot self1 :
  listed_to_the_end token acc self snapshot self1 →
  ∃ pages, ∀ pages', (pages ≤ pages')%nat →
    get_all_pages pages' token acc self = (Ret (Some snapshot), self1).
Proof.
  induction 1 as [token acc self page token' self1 Hpage Htoken
                 |token acc self page token' self1 snapshot self2 Hpage Htoken _ [pages IH]].
  - exists 1%nat. intros [|pages'] Hle; [lia|]. simpl.
    by rewrite (bind_Ret _ _ _ _ _ Hpage), Htoken.
  - exists (S pages). intros [|pages'] Hle; [lia|]. simpl.
    rewrite (bind_Ret _ _ _ _ _ Hpage), Htoken. apply IH. lia.
Qed.

(** A new object: the snapshot was listed to the end, nothing is copied. *)
Lemma init_fresh pages (w : W) self :
  __init__ pages w = Ret (Some self) →
  copied_files self = ∅
  ∧ folders_copied self = []
  ∧ ∃ listed, listed_to_the_end None [] (Cloner w [] ∅ [] []) (file_info self) listed
              ∧ service listed = service self ∧ log listed = log self.
Proof.
  unfold __init__.
  destruct (_get_all_file_info pages _) as [[[snapshot|]|e] listed] eqn:Hall; [|done|done].
  intros [= <-]. split_and!; [done|done|]. exists listed. split; [|done].
  by apply get_all_pages_sound in Hall.
Qed.

(** ** One page, as a function of the provider's answer *)

Lemma merge_empty_info i : merge_info empty_info i = i.
Proof. by destruct i as [[] [] [] []]. Qed.

Lemma dict_get_app_r {K V} `{EqDecision K} (k : K) (d1 d2 : dict K V) :
  dict_get k (d1 ++ d2)
  = match dict_get k d1 with Some v => Some v | None => dict_get k d2 end.
Proof.
  induction d1 as [|[k' v'] d1 IH]; simpl; [done|]. by case_decide.
Qed.

Lemma add_file_first_seen f k page :
  r_id f = Some k → resource_error f = None → dict_get k page = None →
  add_file f page
  = Ret (if no_fields f then page else page ++ [(k, info_of_resource f)]).
Proof.
  unfold add_file, resource_error. intros -> Herr Hk.
  destruct (r_parents f) as [[|p ps]|] eqn:Hp; [done|..];
    (destruct (no_fields f); [done|]; rewrite Hk; cbn [default];
     rewrite merge_empty_info, dict_set_absent by done;
     unfold info_of_resource; by rewrite Hp).
Qed.

Lemma add_files_first_seen fs page :
  Forall (λ f, resource_error f = None) fs →
  NoDup (omap r_id fs) →
  (∀ k, k ∈ omap r_id fs → dict_get k page = None) →
  add_files fs page
  = Ret (page ++ map (λ f, (default "" (r_id f), info_of_resource f))
                   (filter (λ f, no_fields f = false) fs)).
Proof.
  revert page. induction fs as [|f fs IH]; intros page; cbn [add_files].
  - intros _ _ _. by rewrite app_nil_r.
  - intros [Hf Hfs]%Forall_cons. cbn [omap list_omap].
    destruct (r_id f) as [k|] eqn:Hid; [|by unfold resource_error in Hf; rewrite Hid in Hf].
    intros [Hk Hnd]%NoDup_cons Hpage.
    rewrite (add_file_first_seen f k) by (try done; apply Hpage; left).
    rewrite filter_cons. destruct (no_fields f) eqn:Hno.
    + rewrite decide_False by done. apply IH; [done|done|].
      intros k' Hk'. apply Hpage. by right.
    + rewrite decide_True by done. rewrite IH; [|done|done|].
      * cbn [map]. rewrite Hid. cbn [default]. by rewrite <- app_assoc.
      * intros k' Hk'. rewrite dict_get_app_r, Hpage by (by right). cbn.
        rewrite decide_False; [done|]. by intros ->.
Qed.

Lemma add_files_Raise good bad rest page e :
  Forall (λ f, resource_error f = None) good →
  resource_error bad = Some e →
  add_files (good ++ bad :: rest) page = Raise e.
Proof.
  intros Hgood Hbad. revert page.
  induction Hgood as [|f good Hf _ IH]; intros page; cbn [add_files app].
  - unfold add_file. unfold resource_error in Hbad.
    destruct (r_id bad); [|congruence].
    destruct (r_parents bad) as [[|]|]; congruence.
  - unfold add_file at 1. unfold resource_error in Hf.
    destruct (r_id f); [|done].
    destruct (r_parents f) as [[|]|]; [done|..]; destruct (no_fields f); apply IH.
Qed.

Lemma get_file_info_one_page_answer t q self resp w :
  service_execute (List_ 1000 LIST_FIELDS (if truthy t then t else None)
                     (if truthy q then q else None)) (service self)
  = (resp, w) →
  _get_file_info_one_page t q self
  = ((lift resp ≫= λ resp,
      file_data ← lift (resp_files resp);
      file_id_to_info ← lift (add_files file_data []);
      mret (file_id_to_info, resp_nextPageToken resp))
       (Cloner w (file_info self) (copied_files self) (folders_copied self)
          (log self ++ [Request (List_ 1000 LIST_FIELDS (if truthy t then t else None)
                                   (if truthy q then q else None))]))).
Proof.
  intros Hans. unfold _get_file_info_one_page. cbv zeta.
  rewrite !bind_unfold. unfold execute. cbn [emit snd service file_info copied_files
                                                folders_copied log].
  rewrite Hans. by destruct resp.
Qed.

(** X1. A page of a listing, for an answer in which every resource has an
    id, none has an empty list of parents, and no id comes twice: the page
    lists, in the order of the answer, every resource that carries a key
    besides its id, under its id, with the first of its parents as
    ["parent"]; the token is the one of the answer, and the only request
    sent is the [List]. *)
Theorem page_lists_the_resources t q self fs token w :
  service_execute (List_ 1000 LIST_FIELDS (if truthy t then t else None)
                     (if truthy q then q else None)) (service self)
  = (Ret (FileList fs token), w) →
  Forall (λ f, resource_error f = None) fs →
  NoDup (omap r_id fs) →
  _get_file_info_one_page t q self
  = (Ret (map (λ f, (default "" (r_id f), info_of_resource f))
            (filter (λ f, no_fields f = false) fs), token),
     Cloner w (file_info self) (copied_files self) (folders_copied self)
       (log self ++ [Request (List_ 1000 LIST_FIELDS (if truthy t then t else None)
                                (if truthy q then q else None))])).
Proof.
  intros Hans Hok Hnd. rewrite (get_file_info_one_page_answer _ _ _ _ _ Hans).
  rewrite bind_unfold. cbn [lift]. rewrite bind_unfold. cbn [lift resp_files].
  rewrite bind_unfold. unfold lift at 1.
  by rewrite (add_files_first_seen fs []).
Qed.

(** X2. The page is built resource by resource, and the first resource that
    has no id, or an empty list of parents, ends it: the call raises
    [KeyError] for the missing id, [IndexError] for the empty list, after
    the request was sent and whatever the resources before and after it
    are. *)
Theorem page_raises_at_first_bad_resource t q self good bad rest token w e :
  service_execute (List_ 1000 LIST_FIELDS (if truthy t then t else None)
                     (if truthy q then q else None)) (service self)
  = (Ret (FileList (good ++ bad :: rest) token), w) →
  Forall (λ f, resource_error f = None) good →
  resource_error bad = Some e →
  (e = KeyError "id" ∨ e = IndexError)
  ∧ _get_file_info_one_page t q self
    = (Raise e,
       Cloner w (file_info self) (copied_files self) (folders_copied self)
         (log self ++ [Request (List_ 1000 LIST_FIELDS (if truthy t then t else None)
                                  (if truthy q then q else None))])).
Proof.
  intros Hans Hgood Hbad. split.
  - unfold resource_error in Hbad. destruct (r_id bad); [|left; congruence].
    destruct (r_parents bad) as [[|]|]; [right|..]; congruence.
  - rewrite (get_file_info_one_page_answer _ _ _ _ _ Hans).
    rewrite bind_unfold. cbn [lift]. rewrite bind_unfold. cbn [lift resp_files].
    rewrite bind_unfold. unfold lift at 1.
    by rewrite (add_files_Raise good bad rest [] e).
Qed.

(** ** The snapshot, page after page *)

Lemma merge_page_cons (acc : dict string info) k i page :
  merge_page acc ((k, i) :: page) = merge_page (dict_set k i acc) page.
Proof. done. Qed.

Lemma merge_page_get (acc page : dict string info) k :
  NoDup (dict_keys page) →
  dict_get k (merge_page acc page)
  = match dict_get k page with Some i => Some i | None => dict_get k acc end.
Proof.
  revert acc. induction page as [|[k' i'] page IH]; intros acc Hnd; [done|].
  unfold dict_keys in Hnd. rewrite fmap_cons in Hnd. apply NoDup_cons in Hnd as [Hk' Hnd].
  rewrite merge_page_cons, IH by done. cbn [dict_get].
  destruct (decide (k = k')) as [->|Hne].
  - assert (dict_get k' page = None) as -> by (by apply dict_get_None).
    apply dict_get_set_eq.
  - destruct (dict_get k page); [done|]. by apply dict_get_set_ne.
Qed.

Lemma merge_page_keys (acc page : dict string info) :
  ∃ new, dict_keys (merge_page acc page) = dict_keys acc ++ new.
Proof.
  revert acc. induction page as [|[k i] page IH]; intros acc.
  - exists []. by rewrite app_nil_r.
  - rewrite merge_page_cons. destruct (IH (dict_set k i acc)) as [new ->].
    rewrite dict_keys_set. destruct (dict_get k acc); [eauto|].
    exists (k :: new). by rewrite <- app_assoc.
Qed.

Lemma merge_page_NoDup (acc page : dict string info) :
  NoDup (dict_keys acc) → NoDup (dict_keys (merge_page acc page)).
Proof.
  revert acc. induction page as [|[k i] page IH]; intros acc Hnd; [done|].
  rewrite merge_page_cons. by apply IH, dict_set_NoDup.
Qed.

(** X3. Merging a page into what was listed before
    ([file_id_to_info[file_id] = info] for every entry of the page): an id
    of the page gets the entry of the page, whole, whatever was stored under
    it; every other id keeps its entry; the ids listed before keep their
    place, new ones come after them, and no id is there twice. *)
Theorem later_page_replaces_entry (acc page : dict string info) :
  NoDup (dict_keys page) →
  NoDup (dict_keys acc) →
  (∀ k, dict_get k (merge_page acc page)
        = match dict_get k page with Some i => Some i | None => dict_get k acc end)
  ∧ (∃ new, dict_keys (merge_page acc page) = dict_keys acc ++ new)
  ∧ NoDup (dict_keys (merge_page acc page)).
Proof.
  intros Hpage Hacc. split_and!.
  - intros k. by apply merge_page_get.
  - apply merge_page_keys.
  - by apply merge_page_NoDup.
Qed.

Lemma get_all_pages_mono pages pages' token acc self snapshot self1 :
  (pages ≤ pages')%nat →
  get_all_pages pages token acc self = (Ret (Some snapshot), self1) →
  get_all_pages pages' token acc self = (Ret (Some snapshot), self1).
Proof.
  revert pages' token acc self.
  induction pages as [|pages IH]; intros pages' token acc self Hle; [done|].
  destruct pages' as [|pages']; [lia|]. cbn [get_all_pages]. intros H.
  apply bind_Ret_inv in H as ([page token'] & self' & Hpage & H).
  rewrite (bind_Ret _ _ _ _ _ Hpage). destruct (truthy token'); [|done].
  apply IH; [lia|done].
Qed.

Lemma get_all_pages_None pages token acc self self1 :
  get_all_pages pages token acc self = (Ret None, self1) →
  length (log self1) = (length (log self) + pages)%nat.
Proof.
  revert token acc self. induction pages as [|pages IH]; intros token acc self.
  - intros [= <-]. lia.
  - cbn [get_all_pages]. intros H.
    apply bind_Ret_inv in H as ([page token'] & self' & Hpage & H).
    apply get_file_info_one_page_Ret in Hpage as (_ & _ & Hlog).
    destruct (truthy token'); [|done]. apply IH in H.
    rewrite H, Hlog, length_app. simpl. lia.
Qed.

(** X4. The loop of [_get_all_file_info] asks for a page, and for the next
    one as long as the answer carries a non-empty token. Given a budget of
    pages, it returns a snapshot exactly when the listing comes to its end
    within the budget: the snapshot is then the one of the listing followed
    to the end, and a larger budget gives the same; a listing that ends is
    returned by some budget; and the budget is only exhausted after that
    many requests, each answered with a token. *)
Theorem snapshot_follows_every_token self :
  (∀ pages snapshot self1,
     _get_all_file_info pages self = (Ret (Some snapshot), self1) →
     listed_to_the_end None [] self snapshot self1
     ∧ ∀ pages', (pages ≤ pages')%nat →
         _get_all_file_info pages' self = (Ret (Some snapshot), self1))
  ∧ (∀ snapshot self1,
       listed_to_the_end None [] self snapshot self1 →
       ∃ pages, _get_all_file_info pages self = (Ret (Some snapshot), self1))
  ∧ (∀ pages self1,
       _get_all_file_info pages self = (Ret None, self1) →
       length (emitted (_get_all_file_info pages) self) = pages).
Proof.
  unfold _get_all_file_info. split_and!.
  - intros pages snapshot self1 H. split; [by eapply get_all_pages_sound|].
    intros pages' Hle. by eapply get_all_pages_mono.
  - intros snapshot self1 [pages H]%get_all_pages_complete. exists pages. by apply H.
  - intros pages self1 H. unfold emitted. rewrite H. cbn [snd].
    apply get_all_pages_None in H. rewrite length_drop. lia.
Qed.

Lemma get_all_pages_NoDup pages token acc self snapshot self1 :
  get_all_pages pages token acc self = (Ret (Some snapshot), self1) →
  NoDup (dict_keys acc) → NoDup (dict_keys snapshot).
Proof.
  revert token acc self. induction pages as [|pages IH]; intros token acc self; [done|].
  cbn [get_all_pages]. intros H Hnd.
  apply bind_Ret_inv in H as ([page token'] & self' & Hpage & H).
  destruct (truthy token').
  - apply IH in H; [done|]. by apply merge_page_NoDup.
  - injection H as <- _. by apply merge_page_NoDup.
Qed.

Lemma get_all_pages_emits pages token acc :
  always (emits (λ e, ∃ token, e = Request (List_ 1000 LIST_FIELDS token None)))
    (get_all_pages pages token acc).
Proof.
  revert token acc. induction pages as [|pages IH]; intros token acc; cbn [get_all_pages].
  - always_step.
  - always_step.
    + unfold _get_file_info_one_page. repeat always_step.
      apply emits_execute. eauto.
    + repeat always_step. apply IH.
Qed.

(** X5. A newly built object: nothing is marked as copied and no folder is
    recorded; its snapshot holds every id once; and all it has sent are
    [List] requests without a query. *)
Theorem new_object_is_empty pages (w : W) self :
  __init__ pages w = Ret (Some self) →
  copied_files self = ∅
  ∧ folders_copied self = []
  ∧ NoDup (dict_keys (file_info self))
  ∧ consistent self
  ∧ Forall (λ e, ∃ token, e = Request (List_ 1000 LIST_FIELDS token None)) (log self).
Proof.
  unfold __init__.
  pose proof (get_all_pages_emits pages None [] (Cloner w [] ∅ [] [])) as [_ (events & He & HP)].
  fold (_get_all_file_info pages) in He.
  destruct (_get_all_file_info pages _) as [[[snapshot|]|e] listed] eqn:Hall; [|done|done].
  intros [= <-]. cbn [copied_files folders_copied file_info log]. split_and!; [done|done| | |].
  - apply get_all_pages_NoDup in Hall; [done|constructor].
  - split; cbn [copied_files folders_copied]; [|constructor].
    intros file_id []%not_elem_of_empty.
  - cbn [snd log] in He. by rewrite He.
Qed.

(** ** Which methods write the local stores *)

Local Abbreviation same_stores := (@same_stores W).
Local Abbreviation marks := (@marks W).

#[local] Instance same_stores_preorder : PreOrder same_stores.
Proof.
  split.
  - by intros self.
  - intros s1 s2 s3 (?&?&?) (?&?&?). split_and!; congruence.
Qed.

Lemma same_stores_emit e : always same_stores (emit e).
Proof. by intros self. Qed.

Lemma same_stores_execute r : always same_stores (execute r).
Proof.
  intros self. unfold execute. cbn. by destruct (service_execute r (service self)).
Qed.

Lemma same_stores_get_file_info_one_page t q :
  always same_stores (_get_file_info_one_page t q).
Proof.
  unfold _get_file_info_one_page. repeat always_step. apply same_stores_execute.
Qed.

Lemma same_stores_get_all_pages pages t acc : always same_stores (get_all_pages pages t acc).
Proof.
  revert t acc. induction pages as [|pages IH]; intros t acc; cbn [get_all_pages].
  - always_step.
  - always_step; [apply same_stores_get_file_info_one_page|].
    repeat always_step. apply IH.
Qed.

Lemma same_stores_move_file f d p n m : always same_stores (move_file f d p n m).
Proof.
  unfold move_file, _get_one_file_info. always_step.
  - always_step; [always_step|]. repeat always_step. apply same_stores_execute.
  - repeat always_step. apply same_stores_execute.
Qed.

Lemma same_stores_cleanup_files p d : always same_stores (_cleanup_files p d).
Proof.
  unfold _cleanup_files.
  repeat always_step; try apply same_stores_get_file_info_one_page.
  destruct x as [T iT]. unfold cleanup_one, _delete_file.
  repeat always_step; first [apply same_stores_execute | apply same_stores_move_file].
Qed.

Lemma same_stores_run_cleanup : always same_stores run_cleanup.
Proof. unfold run_cleanup. repeat always_step. apply same_stores_cleanup_files. Qed.

Lemma same_stores_create_folder d n : always same_stores (create_folder d n).
Proof. unfold create_folder. repeat always_step. apply same_stores_execute. Qed.

(** X6. The methods that only talk to the provider leave the three local
    stores exactly as they were, whether they return or raise: the two
    listings (also [_get_all_file_info] called again: the snapshot of the
    object is not refreshed), [_clone_file], [_delete_file],
    [_get_one_file_info], [move_file], [create_folder], a pass of
    [_cleanup_files] and the sweep of [run_cleanup]. *)
Theorem provider_calls_leave_the_stores self :
  (∀ pages, same_stores self (_get_all_file_info pages self).2)
  ∧ (∀ t q, same_stores self (_get_file_info_one_page t q self).2)
  ∧ (∀ f, same_stores self (_clone_file f self).2)
  ∧ (∀ f, same_stores self (_delete_file f self).2)
  ∧ (∀ f fields, same_stores self (_get_one_file_info f fields self).2)
  ∧ (∀ f d p n m, same_stores self (move_file f d p n m self).2)
  ∧ (∀ d n, same_stores self (create_folder d n self).2)
  ∧ (∀ p d, same_stores self (_cleanup_files p d self).2)
  ∧ same_stores self (run_cleanup self).2.
Proof.
  split_and!; intros.
  - apply same_stores_get_all_pages.
  - apply same_stores_get_file_info_one_page.
  - apply same_stores_execute.
  - apply same_stores_execute.
  - apply same_stores_execute.
  - apply same_stores_move_file.
  - apply same_stores_create_folder.
  - apply same_stores_cleanup_files.
  - apply same_stores_run_cleanup.
Qed.

#[local] Instance marks_preorder marked : PreOrder (marks marked).
Proof.
  split.
  - intros self. split_and!; [done|done|done|apply union_subseteq_r].
  - intros s1 s2 s3 (Hf1 & Hp1 & Hl1 & Hu1) (Hf2 & Hp2 & Hl2 & Hu2).
    split_and!; [congruence|congruence|by etrans|].
    intros x [Hx|Hx]%Hu2%elem_of_union; [apply elem_of_union; by left|by apply Hu1].
Qed.

Lemma marks_of_same marked self self' : same_stores self self' → marks marked self self'.
Proof.
  intros (Hf & Hc & Hp). split_and!; [done|done|by rewrite Hc|].
  rewrite Hc. apply union_subseteq_r.
Qed.

Lemma marks_always_same {A} marked (m : M A) : always same_stores m → always (marks marked) m.
Proof. intros Hm self. apply marks_of_same, Hm. Qed.

Lemma marks_copy_file f d : always (marks {[ f ]}) (copy_file f d).
Proof.
  unfold copy_file, _clone_file.
  repeat always_step;
    first [apply marks_always_same;
           first [apply same_stores_execute | apply same_stores_move_file
                 | apply same_stores_emit | apply same_stores_cleanup_files]
          | idtac].
  intros self. split_and!; cbn; [done|done|apply union_subseteq_r|done].
Qed.

(** X7. [copy_file] writes one thing in the local stores: it adds the id
    of the file it was asked to copy to [copied_files]. It never touches
    the snapshot or [folders_copied], never marks another id, never removes
    one, whether it returns or raises; and when it returns the file is
    marked. *)
Theorem copy_file_marks_its_file_only f d self :
  file_info (copy_file f d self).2 = file_info self
  ∧ folders_copied (copy_file f d self).2 = folders_copied self
  ∧ copied_files self ⊆ copied_files (copy_file f d self).2
  ∧ copied_files (copy_file f d self).2 ⊆ {[ f ]} ∪ copied_files self
  ∧ (∀ moved, (copy_file f d self).1 = Ret moved → f ∈ copied_files (copy_file f d self).2).
Proof.
  destruct (marks_copy_file f d self) as (Hf & Hp & Hl & Hu).
  split_and!; [done|done|done|done|].
  intros moved Hret. destruct (copy_file f d self) as [r self1] eqn:Hcopy.
  cbn in Hret. subst r. by eapply copy_file_Ret.
Qed.

(** ** The pauses of [copy_file] *)

Lemma filter_sleeps_none (events : list event) :
  Forall (λ e, is_sleep e = false) events → filter (λ e, is_sleep e = true) events = [].
Proof.
  induction 1 as [|e events He _ IH]; [done|].
  rewrite filter_cons, He. by rewrite decide_False.
Qed.

Lemma cleanup_files_only_requests p d :
  always (emits (λ e, is_sleep e = false)) (_cleanup_files p d).
Proof.
  unfold _cleanup_files, _get_file_info_one_page.
  repeat always_step; try by apply emits_execute.
  destruct x as [T iT]. unfold cleanup_one, _delete_file.
  repeat always_step; first [by apply emits_execute | by apply emits_move_file].
Qed.

(** X8. A call of [copy_file] that returns has paused once, for
    [SPREADSHEET_SLEEP], if the snapshot gives the file the spreadsheet
    mime-type, and has not paused at all for any other type. *)
Theorem copy_file_pauses_for_a_spreadsheet_only f d self moved self1 :
  copy_file f d self = (Ret moved, self1) →
  ∃ current mimeType,
    dict_get f (file_info self) = Some current
    ∧ i_mimeType current = Some mimeType
    ∧ filter (λ e, is_sleep e = true) (emitted (copy_file f d) self)
      = if decide (mimeType = SPREADSHEET_TYPE) then [Sleep SPREADSHEET_SLEEP] else [].
Proof.
  intros H. pose proof H as H0. unfold copy_file in H.
  apply bind_Ret_inv in H as (cloned & s1 & Hclone & H).
  rewrite bind_unfold in H. cbn [gets] in H.
  apply bind_Ret_inv in H as (current & ? & [Hitem%getitem_Ret_inv ->]%lift_Ret_inv & H).
  apply bind_Ret_inv in H as (cloned_id & ? & [_ ->]%lift_Ret_inv & H).
  apply bind_Ret_inv in H as (p & ? & [_ ->]%lift_Ret_inv & H).
  apply bind_Ret_inv in H as (n & ? & [_ ->]%lift_Ret_inv & H).
  apply bind_Ret_inv in H as (m & ? & [Hmime%field_Ret_inv ->]%lift_Ret_inv & H).
  apply bind_Ret_inv in H as (moved' & s2 & Hmove & H).
  apply bind_Ret_inv in H as ([] & s3 & Hsleep & H).
  apply bind_Ret_inv in H as ([] & s4 & Hadd & H).
  apply bind_Ret_inv in H as ([] & s5 & Hclean & H).
  injection H as _ <-.
  unfold _clone_file in Hclone.
  pose proof (execute_log (Copy f) self) as Hl1.
  pose proof (execute_file_info (Copy f) self) as Hf1.
  rewrite Hclone in Hl1, Hf1. cbn [snd] in Hl1, Hf1.
  destruct (emits_move_file (λ e, is_sleep e = false) cloned_id d (Some p) (Some n) (Some m)
              eq_refl (λ _ _, eq_refl) s1) as [_ (mv & Hl2 & Hmv)].
  rewrite Hmove in Hl2. cbn [snd] in Hl2.
  destruct (cleanup_files_only_requests p d s4) as [_ (cl & Hl5 & Hcl)].
  rewrite Hclean in Hl5. cbn [snd] in Hl5.
  injection Hadd as <-. cbn [log] in Hl5.
  exists current, m. split_and!; [by rewrite <- Hf1|done|].
  assert (log s3 = log s2 ++ if decide (m = SPREADSHEET_TYPE)
                             then [Sleep SPREADSHEET_SLEEP] else []) as Hl3.
  { destruct (decide (m = SPREADSHEET_TYPE)).
    - by injection Hsleep as <-.
    - injection Hsleep as <-. by rewrite app_nil_r. }
  rewrite (emitted_app _ _ ([Request (Copy f)] ++ mv
             ++ (if decide (m = SPREADSHEET_TYPE) then [Sleep SPREADSHEET_SLEEP] else [])
             ++ cl)).
  - rewrite !filter_app, (filter_sleeps_none mv), (filter_sleeps_none cl) by done.
    rewrite app_nil_r. by destruct (decide (m = SPREADSHEET_TYPE)).
  - rewrite H0. cbn [snd]. rewrite Hl5, Hl3, Hl2, Hl1. by rewrite <- !app_assoc.
Qed.

(** ** Lookups that fail *)

(** X9. [copy_file] clones first and looks the file up afterwards. For a
    file the snapshot does not know, or knows without a parent, a name or a
    mime-type, the [Copy] request is sent and answered, and only then the
    call raises the [KeyError] of the first failing lookup: the clone is
    left where the provider put it, nothing is moved, and the file is not
    marked as copied. *)
Theorem copy_file_clones_before_it_looks_up f d self cloned w e :
  service_execute (Copy f) (service self) = (Ret cloned, w) →
  is_Some (r_id (resp_resource cloned)) →
  lookup_error (file_info self) f = Some e →
  copy_file f d self
  = (Raise e,
     Cloner w (file_info self) (copied_files self) (folders_copied self)
       (log self ++ [Request (Copy f)])).
Proof.
  intros Hans [cloned_id Hid] Herr. unfold copy_file, _clone_file.
  rewrite bind_unfold. unfold execute. cbn [emit snd service file_info copied_files
                                              folders_copied log].
  rewrite Hans. rewrite bind_unfold. cbn [gets file_info].
  rewrite bind_unfold. unfold lookup_error in Herr. unfold getitem, lift at 1.
  destruct (dict_get f (file_info self)) as [current|]; [|congruence].
  rewrite bind_unfold. unfold resp_id. rewrite Hid. cbn [lift field].
  rewrite bind_unfold.
  destruct (i_parent current); cbn [lift field]; [|congruence].
  rewrite bind_unfold.
  destruct (i_name current); cbn [lift field]; [|congruence].
  rewrite bind_unfold.
  destruct (i_mimeType current); cbn [lift field]; congruence.
Qed.

(** X10. [run] on a root the snapshot does not know, on an object that has
    recorded no folder: the walk only pauses and fails on the lookup, [run]
    pauses [CLEANUP_SLEEP] all the same, has nothing to sweep, and raises
    the [KeyError] of the root. No request is sent. *)
Theorem run_on_an_unknown_root depth b d n self :
  dict_get b (file_info self) = None →
  folders_copied self = [] →
  run (S depth) b d n self
  = (Raise (KeyError b),
     Cloner (service self) (file_info self) (copied_files self) []
       (log self ++ [Sleep COPY_SLEEP; Sleep CLEANUP_SLEEP])).
Proof.
  intros Hitem Hnone. unfold run. cbn [copy_item].
  rewrite bind_unfold. cbn [sleep emit]. rewrite bind_unfold. cbn [gets file_info].
  rewrite bind_unfold. unfold getitem. rewrite Hitem. cbn [lift].
  unfold run_cleanup, mbind, M_bind, sleep, emit, gets. cbn.
  rewrite Hnone. cbn. by rewrite <- app_assoc.
Qed.

(** ** A folder with a child the snapshot has no mime-type for *)

Lemma group_children_Raise items item_id created groups child child_info :
  (child, child_info) ∈ items →
  i_parent child_info = Some item_id →
  i_mimeType child_info = None →
  group_children items item_id created groups = Raise (KeyError "mimeType").
Proof.
  revert groups. induction items as [|[k i] items IH]; intros groups Hin Hp Hm.
  - by apply elem_of_nil in Hin.
  - cbn [group_children]. apply elem_of_cons in Hin as [[= <- <-]|Hin].
    + rewrite decide_True by done. by rewrite Hm.
    + case_decide; [|by apply IH]. destruct (i_mimeType i); [by apply IH|done].
Qed.

(** X11. The children of a folder are grouped before any of them is
    copied, and the grouping reads the mime-type of every child. So when
    the snapshot lists, under the folder being copied, one child without a
    mime-type, [copy_item] raises [KeyError] right after the new folder was
    created: no child is copied, not even those listed before it, and the
    folder is neither marked as copied nor recorded. *)
Theorem folder_with_an_untyped_child depth item_id d n self item_info name created self1
    child child_info :
  dict_get item_id (file_info self) = Some item_info →
  i_name item_info = Some name →
  i_mimeType item_info = Some FOLDER_TYPE →
  item_id ∉ copied_files self →
  create_folder d (if truthy n then default "" n else name) (sleep COPY_SLEEP self).2
  = (Ret created, self1) →
  (child, child_info) ∈ file_info self →
  i_parent child_info = Some item_id →
  i_mimeType child_info = None →
  copy_item (S depth) item_id d n self = (Raise (KeyError "mimeType"), self1)
  ∧ emitted (copy_item (S depth) item_id d n) self
    = [Sleep COPY_SLEEP;
       Request (Create (if truthy n then default "" n else name) FOLDER_TYPE [d])]
  ∧ copied_files self1 = copied_files self
  ∧ folders_copied self1 = folders_copied self.
Proof.
  intros Hitem Hname Hmime Hnot Hcreate Hchild Hparent Hnone.
  assert (copy_item (S depth) item_id d n self = (Raise (KeyError "mimeType"), self1)) as Hrun.
  { rewrite (copy_item_folder _ _ _ _ _ _ _ _ _ Hitem Hname Hmime Hnot Hcreate).
    by rewrite (group_children_Raise _ _ _ _ _ _ Hchild Hparent Hnone). }
  pose proof (create_folder_log d (if truthy n then default "" n else name)
                (sleep COPY_SLEEP self).2) as Hlog.
  pose proof (same_stores_create_folder d (if truthy n then default "" n else name)
                (sleep COPY_SLEEP self).2) as (_ & Hc & Hp).
  rewrite Hcreate in Hlog, Hc, Hp. cbn [snd sleep emit log copied_files folders_copied]
    in Hlog, Hc, Hp.
  split_and!; [done| |done|done].
  apply emitted_app. rewrite Hrun. cbn [snd]. by rewrite Hlog, <- app_assoc.
Qed.

(** ** The order of [folders_copied] *)

(** X12. When [copy_item] returns an id for a folder, the pair of the
    folder and that id is the last one of [folders_copied]: whatever was
    recorded while its children were copied comes before it, after what
    was recorded before the call. For an item that is not a folder,
    [folders_copied] is as it was. So the final sweep of [run] visits the
    folders below a folder before the folder itself. *)
Theorem folder_is_recorded_after_its_descendants depth item_id d n self new_id self1 :
  copy_item depth item_id d n self = (Ret (Some new_id), self1) →
  ∃ item_info mimeType,
    dict_get item_id (file_info self) = Some item_info
    ∧ i_mimeType item_info = Some mimeType
    ∧ if decide (mimeType = FOLDER_TYPE)
      then ∃ inner, folders_copied self1
                    = folders_copied self ++ inner ++ [(item_id, new_id)]
                    ∧ Forall (is_snapshot_folder (file_info self)) inner
      else folders_copied self1 = folders_copied self.
Proof.
  destruct depth as [|depth]; cbn [copy_item]; [done|]. intros H.
  rewrite bind_unfold in H. cbn [sleep emit] in H. rewrite bind_unfold in H. cbn [gets] in H.
  apply bind_Ret_inv in H as (item_info & ? & [Hitem%getitem_Ret_inv ->]%lift_Ret_inv & H).
  apply bind_Ret_inv in H as (name & ? & [_ ->]%lift_Ret_inv & H).
  apply bind_Ret_inv in H as (mime & ? & [Hmime%field_Ret_inv ->]%lift_Ret_inv & H).
  cbn [file_info] in Hitem. exists item_info, mime. split_and!; [done|done|].
  rewrite bind_unfold in H. cbn [gets] in H.
  destruct (decide (item_id ∈ _)); [done|].
  destruct (decide (mime = FOLDER_TYPE)).
  - apply bind_Ret_inv in H as (created & s2 & Hcreate & H).
    rewrite bind_unfold in H. cbn [gets] in H.
    apply bind_Ret_inv in H as (groups & ? & [_ ->]%lift_Ret_inv & H).
    apply bind_Ret_inv in H as ([] & s3 & Hchildren & H).
    rewrite bind_unfold in H. cbn in H. injection H as <- <-. cbn [folders_copied].
    match type of Hcreate with
    | ?m ?s = _ => pose proof (same_stores_create_folder _ _ s : same_stores s (m s).2)
                     as (Hf2 & _ & Hp2)
    end.
    rewrite Hcreate in Hf2, Hp2. cbn [snd file_info folders_copied] in Hf2, Hp2.
    assert (extends s2 s3) as [_ _ (inner & Hp3 & Hinner) _].
    { match type of Hchildren with
      | ?m ?s = _ => assert (always extends m) as Hm
      end.
      { unfold copy_children. apply (always_for_each extends). intros priority _.
        apply always_for_each; [apply _|]. intros [f c] _.
        repeat always_step. apply extends_copy_item. }
      specialize (Hm s2). by rewrite Hchildren in Hm. }
    exists inner. rewrite Hp3, Hp2, <- app_assoc. split; [done|]. by rewrite <- Hf2.
  - apply bind_Ret_inv in H as (moved & s2 & Hcopy & H). injection H as _ <-.
    match type of Hcopy with
    | ?m ?s = _ => pose proof (marks_copy_file _ _ s : marks _ s (m s).2) as (_ & Hp & _)
    end.
    by rewrite Hcopy in Hp.
Qed.

(** ** The stores stay consistent *)

Local Abbreviation keeps := (@keeps W).
Local Abbreviation consistent := (@consistent W).

#[local] Instance keeps_preorder : PreOrder keeps.
Proof.
  split.
  - intros self. split_and!; [done|done|auto|]. exists []. by rewrite app_nil_r.
  - intros s1 s2 s3 (Hf1 & Hc1 & Hk1 & n1 & Hn1 & Ha1) (Hf2 & Hc2 & Hk2 & n2 & Hn2 & Ha2).
    split_and!; [congruence|by etrans| |].
    + intros x [Hx|Hx]%Hk2; [by apply Hk1|]. right. by rewrite <- Hf1.
    + exists (n1 ++ n2). rewrite Hn2, Hn1, app_assoc. split; [done|].
      apply Forall_app. split; [|done].
      eapply Forall_impl; [exact Ha1|]. intros pair Hpair. by apply Hc2.
Qed.

Lemma keeps_of_same self self' : same_stores self self' → keeps self self'.
Proof.
  intros (Hf & Hc & Hp). split_and!; [done|by rewrite Hc| |].
  - intros x Hx. left. by rewrite <- Hc.
  - exists []. by rewrite app_nil_r.
Qed.

Lemma keeps_always_same {A} (m : M A) : always same_stores m → always keeps m.
Proof. intros Hm self. apply keeps_of_same, Hm. Qed.

Lemma copy_file_unknown f d self :
  dict_get f (file_info self) = None →
  copied_files (copy_file f d self).2 = copied_files self.
Proof.
  intros Hnone. unfold copy_file, _clone_file. rewrite bind_unfold.
  pose proof (same_stores_execute (Copy f) self) as (Hf & Hc & _).
  destruct (execute (Copy f) self) as [[cloned|e] s1]; cbn [snd] in *; [|done].
  rewrite bind_unfold. cbn [gets]. rewrite bind_unfold. unfold getitem.
  by rewrite Hf, Hnone.
Qed.

Lemma keeps_copy_file f d : always keeps (copy_file f d).
Proof.
  intros self. destruct (marks_copy_file f d self) as (Hf & Hp & Hl & Hu).
  split_and!; [done|done| |].
  - intros x Hx. destruct (dict_get f (file_info self)) as [current|] eqn:Hitem.
    + apply Hu, elem_of_union in Hx as [->%elem_of_singleton|Hx]; [|by left].
      right. unfold dict_mem. by rewrite Hitem.
    + left. by rewrite <- (copy_file_unknown f d self).
  - exists []. by rewrite app_nil_r.
Qed.

Lemma keeps_copy_item depth item_id d n : always keeps (copy_item depth item_id d n).
Proof.
  revert item_id d n. induction depth as [|depth IH]; intros item_id d n; cbn [copy_item].
  - always_step.
  - intros self. apply bind_rel; [apply _|apply keeps_always_same, same_stores_emit|].
    intros [] self1 _ _. rewrite bind_unfold. cbn [gets].
    rewrite bind_unfold. unfold lift at 1.
    destruct (getitem item_id (file_info self1)) as [item_info|e] eqn:Hitem; [|reflexivity].
    rewrite bind_unfold. unfold lift at 1.
    destruct (field "name" (i_name item_info)) as [name|e]; [|reflexivity].
    rewrite bind_unfold. unfold lift at 1.
    destruct (field "mimeType" (i_mimeType item_info)) as [mime|e]; [|reflexivity].
    rewrite bind_unfold. cbn [gets].
    destruct (decide (item_id ∈ copied_files self1)); [reflexivity|].
    destruct (decide (mime = FOLDER_TYPE)) as [->|].
    + apply bind_rel; [apply _|apply keeps_always_same, same_stores_create_folder|].
      intros created self2 _ H12. rewrite bind_unfold. cbn [gets].
      rewrite bind_unfold. unfold lift at 1.
      destruct (group_children _ _ _ _) as [groups|e]; [|reflexivity].
      apply bind_rel; [apply _| |].
      { unfold copy_children. apply (always_for_each keeps). intros priority _.
        apply always_for_each; [apply _|]. intros [f c] _.
        repeat always_step. }
      intros [] self3 _ H23. rewrite bind_unfold. simpl.
      split_and!; simpl; [done|apply union_subseteq_r| |].
      * intros x [->%elem_of_singleton|Hx]%elem_of_union; [|by left]. right.
        destruct H23 as (-> & _), H12 as (-> & _).
        apply getitem_Ret_inv in Hitem. unfold dict_mem. by rewrite Hitem.
      * exists [(item_id, created)]. split; [done|]. apply Forall_singleton. simpl.
        apply elem_of_union. left. by apply elem_of_singleton.
    + apply (always_bind keeps); [apply keeps_copy_file|].
      intros moved. always_step.
Qed.

Lemma keeps_run depth b d n : always keeps (run depth b d n).
Proof.
  intros self. unfold run.
  pose proof (keeps_copy_item depth b d n self) as H1.
  destruct (copy_item depth b d n self) as [outcome self1]. cbn [snd] in H1.
  etrans; [exact H1|]. clear H1. revert self1.
  change (always keeps
    (sleep CLEANUP_SLEEP ;; run_cleanup ;;
     match outcome with Raise e => raise e | Ret r => mret r end : M (option string))).
  repeat always_step; apply keeps_always_same;
    first [apply same_stores_emit | apply same_stores_run_cleanup].
Qed.

Lemma keeps_perform self c : keeps self (perform self c).
Proof.
  destruct c; cbn [perform];
    first [apply keeps_copy_file | apply keeps_copy_item | apply keeps_run
          | apply keeps_of_same ].
  - apply same_stores_get_all_pages.
  - apply same_stores_get_file_info_one_page.
  - apply same_stores_execute.
  - apply same_stores_execute.
  - apply same_stores_cleanup_files.
  - apply same_stores_execute.
  - apply same_stores_move_file.
  - apply same_stores_create_folder.
  - apply same_stores_run_cleanup.
Qed.

Lemma keeps_session calls self : keeps self (session self calls).
Proof.
  revert self. induction calls as [|c calls IH]; intros self; cbn [session foldl].
  - reflexivity.
  - etrans; [apply keeps_perform|apply IH].
Qed.

(** X13. The two stores stay consistent through any sequence of calls, each
    returning or raising: if every id marked as copied is a key of the
    snapshot and the source of every recorded folder is marked as copied,
    this still holds afterwards. A new object is consistent, so an id is
    never marked as copied unless the snapshot knows it. *)
Theorem stores_stay_consistent self calls :
  consistent self → consistent (session self calls).
Proof.
  intros [Hknown Hrecorded].
  destruct (keeps_session calls self) as (Hf & Hc & Hk & new & Hnew & Hall). split.
  - intros x [Hx|Hx]%Hk; rewrite Hf; auto.
  - rewrite Hnew. apply Forall_app. split; [|done].
    eapply Forall_impl; [exact Hrecorded|]. intros pair Hpair. by apply Hc.
Qed.

(** ** What a pass of [_cleanup_files] may send *)

Lemma cleanup_event_request snapshot names d item e :
  cleanup_event snapshot names d item e → cleanup_request snapshot d e.
Proof.
  intros (Hstray & n & _ & _ & [(x & -> & _)|[->|(removed & new_name & ->)]]); by cbn.
Qed.

Lemma cleanup_files_requests p d self :
  emits (cleanup_request (file_info self) d) self (_cleanup_files p d self).2.
Proof.
  assert (∀ q, always (emits (cleanup_request (file_info self) d))
                 (_get_file_info_one_page None q)) as Hpage.
  { intros q. unfold _get_file_info_one_page. repeat always_step. by apply emits_execute. }
  unfold _cleanup_files. cbv zeta.
  apply (bind_rel (emits _)); [apply Hpage|]. intros [cur t1] self1 _ [Hf1 _].
  apply (bind_rel (emits _)); [apply Hpage|]. intros [dst t2] self2 _ [Hf2 _].
  rewrite bind_unfold. unfold lift at 1.
  destruct (name_to_id dst []) as [names|e]; [|reflexivity].
  eapply emits_mono; [|apply (cleanup_loop_emits p d names cur (file_info self)); congruence].
  intros e (item & _ & He). by eapply cleanup_event_request.
Qed.

(** X14. Whatever the provider answers, a pass of [_cleanup_files] for the
    destination [d] never pauses and never sends a [Copy] or a [Create];
    its listings carry no page token; and every [Update] it sends moves
    into [d] a file whose id is not a key of the snapshot: a file of the
    snapshot is never moved or renamed by a pass. *)
Theorem cleanup_moves_strays_only p d self :
  Forall (cleanup_request (file_info self) d) (emitted (_cleanup_files p d) self).
Proof.
  destruct (cleanup_files_requests p d self) as [_ (events & He & HP)].
  by rewrite (emitted_app _ _ _ He).
Qed.

(** X15. A pass deletes an entry of the destination only for a stray: when
    a [Delete] of [x] is sent, the source listing holds a file other than
    [x] that the snapshot does not know, and [x] is an entry of the
    destination listing whose name is the clean name of that file. *)
Theorem cleanup_deletes_for_a_stray_only p d self cur dst names self2 x :
  cleanup_listing p d self cur dst names self2 →
  Request (Delete x) ∈ emitted (_cleanup_files p d) self →
  ∃ T iT n x_info,
    (T, iT) ∈ cur ∧ dict_mem T (file_info self) = false ∧ i_name iT = Some n
    ∧ T ≠ x ∧ (x, x_info) ∈ dst ∧ i_name x_info = Some (clean n).
Proof.
  intros Hl. destruct (cleanup_files_emitted _ _ _ _ _ _ _ Hl) as (events & -> & HP).
  rewrite Forall_forall in HP.
  intros [[=]|[[=]|Hin]%elem_of_cons]%elem_of_cons.
  destruct (HP _ Hin) as ([T iT] & HT & Hs & n & Hn & Hne
                          & [(y & [= <-] & Hx)|[[=]|(r & n' & [=])]]).
  cbn [fst snd] in *. destruct Hl as (_ & _ & _ & _ & _ & Hnames).
  destruct (name_to_id_Some _ _ _ _ Hnames Hx) as (x_info & Hdst & Hname).
  exists T, iT, n, x_info. split_and!; [done|done|done| |done|done].
  intros ->. by rewrite Hx in Hne.
Qed.

(** ** Every child is copied once *)

Lemma child_pairs_partition snapshot item_id created :
  child_pairs is_folder snapshot item_id created
  ++ child_pairs is_spreadsheet snapshot item_id created
  ++ child_pairs is_other snapshot item_id created
  ≡ₚ child_pairs (λ _, true) snapshot item_id created.
Proof.
  induction snapshot as [|[k i] snapshot IH]; [done|].
  rewrite (child_pairs_cons is_folder), (child_pairs_cons is_spreadsheet),
    (child_pairs_cons is_other), (child_pairs_cons (λ _, true)), !child_pairs_one.
  destruct (decide (i_parent i = Some item_id)); [|done].
  destruct (i_mimeType i) as [m|]; [|done].
  unfold is_other, is_folder, is_spreadsheet.
  destruct (bool_decide_reflect (m = FOLDER_TYPE)) as [->|];
    [|destruct (bool_decide_reflect (m = SPREADSHEET_TYPE))]; cbn.
  - by rewrite IH.
  - rewrite <- IH. by rewrite <- Permutation_middle.
  - rewrite <- IH. rewrite !app_assoc. by rewrite <- Permutation_middle.
Qed.

Lemma child_pairs_keys kind (snapshot : dict string info) item_id created :
  (child_pairs kind snapshot item_id created).*1 `sublist_of` dict_keys snapshot.
Proof.
  unfold dict_keys. induction snapshot as [|[k i] snapshot IH]; [done|].
  rewrite child_pairs_cons, child_pairs_one, fmap_app, fmap_cons. cbn [fst].
  destruct (decide (i_parent i = Some item_id)); [|by apply sublist_cons].
  destruct (i_mimeType i) as [m|]; [|by apply sublist_cons].
  destruct (kind m); cbn; [by apply sublist_skip|by apply sublist_cons].
Qed.

Lemma elem_of_child_pairs (snapshot : dict string info) item_id created child child_info m :
  (child, child_info) ∈ snapshot → i_parent child_info = Some item_id →
  i_mimeType child_info = Some m →
  (child, created) ∈ child_pairs (λ _, true) snapshot item_id created.
Proof.
  intros Hin Hp Hm. induction snapshot as [|[k i] snapshot IH].
  - by apply elem_of_nil in Hin.
  - rewrite child_pairs_cons, child_pairs_one. apply elem_of_app.
    apply elem_of_cons in Hin as [[= <- <-]|Hin]; [|right; by apply IH].
    left. rewrite decide_True, Hm by done. left.
Qed.

Lemma copy_order_by_rank snapshot item_id created groups :
  group_children snapshot item_id created [] = Ret groups →
  copy_order groups
  = child_pairs is_folder snapshot item_id created
    ++ child_pairs is_spreadsheet snapshot item_id created
    ++ child_pairs is_other snapshot item_id created.
Proof.
  intros (Hnd & Hget & Hkeys)%group_children_spec; [|constructor].
  rewrite copy_order_ranks; [|done|].
  - rewrite !Hget. cbn [dict_get default app].
    rewrite (child_pairs_ext (has_priority 1) is_folder),
            (child_pairs_ext (has_priority 0) is_spreadsheet),
            (child_pairs_ext (has_priority (-1)) is_other); [done|..];
      intros m; unfold has_priority, is_other; rewrite priority_of_cases;
      unfold is_folder, is_spreadsheet;
      repeat case_bool_decide; simplify_eq; done.
  - intros p Hp. destruct (Hkeys p Hp) as [[]%elem_of_nil|?]. done.
Qed.

(** X16. When the grouping of the children of a folder succeeds, the order
    in which the two loops of [copy_item] visit them is a rearrangement of
    the children the snapshot lists under the folder: every entry of the
    snapshot whose ["parent"] is the folder is visited, paired with the new
    folder, and none is visited twice. *)
Theorem every_child_is_visited_once snapshot item_id created groups :
  group_children snapshot item_id created [] = Ret groups →
  NoDup (dict_keys snapshot) →
  copy_order groups ≡ₚ child_pairs (λ _, true) snapshot item_id created
  ∧ NoDup (copy_order groups)
  ∧ (∀ child child_info,
       (child, child_info) ∈ snapshot → i_parent child_info = Some item_id →
       (child, created) ∈ copy_order groups)
  ∧ (∀ child folder, (child, folder) ∈ copy_order groups →
       folder = created
       ∧ ∃ child_info, (child, child_info) ∈ snapshot ∧ i_parent child_info = Some item_id).
Proof.
  intros Hg Hnd. pose proof (copy_order_by_rank _ _ _ _ Hg) as Horder.
  assert (copy_order groups ≡ₚ child_pairs (λ _, true) snapshot item_id created) as Hperm.
  { rewrite Horder. apply child_pairs_partition. }
  split_and!; [done| | |].
  - rewrite Hperm. apply (NoDup_fmap_1 fst).
    eapply sublist_NoDup; [exact Hnd|apply child_pairs_keys].
  - intros child child_info Hin Hp. rewrite Hperm.
    destruct (i_mimeType child_info) as [m|] eqn:Hm; [by eapply elem_of_child_pairs|].
    by rewrite (group_children_Raise _ _ _ _ _ _ Hin Hp Hm) in Hg.
  - intros child folder. rewrite Hperm. clear.
    induction snapshot as [|[k i] snapshot IH]; [by intros ?%elem_of_nil|].
    rewrite child_pairs_cons, child_pairs_one.
    intros [Hin|Hin]%elem_of_app.
    + destruct (decide (i_parent i = Some item_id)); [|by apply elem_of_nil in Hin].
      destruct (i_mimeType i); [|by apply elem_of_nil in Hin].
      apply list_elem_of_singleton in Hin as [= -> ->]. split; [done|].
      exists i. split; [left|done].
    + destruct (IH Hin) as (-> & child_info & Hc & Hp). split; [done|].
      exists child_info. split; [by right|done].
Qed.

(** ** The recursion budget *)

Lemma copy_item_unfold depth item_id d n :
  copy_item (S depth) item_id d n = copy_item_body (copy_item depth) item_id d n.
Proof. done. Qed.

Lemma bind_budget {A B} (m : M A) (k k' : A → M B) self r self1 :
  (m ≫= k) self = (r, self1) →
  (∀ a s, m self = (Ret a, s) → k a s = (r, self1) → k' a s = (r, self1)) →
  (m ≫= k') self = (r, self1).
Proof.
  rewrite !bind_unfold. destruct (m self) as [[a|e] s]; [|done].
  intros Hk Hk'. by apply Hk'.
Qed.

Lemma for_each_budget {A} (xs : list A) (body body' : A → M unit) self r self1 :
  (∀ x s r s1, body x s = (r, s1) → r ≠ Raise RecursionError → body' x s = (r, s1)) →
  for_each xs body self = (r, self1) → r ≠ Raise RecursionError →
  for_each xs body' self = (r, self1).
Proof.
  intros Hbody. revert self. induction xs as [|x xs IH]; intros self; cbn [for_each]; [done|].
  rewrite !bind_unfold. destruct (body x self) as [[[]|e] s0] eqn:Hx.
  - rewrite (Hbody x self (Ret ()) s0) by done. apply IH.
  - intros [= <- <-] He. by rewrite (Hbody x self (Raise e) s0).
Qed.

Lemma copy_children_budget
    (copy_item_ copy_item_' : string → string → option string → M (option string))
    groups self r self1 :
  (∀ i d n s r s1, copy_item_ i d n s = (r, s1) → r ≠ Raise RecursionError →
                   copy_item_' i d n s = (r, s1)) →
  copy_children copy_item_ groups self = (r, self1) →
  r ≠ Raise RecursionError →
  copy_children copy_item_' groups self = (r, self1).
Proof.
  intros Hrec. unfold copy_children. apply for_each_budget.
  intros priority t0 r0 t1. apply for_each_budget. intros [f c] t2 r2 t4.
  rewrite !bind_unfold.
  destruct (copy_item_ f c None t2) as [[o|e1] t5] eqn:Hc.
  - rewrite (Hrec _ _ _ _ _ _ Hc) by done. done.
  - intros [= <- <-] He. rewrite (Hrec _ _ _ _ _ _ Hc); [done|].
    intros [= ->]. by apply He.
Qed.

Lemma copy_item_body_budget
    (copy_item_ copy_item_' : string → string → option string → M (option string))
    item_id d n self r self1 :
  (∀ i d n s r s1, copy_item_ i d n s = (r, s1) → r ≠ Raise RecursionError →
                   copy_item_' i d n s = (r, s1)) →
  copy_item_body copy_item_ item_id d n self = (r, self1) →
  r ≠ Raise RecursionError →
  copy_item_body copy_item_' item_id d n self = (r, self1).
Proof.
  intros Hrec H Hr. unfold copy_item_body in *.
  repeat (eapply bind_budget; [exact H|]; clear H; intros ? ? _ H; cbv beta in H |- *).
  destruct (decide (item_id ∈ _)); [done|].
  destruct (decide (_ = FOLDER_TYPE)); [|done].
  repeat (eapply bind_budget; [exact H|]; clear H; intros ? ? _ H; cbv beta in H |- *).
  revert H. rewrite !(bind_unfold (copy_children _ _)).
  match goal with
  | |- context [copy_children copy_item_ ?groups ?s] =>
      destruct (copy_children copy_item_ groups s) as [[[]|err] sl] eqn:Hloop
  end.
  - rewrite (copy_children_budget _ _ _ _ _ _ Hrec Hloop) by done. intros H. exact H.
  - intros [= <- <-]. rewrite (copy_children_budget _ _ _ _ _ _ Hrec Hloop); [done|].
    intros [= ->]. by apply Hr.
Qed.

Lemma copy_item_budget depth depth' item_id d n self r self1 :
  copy_item depth item_id d n self = (r, self1) →
  r ≠ Raise RecursionError →
  (depth ≤ depth')%nat →
  copy_item depth' item_id d n self = (r, self1).
Proof.
  intros H Hr Hle. induction Hle as [|depth' _ IH]; [done|].
  clear H. revert item_id d n self r self1 IH Hr.
  induction depth' as [|depth' IHd]; intros item_id d n self r self1.
  - cbn [copy_item]. by intros [= <- <-] [].
  - rewrite !copy_item_unfold. intros H Hr.
    eapply copy_item_body_budget; [|exact H|exact Hr].
    intros. by apply IHd.
Qed.

(** X23. The number of nested calls [copy_item] is allowed does not matter
    once it suffices: a call that ends otherwise than by the
    [RecursionError] of an exhausted budget ends in the same way, returning
    or raising, and leaves the same object and the same provider, under any
    larger budget. *)
Theorem recursion_budget_is_monotone depth depth' item_id d n self r self1 :
  copy_item depth item_id d n self = (r, self1) →
  r ≠ Raise RecursionError →
  (depth ≤ depth')%nat →
  copy_item depth' item_id d n self = (r, self1).
Proof. apply copy_item_budget. Qed.

(** ** A budget that suffices *)

Lemma elem_of_child_pairs_inv kind (snapshot : dict string info) item_id created child folder :
  (child, folder) ∈ child_pairs kind snapshot item_id created →
  ∃ child_info, (child, child_info) ∈ snapshot ∧ i_parent child_info = Some item_id.
Proof.
  induction snapshot as [|[k i] snapshot IH]; [by intros ?%elem_of_nil|].
  rewrite child_pairs_cons, child_pairs_one. intros [Hin|Hin]%elem_of_app.
  - destruct (decide (i_parent i = Some item_id)); [|by apply elem_of_nil in Hin].
    destruct (i_mimeType i) as [m|]; [|by apply elem_of_nil in Hin].
    destruct (kind m); [|by apply elem_of_nil in Hin].
    apply list_elem_of_singleton in Hin as [= -> ->]. exists i. split; [left|done].
  - destruct (IH Hin) as (child_info & Hc & Hp). exists child_info. split; [by right|done].
Qed.

Lemma fits_child snapshot depth item_id child child_info :
  fits snapshot (S depth) item_id = true →
  (child, child_info) ∈ snapshot → i_parent child_info = Some item_id →
  fits snapshot depth child = true.
Proof.
  cbn [fits]. intros Hall Hin Hp.
  apply Is_true_true, forallb_True in Hall. rewrite Forall_forall in Hall.
  specialize (Hall _ Hin). cbn [fst snd] in Hall. rewrite decide_True in Hall by done.
  by apply Is_true_true.
Qed.

Local Abbreviation quiet m := (@quiet W _ m).

Section NoOverflow.

(** The provider has no [RecursionError] of its own to raise. *)
Hypothesis provider_is_quiet :
  ∀ (r : request) (w : W), (service_execute r w).1 ≠ Raise RecursionError.

Lemma bind_quiet_at {A B} (m : M A) (k : A → M B) self :
  (m self).1 ≠ Raise RecursionError →
  (∀ a s, m self = (Ret a, s) → (k a s).1 ≠ Raise RecursionError) →
  ((m ≫= k) self).1 ≠ Raise RecursionError.
Proof.
  intros Hm Hk. rewrite bind_unfold. destruct (m self) as [[a|e] s]; [by apply Hk|].
  cbn in *. intros [= ->]. by apply Hm.
Qed.

Lemma quiet_bind {A B} (m : M A) (k : A → M B) :
  quiet m → (∀ a, quiet (k a)) → quiet (m ≫= k).
Proof. intros Hm Hk self. apply bind_quiet_at; [apply Hm|]. intros. apply Hk. Qed.

Lemma quiet_ret {A} (a : A) : quiet (mret a : M A).
Proof. by intros self. Qed.

Lemma quiet_gets {A} (f : cloner → A) : quiet (gets f).
Proof. by intros self. Qed.

Lemma quiet_emit e : quiet (emit e).
Proof. by intros self. Qed.

Lemma quiet_copied_files_add f : quiet (copied_files_add f).
Proof. by intros self. Qed.

Lemma quiet_folders_copied_append pair : quiet (folders_copied_append pair).
Proof. by intros self. Qed.

Lemma quiet_execute r : quiet (execute r).
Proof. intros self. rewrite execute_fst. apply provider_is_quiet. Qed.

Lemma quiet_lift {A} (r : result A) : r ≠ Raise RecursionError → quiet (lift r).
Proof. by intros Hr self. Qed.

Lemma quiet_for_each {A} (xs : list A) (body : A → M unit) :
  (∀ x, quiet (body x)) → quiet (for_each xs body).
Proof.
  intros Hbody. induction xs as [|x xs IH]; cbn [for_each]; [apply quiet_ret|].
  apply quiet_bind; [apply Hbody|]. intros _. apply IH.
Qed.

Lemma getitem_quiet {V} k (d : dict string V) : getitem k d ≠ Raise RecursionError.
Proof. unfold getitem. by destruct (dict_get k d). Qed.

Lemma field_quiet key o : field key o ≠ Raise RecursionError.
Proof. by destruct o. Qed.

Lemma resp_files_quiet resp : resp_files resp ≠ Raise RecursionError.
Proof. by destruct resp. Qed.

Lemma resp_first_parent_quiet resp : resp_first_parent resp ≠ Raise RecursionError.
Proof. unfold resp_first_parent. by destruct (r_parents _) as [[|]|]. Qed.

Lemma add_files_quiet fs page : add_files fs page ≠ Raise RecursionError.
Proof.
  revert page. induction fs as [|f fs IH]; intros page; cbn [add_files]; [done|].
  unfold add_file. destruct (r_id f); [|done].
  destruct (r_parents f) as [[|]|]; [done|..]; destruct (no_fields f); apply IH.
Qed.

Lemma name_to_id_quiet items acc : name_to_id items acc ≠ Raise RecursionError.
Proof.
  revert acc. induction items as [|[k v] items IH]; intros acc; cbn [name_to_id]; [done|].
  destruct (i_name v); [apply IH|done].
Qed.

Lemma group_children_quiet items item_id created groups :
  group_children items item_id created groups ≠ Raise RecursionError.
Proof.
  revert groups. induction items as [|[k v] items IH]; intros groups; cbn [group_children];
    [done|].
  case_decide; [|apply IH]. destruct (i_mimeType v); [apply IH|done].
Qed.

Ltac quiet_step :=
  lazymatch goal with
  | |- quiet (let _ := _ in _) => cbv zeta
  | |- quiet (mbind _ _) => apply quiet_bind; [|intros ?]
  | |- quiet (mret _) => apply quiet_ret
  | |- quiet (gets _) => apply quiet_gets
  | |- quiet (emit _) => apply quiet_emit
  | |- quiet (sleep _) => apply quiet_emit
  | |- quiet (execute _) => apply quiet_execute
  | |- quiet (copied_files_add _) => apply quiet_copied_files_add
  | |- quiet (folders_copied_append _) => apply quiet_folders_copied_append
  | |- quiet (lift (getitem _ _)) => apply quiet_lift, getitem_quiet
  | |- quiet (lift (field _ _)) => apply quiet_lift, field_quiet
  | |- quiet (lift (resp_id _)) => apply quiet_lift, field_quiet
  | |- quiet (lift (resp_files _)) => apply quiet_lift, resp_files_quiet
  | |- quiet (lift (resp_first_parent _)) => apply quiet_lift, resp_first_parent_quiet
  | |- quiet (lift (add_files _ _)) => apply quiet_lift, add_files_quiet
  | |- quiet (lift (name_to_id _ _)) => apply quiet_lift, name_to_id_quiet
  | |- quiet (lift (group_children _ _ _ _)) => apply quiet_lift, group_children_quiet
  | |- quiet (for_each _ _) => apply quiet_for_each; intros ?
  | |- quiet (if ?b then _ else _) => destruct b
  | |- quiet (match ?x with _ => _ end) => destruct x
  end.

Lemma quiet_get_file_info_one_page t q : quiet (_get_file_info_one_page t q).
Proof. unfold _get_file_info_one_page. repeat quiet_step. Qed.

Lemma quiet_move_file f d p n m : quiet (move_file f d p n m).
Proof. unfold move_file, _get_one_file_info. repeat quiet_step. Qed.

Lemma quiet_cleanup_files p d : quiet (_cleanup_files p d).
Proof.
  unfold _cleanup_files. repeat quiet_step; try apply quiet_get_file_info_one_page.
  unfold cleanup_one, _delete_file. repeat quiet_step; apply quiet_move_file.
Qed.

Lemma quiet_copy_file f d : quiet (copy_file f d).
Proof.
  unfold copy_file, _clone_file.
  repeat quiet_step; first [apply quiet_move_file | apply quiet_cleanup_files].
Qed.

Lemma quiet_create_folder d n : quiet (create_folder d n).
Proof. unfold create_folder. repeat quiet_step. Qed.

Lemma for_each_quiet_at {A} (xs : list A) (body : A → M unit) snapshot self :
  (∀ x s, x ∈ xs → file_info s = snapshot →
          (body x s).1 ≠ Raise RecursionError ∧ file_info (body x s).2 = snapshot) →
  file_info self = snapshot →
  (for_each xs body self).1 ≠ Raise RecursionError.
Proof.
  revert self. induction xs as [|x xs IH]; intros self Hbody Hf; cbn [for_each]; [done|].
  destruct (Hbody x self) as [Hq Hf']; [left|done|].
  apply bind_quiet_at; [done|]. intros [] s Hx. apply IH.
  - intros y s' Hy. apply Hbody. by right.
  - by rewrite Hx in Hf'.
Qed.

(** X24. A budget that exceeds the depth of the tree below the item is
    never exhausted: when the provider has no [RecursionError] of its own
    to raise and the items below [item_id] in the snapshot are nested less
    than [depth] deep, [copy_item] with that budget does not end by
    [RecursionError]. Whatever it does is then what it does under any
    larger budget. *)
Theorem enough_budget_is_never_exhausted depth item_id d n self :
  fits (file_info self) depth item_id = true →
  (copy_item depth item_id d n self).1 ≠ Raise RecursionError
  ∧ ∀ depth', (depth ≤ depth')%nat →
      copy_item depth' item_id d n self = copy_item depth item_id d n self.
Proof.
  intros Hfits.
  assert ((copy_item depth item_id d n self).1 ≠ Raise RecursionError) as Hquiet.
  { remember (file_info self) as snapshot eqn:Hsnap. symmetry in Hsnap.
    revert item_id d n self Hfits Hsnap.
    induction depth as [|depth IH]; intros item_id d n self Hfits Hsnap; [done|].
    cbn [copy_item].
    apply bind_quiet_at; [done|]. intros [] s1 [= <-].
    apply bind_quiet_at; [done|]. intros snap s [= <- <-]. cbn [file_info].
    apply bind_quiet_at; [apply quiet_lift, getitem_quiet|]. intros item_info s [= _ <-].
    apply bind_quiet_at; [apply quiet_lift, field_quiet|]. intros name s [= _ <-].
    apply bind_quiet_at; [apply quiet_lift, field_quiet|]. intros mime s [= _ <-].
    apply bind_quiet_at; [done|]. intros copied s [= <- <-]. cbn [copied_files].
    destruct (decide (item_id ∈ copied_files self)); [done|].
    destruct (decide (mime = FOLDER_TYPE)) as [->|].
    - apply bind_quiet_at; [apply quiet_create_folder|]. intros created s2 Hcreate.
      match type of Hcreate with
      | ?m ?s = _ => pose proof (same_stores_create_folder _ _ s : same_stores s (m s).2)
                       as (Hf2 & _ & _)
      end.
      rewrite Hcreate in Hf2. cbn [snd file_info] in Hf2.
      apply bind_quiet_at; [done|]. intros snap s [= <- <-]. rewrite Hf2, Hsnap.
      apply bind_quiet_at; [apply quiet_lift, group_children_quiet|].
      intros groups s [= Hgroups <-].
      apply bind_quiet_at; [|intros [] s3 _; rewrite bind_unfold; by simpl].
      rewrite (copy_children_by_rank _ _ _ _ _ _ Hgroups).
      apply (for_each_quiet_at _ _ snapshot); [|by rewrite Hf2].
      intros [child folder] s Hin Hs.
      assert (∃ child_info, (child, child_info) ∈ snapshot
                            ∧ i_parent child_info = Some item_id) as (child_info & Hc & Hp).
      { rewrite !elem_of_app in Hin.
        destruct Hin as [Hin|[Hin|Hin]]; by eapply elem_of_child_pairs_inv. }
      pose proof (extends_copy_item depth child folder None s) as Hext.
      split.
      + apply bind_quiet_at; [|done]. apply IH; [|done]. by eapply fits_child.
      + rewrite bind_unfold.
        destruct (copy_item depth child folder None s) as [[o|e] s3]; simpl in *;
          by rewrite (ext_file_info _ _ Hext).
    - apply bind_quiet_at; [apply quiet_copy_file|]. done. }
  split; [done|]. intros depth' Hle.
  destruct (copy_item depth item_id d n self) as [r self1] eqn:Hrun.
  by apply (copy_item_budget depth).
Qed.

End NoOverflow.

(** ** A folder without children *)

Lemma group_children_none items item_id created groups :
  Forall (λ entry : string * info, i_parent entry.2 ≠ Some item_id) items →
  group_children items item_id created groups = Ret groups.
Proof.
  induction 1 as [|[k i] items Hk _ IH]; cbn [group_children]; [done|].
  cbn [snd] in Hk. by rewrite decide_False.
Qed.

Lemma child_pairs_none kind items item_id created :
  Forall (λ entry : string * info, i_parent entry.2 ≠ Some item_id) items →
  child_pairs kind items item_id created = [].
Proof.
  induction 1 as [|[k i] items Hk _ IH]; [done|].
  rewrite child_pairs_cons, child_pairs_one, IH. cbn [snd] in Hk.
  by rewrite decide_False.
Qed.

(** X25. [copy_item] on a folder of the snapshot that is not copied yet
    and under which the snapshot lists nothing, when the provider answers
    the [Create] with an id: after the pause the folder is created under
    the destination, with the new name if one is given and is not empty
    and with the name the snapshot has for the folder otherwise; no other
    request is sent; the folder is marked as copied, the pair of the folder
    and the new id is recorded last, and the new id is returned. *)
Theorem copy_item_of_a_childless_folder depth item_id d n self item_info name resp w created :
  dict_get item_id (file_info self) = Some item_info →
  i_name item_info = Some name →
  i_mimeType item_info = Some FOLDER_TYPE →
  item_id ∉ copied_files self →
  Forall (λ entry : string * info, i_parent entry.2 ≠ Some item_id) (file_info self) →
  service_execute (Create (if truthy n then default "" n else name) FOLDER_TYPE [d])
    (service self) = (Ret resp, w) →
  r_id (resp_resource resp) = Some created →
  copy_item (S depth) item_id d n self
  = (Ret (Some created),
     Cloner w (file_info self) ({[ item_id ]} ∪ copied_files self)
       (folders_copied self ++ [(item_id, created)])
       (log self ++ [Sleep COPY_SLEEP;
                     Request (Create (if truthy n then default "" n else name)
                                FOLDER_TYPE [d])])).
Proof.
  intros Hitem Hname Hmime Hnot Hnone Hans Hid.
  assert (create_folder d (if truthy n then default "" n else name) (sleep COPY_SLEEP self).2
          = (Ret created,
             Cloner w (file_info self) (copied_files self) (folders_copied self)
               ((log self ++ [Sleep COPY_SLEEP])
                ++ [Request (Create (if truthy n then default "" n else name)
                               FOLDER_TYPE [d])]))) as Hcreate.
  { unfold create_folder. rewrite bind_unfold. unfold execute.
    cbn [sleep emit snd service file_info copied_files folders_copied log].
    rewrite Hans. unfold lift, resp_id. by rewrite Hid. }
  rewrite (copy_item_folder _ _ _ _ _ _ _ _ _ Hitem Hname Hmime Hnot Hcreate).
  rewrite group_children_none, !child_pairs_none by done. cbn [app for_each].
  rewrite !bind_unfold. cbn. by rewrite <- app_assoc.
Qed.
End Properties.

(** * Reconciliation against the store *)

Section Store.
Implicit Types (self : cloner Drive.store) (w : Drive.store) (f : Drive.file).

Lemma string_length_app s1 s2 :
  String.length (s1 +:+ s2) = (String.length s1 + String.length s2)%nat.
Proof.
  induction s1 as [|a s1 IH]; [done|].
  change (String a s1 +:+ s2) with (String a (s1 +:+ s2)). simpl. by rewrite IH.
Qed.

Lemma string_app_inj_r t s1 s2 : s1 +:+ t = s2 +:+ t → s1 = s2.
Proof.
  revert s2. induction s1 as [|a s1 IH]; intros [|b s2] H.
  - done.
  - apply (f_equal String.length) in H. rewrite !string_length_app in H.
    simpl in H. lia.
  - apply (f_equal String.length) in H. rewrite !string_length_app in H.
    simpl in H. lia.
  - change (String a (s1 +:+ t) = String b (s2 +:+ t)) in H.
    injection H as -> H. by rewrite (IH _ H).
Qed.

Lemma parent_query_inj p1 p2 : parent_query p1 = parent_query p2 → p1 = p2.
Proof.
  unfold parent_query. intros H%(inj (String.append _)). by apply string_app_inj_r in H.
Qed.

Lemma matches_parent_query s f :
  Drive.matches (Some (parent_query s)) f = true ↔ s ∈ Drive.parents f.
Proof.
  unfold Drive.matches. rewrite existsb_exists. split.
  - intros (p & Hp & ->%String.eqb_eq%parent_query_inj). by apply list_elem_of_In.
  - intros Hs. exists s. split; [by apply list_elem_of_In|]. by apply String.eqb_eq.
Qed.

Lemma elem_of_listing s w k f :
  (k, f) ∈ Drive.listing (Some (parent_query s)) w
  ↔ Drive.files w !! k = Some f ∧ s ∈ Drive.parents f.
Proof.
  unfold Drive.listing. rewrite list_elem_of_filter, elem_of_map_to_list. cbn [snd].
  rewrite matches_parent_query. tauto.
Qed.

Lemma listing_NoDup q w : NoDup (Drive.listing q w).*1.
Proof.
  unfold Drive.listing. eapply sublist_NoDup; cycle 1.
  - apply fmap_sublist. apply sublist_filter.
  - apply NoDup_fst_map_to_list.
Qed.

Lemma elem_of_page s w k i :
  (k, i) ∈ Drive.page (Some (parent_query s)) w
  ↔ ∃ f, i = Drive.info_of f ∧ Drive.files w !! k = Some f ∧ s ∈ Drive.parents f.
Proof.
  unfold Drive.page. rewrite list_elem_of_fmap. split.
  - intros ([k' f] & [= -> ->] & Hin%elem_of_listing). eauto.
  - intros (f & -> & Hf). exists (k, f). split; [done|]. by apply elem_of_listing.
Qed.

Lemma page_keys q w : dict_keys (Drive.page q w) = (Drive.listing q w).*1.
Proof. unfold dict_keys, Drive.page. rewrite <- list_fmap_compose. done. Qed.

Lemma dict_get_app {V} k (d1 d2 : dict string V) :
  dict_get k (d1 ++ d2)
  = match dict_get k d1 with Some v => Some v | None => dict_get k d2 end.
Proof.
  induction d1 as [|[k' v'] d1 IH]; simpl; [done|]. by case_decide.
Qed.

Lemma add_file_resource k f acc :
  dict_get k acc = None →
  add_file (Drive.resource k f) acc = Ret (acc ++ [(k, Drive.info_of f)]).
Proof.
  intros Hk. unfold add_file, Drive.resource, Drive.info_of. cbn [r_id r_parents].
  destruct (Drive.parents f) as [|p ps]; cbn; rewrite Hk; cbn;
    by rewrite (dict_set_absent _ _ _ Hk).
Qed.

Lemma add_files_resources (l : list (string * Drive.file)) acc :
  NoDup l.*1 → (∀ k, k ∈ l.*1 → dict_get k acc = None) →
  add_files (map (λ kf, Drive.resource kf.1 kf.2) l) acc
  = Ret (acc ++ map (λ kf, (kf.1, Drive.info_of kf.2)) l).
Proof.
  revert acc. induction l as [|[k f] l IH]; intros acc; csimpl.
  - intros _ _. by rewrite app_nil_r.
  - intros [Hk Hnd]%NoDup_cons Hacc.
    rewrite add_file_resource by (apply Hacc; left).
    rewrite IH; [by rewrite <- app_assoc|done|].
    intros k' Hk'. rewrite dict_get_app, Hacc by (by right). simpl.
    rewrite decide_False; [done|]. by intros ->.
Qed.

(** A listing of the store: the page holds every file under the parent. *)
Lemma store_page s self :
  _get_file_info_one_page None (Some (parent_query s)) self
  = (Ret (Drive.page (Some (parent_query s)) (service self), None),
     Cloner (service self) (file_info self) (copied_files self) (folders_copied self)
       (log self ++ [Request (List_ 1000 LIST_FIELDS None (Some (parent_query s)))])).
Proof.
  unfold _get_file_info_one_page. cbn [truthy]. 
  change (negb (String.eqb (parent_query s) "")) with true. cbv iota.
  rewrite bind_unfold. unfold execute. cbn.
  rewrite bind_unfold. cbn. rewrite bind_unfold. unfold lift.
  rewrite add_files_resources; [done|apply listing_NoDup|done].
Qed.

Lemma name_to_id_total items acc :
  Forall (λ kv : string * info, is_Some (i_name kv.2)) items →
  ∃ names, name_to_id items acc = Ret names.
Proof.
  revert acc. induction items as [|[k v] items IH]; intros acc; simpl; [eauto|].
  intros [[n Hn] Hall]%Forall_cons. simpl in Hn. rewrite Hn. by apply IH.
Qed.

Lemma store_page_named q w : Forall (λ kv, is_Some (i_name kv.2)) (Drive.page q w).
Proof.
  unfold Drive.page. apply Forall_fmap, Forall_true. intros [k f]. by eexists.
Qed.

Lemma execute_delete self file_id f :
  Drive.files (service self) !! file_id = Some f →
  execute (Delete file_id) self
  = (Ret (File (FileResource None None None None None)),
     Cloner (Drive.Store (delete file_id (Drive.files (service self)))
               (Drive.fresh (service self)))
       (file_info self) (copied_files self) (folders_copied self)
       (log self ++ [Request (Delete file_id)])).
Proof.
  intros Hf. unfold execute, service_execute, Drive.execute. cbn [emit snd service].
  by rewrite Hf.
Qed.

Lemma execute_update self file_id f added removed new_name :
  Drive.files (service self) !! file_id = Some f →
  removed ∈ Drive.parents f →
  execute (Update file_id added removed new_name) self
  = (Ret (id_only file_id),
     Cloner (Drive.Store
               (<[file_id := Drive.DriveFile new_name (Drive.mimeType f)
                               (Drive.remove_first removed (Drive.parents f) ++ [added])]>
                  (Drive.files (service self)))
               (Drive.fresh (service self)))
       (file_info self) (copied_files self) (folders_copied self)
       (log self ++ [Request (Update file_id added removed new_name)])).
Proof.
  intros Hf Hin. unfold execute, service_execute, Drive.execute. cbn [emit snd service].
  by rewrite Hf, bool_decide_eq_true_2.
Qed.

Lemma truthy_Some s : s ≠ "" → truthy (Some s) = true.
Proof. intros Hs. simpl. by apply negb_true_iff, String.eqb_neq. Qed.

Lemma cleanup_one_known {W} `{!Service W} p d names k i (self : cloner W) :
  is_Some (i_name i) → dict_mem k (file_info self) = true →
  cleanup_one p d names (k, i) self = (Ret (), self).
Proof.
  intros [n Hn] Hk. unfold cleanup_one. rewrite bind_unfold. cbn. rewrite Hn. cbn.
  rewrite bind_unfold. cbn. by rewrite Hk.
Qed.

Lemma for_each_skip {W A} (xs : list A) (body : A → M W unit) (self : cloner W) :
  (∀ x, x ∈ xs → body x self = (Ret (), self)) →
  for_each xs body self = (Ret (), self).
Proof.
  induction xs as [|x xs IH]; intros Hskip; simpl; [done|].
  rewrite bind_unfold, Hskip by left. apply IH. intros y Hy. apply Hskip. by right.
Qed.

Lemma prefix_app p s : String.prefix p (p +:+ s) = true.
Proof.
  induction p as [|a p IH].
  - by destruct s.
  - change (String a p +:+ s) with (String a (p +:+ s)). cbn [String.prefix].
    by destruct (Ascii.ascii_dec a a).
Qed.

Lemma string_drop_app p s : string_drop (String.length p) (p +:+ s) = s.
Proof.
  induction p as [|a p IH]; [done|].
  change (String a p +:+ s) with (String a (p +:+ s)). by cbn.
Qed.

Lemma clean_decorated s : clean (prefix +:+ s) = s.
Proof. unfold clean. by rewrite prefix_app, string_drop_app. Qed.

Lemma move_file_supplied {W} `{!Service W} file_id d p n m (self : cloner W) :
  p ≠ "" → n ≠ "" → m ≠ "" →
  move_file file_id d (Some p) (Some n) (Some m) self
  = (execute (Update file_id d p n) ≫= λ resp, lift (resp_id resp)) self.
Proof.
  intros Hp Hn Hm. unfold move_file.
  rewrite !truthy_Some by done. cbn [andb]. by rewrite bind_unfold.
Qed.

Lemma names_of_unique_entry d w names X old fo :
  name_to_id (Drive.page (Some (parent_query d)) w) [] = Ret names →
  Drive.files w !! old = Some fo → d ∈ Drive.parents fo → Drive.name fo = X →
  (∀ k f, Drive.files w !! k = Some f → d ∈ Drive.parents f → Drive.name f = X → k = old) →
  dict_get X names = Some old.
Proof.
  intros Hnames Hold Hd HX Hone. rewrite (name_to_id_get _ _ _ X Hnames).
  destruct (last_named X _) as [k|] eqn:Hlast.
  - apply last_named_Some in Hlast as (i & l1 & l2 & Heq & Hn & _).
    assert ((k, i) ∈ Drive.page (Some (parent_query d)) w) as Hin.
    { rewrite Heq. apply elem_of_app. right. left. }
    apply elem_of_page in Hin as (f & -> & Hf & Hdf).
    injection Hn as Hn. by rewrite (Hone k f).
  - exfalso. unfold last_named in Hlast.
    destruct (last _) eqn:Hl; [done|]. apply last_None in Hl.
    assert ((old, Drive.info_of fo) ∈ Drive.page (Some (parent_query d)) w) as Hin.
    { apply elem_of_page. eauto. }
    eapply (not_elem_of_nil (old, Drive.info_of fo)). rewrite <- Hl.
    apply list_elem_of_filter. split; [|done]. simpl. by rewrite HX.
Qed.

(** The pass over a store in which the only stray under [s] is ["Copy of X"]
    and the only entry named ["X"] under [d] is [old]. *)
Lemma cleanup_files_promotes self s d A fA X old fo :
  s ≠ "" → X ≠ "" → Drive.mimeType fA ≠ "" →
  Drive.files (service self) !! A = Some fA →
  s ∈ Drive.parents fA →
  Drive.name fA = prefix +:+ X →
  dict_mem A (file_info self) = false →
  (∀ T fT, Drive.files (service self) !! T = Some fT → s ∈ Drive.parents fT →
           T ≠ A → dict_mem T (file_info self) = true) →
  Drive.files (service self) !! old = Some fo →
  d ∈ Drive.parents fo →
  Drive.name fo = X →
  old ≠ A →
  (∀ k f, Drive.files (service self) !! k = Some f → d ∈ Drive.parents f →
          Drive.name f = X → k = old) →
  _cleanup_files s d self
  = (Ret (),
     Cloner
       (Drive.Store
          (<[A := Drive.DriveFile X (Drive.mimeType fA)
                    (Drive.remove_first s (Drive.parents fA) ++ [d])]>
             (delete old (Drive.files (service self))))
          (Drive.fresh (service self)))
       (file_info self) (copied_files self) (folders_copied self)
       (log self ++
        [Request (List_ 1000 LIST_FIELDS None (Some (parent_query s)));
         Request (List_ 1000 LIST_FIELDS None (Some (parent_query d)));
         Request (Delete old); Request (Update A d s X)])).
Proof.
  intros Hs HX Hmime HA HsA Hname Hstray Honly Hold Hdo Hnameo Hne Hone.
  unfold _cleanup_files. rewrite (bind_Ret _ _ _ _ _ (store_page s self)). cbv zeta.
  rewrite (bind_Ret _ _ _ _ _ (store_page d _)).
  cbn [service file_info copied_files folders_copied log].
  destruct (name_to_id_total (Drive.page (Some (parent_query d)) (service self)) []
              (store_page_named _ _)) as [names Hnames].
  rewrite bind_unfold. unfold lift at 1. rewrite Hnames.
  pose proof (names_of_unique_entry _ _ _ _ _ _ Hnames Hold Hdo Hnameo Hone) as Hget.
  assert ((A, Drive.info_of fA) ∈ Drive.page (Some (parent_query s)) (service self)) as Hin.
  { apply elem_of_page. eauto. }
  pose proof (listing_NoDup (Some (parent_query s)) (service self)) as Hnd.
  rewrite <- page_keys in Hnd.
  apply list_elem_of_split in Hin as (l1 & l2 & Hpage). rewrite Hpage in Hnd |- *.
  assert (∀ k i, (k, i) ∈ l1 ++ l2 →
                 is_Some (i_name i) ∧ dict_mem k (file_info self) = true) as Hknown.
  { intros k i Hki.
    assert ((k, i) ∈ Drive.page (Some (parent_query s)) (service self)) as Hp.
    { rewrite Hpage. rewrite elem_of_app in Hki |- *. rewrite elem_of_cons. tauto. }
    apply elem_of_page in Hp as (f & -> & Hf & Hsf). split; [by eexists|].
    apply (Honly k f Hf Hsf). intros ->.
    unfold dict_keys in Hnd. rewrite fmap_app, fmap_cons in Hnd.
    apply NoDup_app in Hnd as (_ & Hl1 & [Hl2 _]%NoDup_cons).
    apply elem_of_app in Hki as [Hki|Hki].
    - apply (Hl1 A); [|left]. apply list_elem_of_fmap. by exists (A, Drive.info_of f).
    - apply Hl2. apply list_elem_of_fmap. by exists (A, Drive.info_of f). }
  rewrite for_each_app, bind_unfold, for_each_skip; cycle 1.
  { intros [k i] Hki. apply cleanup_one_known; apply (Hknown k i), elem_of_app; auto. }
  cbn [for_each]. rewrite bind_unfold.
  assert (cleanup_one s d names (A, Drive.info_of fA)
            (Cloner (service self) (file_info self) (copied_files self)
               (folders_copied self)
               ((log self ++ [Request (List_ 1000 LIST_FIELDS None (Some (parent_query s)))])
                ++ [Request (List_ 1000 LIST_FIELDS None (Some (parent_query d)))]))
          = (Ret (),
             Cloner
               (Drive.Store
                  (<[A := Drive.DriveFile X (Drive.mimeType fA)
                            (Drive.remove_first s (Drive.parents fA) ++ [d])]>
                     (delete old (Drive.files (service self))))
                  (Drive.fresh (service self)))
               (file_info self) (copied_files self) (folders_copied self)
               ((((log self ++ [Request (List_ 1000 LIST_FIELDS None (Some (parent_query s)))])
                  ++ [Request (List_ 1000 LIST_FIELDS None (Some (parent_query d)))])
                 ++ [Request (Delete old)]) ++ [Request (Update A d s X)]))) as ->.
  { unfold cleanup_one. rewrite bind_unfold. cbn [lift field i_name Drive.info_of].
    rewrite Hname. rewrite bind_unfold. cbn [gets file_info].
    rewrite Hstray.
    fold (clean (prefix +:+ X)). rewrite clean_decorated.
    rewrite Hget. rewrite decide_False by done.
    rewrite bind_unfold. unfold _delete_file.
    erewrite execute_delete by exact Hold.
    rewrite bind_unfold.
    cbn [lift field i_mimeType Drive.info_of service file_info copied_files
           folders_copied log].
    rewrite bind_unfold, move_file_supplied by done.
    rewrite bind_unfold.
    erewrite execute_update; [|cbn [service Drive.files]; by rewrite lookup_delete_ne|done].
    reflexivity. }
  rewrite for_each_skip.
  - by rewrite <- !app_assoc.
  - intros [k i] Hki. apply cleanup_one_known; apply (Hknown k i), elem_of_app; auto.
Qed.

Lemma elem_of_named_in d n w k :
  k ∈ Drive.named_in d n w
  ↔ ∃ f, Drive.files w !! k = Some f ∧ d ∈ Drive.parents f ∧ Drive.name f = n.
Proof.
  unfold Drive.named_in. rewrite list_elem_of_fmap. split.
  - intros ([k' f] & -> & [[??] ?%elem_of_map_to_list]%list_elem_of_filter). eauto.
  - intros (f & Hf & Hd & Hn). exists (k, f). split; [done|].
    apply list_elem_of_filter. split; [done|]. by apply elem_of_map_to_list.
Qed.

Lemma named_in_NoDup d n w : NoDup (Drive.named_in d n w).
Proof.
  unfold Drive.named_in. eapply sublist_NoDup; cycle 1.
  - apply fmap_sublist. apply sublist_filter.
  - apply NoDup_fst_map_to_list.
Qed.

Lemma only_element {A} (l : list A) a : NoDup l → (∀ x, x ∈ l ↔ x = a) → l = [a].
Proof.
  intros Hnd Hl. apply Permutation_singleton_r, NoDup_Permutation; [done|apply NoDup_singleton|].
  intros x. by rewrite Hl, list_elem_of_singleton.
Qed.


Lemma execute_Ret_inv {W} `{!Service W} r (self : cloner W) resp (self1 : cloner W) :
  execute r self = (Ret resp, self1) →
  service_execute r (service self) = (Ret resp, service self1)
  ∧ file_info self1 = file_info self
  ∧ log self1 = log self ++ [Request r].
Proof.
  unfold execute. cbn [emit snd service file_info log].
  destruct (service_execute r (service self)) as [r' w']. by intros [= -> <-].
Qed.

(** ** What the pass sends for a stray with a namesake, whatever the provider *)

Lemma names_of_unique (dst : dict string info) names X old io :
  name_to_id dst [] = Ret names →
  (old, io) ∈ dst → i_name io = Some X →
  (∀ k i, (k, i) ∈ dst → i_name i = Some X → k = old) →
  dict_get X names = Some old.
Proof.
  intros Hnames Hin HX Hone. rewrite (name_to_id_get _ _ _ X Hnames).
  destruct (last_named X dst) as [k|] eqn:Hlast.
  - apply last_named_Some in Hlast as (i & l1 & l2 & Heq & Hn & _).
    rewrite (Hone k i); [done| |done]. rewrite Heq. apply elem_of_app. right. left.
  - exfalso. unfold last_named in Hlast.
    destruct (last _) eqn:Hl; [done|]. apply last_None in Hl.
    eapply (not_elem_of_nil (old, io)). rewrite <- Hl.
    by apply list_elem_of_filter.
Qed.

Lemma for_each_extends {W} `{!Service W} p d names (items : dict string info)
    (c : cloner W) :
  file_info (for_each items (cleanup_one p d names) c).2 = file_info c
  ∧ ∃ events, log (for_each items (cleanup_one p d names) c).2 = log c ++ events.
Proof.
  assert (always extends (for_each items (cleanup_one p d names))) as Hext.
  { apply always_for_each; [apply extends_preorder|]. intros item _.
    apply extends_cleanup_one. }
  destruct (Hext c) as [Hinfo _ _ Hlog]. done.
Qed.

(** The turn of a stray named ["Copy of X"] when the destination map has
    another id under [X]: if the turn returns, it has sent the [Delete] of
    that id and then the [Update] that moves the stray under the name [X]. *)
Lemma cleanup_one_promotes {W} `{!Service W} s d names A iA X m old (c c' : cloner W) :
  dict_mem A (file_info c) = false →
  i_name iA = Some (prefix +:+ X) → i_mimeType iA = Some m →
  dict_get X names = Some old → old ≠ A →
  s ≠ "" → X ≠ "" → m ≠ "" →
  cleanup_one s d names (A, iA) c = (Ret (), c') →
  log c' = log c ++ [Request (Delete old); Request (Update A d s X)].
Proof.
  intros Hmem Hname Hmime Hget Hne Hs HX Hm. unfold cleanup_one.
  rewrite bind_unfold. cbn [lift field]. rewrite Hname. cbn [field].
  rewrite bind_unfold. cbn [gets]. rewrite Hmem.
  fold (clean (prefix +:+ X)). rewrite clean_decorated, Hget.
  rewrite decide_False by done.
  intros (resp & c1 & (_ & _ & Hlog1)%execute_Ret_inv & Hmove)%bind_Ret_inv.
  apply bind_Ret_inv in Hmove as (m' & c2 & [Hm' ->]%lift_Ret_inv & Hmove).
  rewrite Hmime in Hm'. injection Hm' as <-.
  apply bind_Ret_inv in Hmove as (moved & c3 & Hmove & [= <-]).
  rewrite move_file_supplied in Hmove by done.
  apply bind_Ret_inv in Hmove as (resp' & c4 & (_ & _ & Hlog2)%execute_Ret_inv & Hid).
  apply lift_Ret_inv in Hid as [_ ->]. by rewrite Hlog2, Hlog1, <- app_assoc.
Qed.

Lemma cleanup_files_promotes_requests {W} `{!Service W} s d (c : cloner W)
    cur dst names (c2 : cloner W) A iA X m old :
  cleanup_listing s d c cur dst names c2 →
  (A, iA) ∈ cur → dict_mem A (file_info c) = false →
  i_name iA = Some (prefix +:+ X) → i_mimeType iA = Some m →
  dict_get X names = Some old → old ≠ A →
  s ≠ "" → X ≠ "" → m ≠ "" →
  (_cleanup_files s d c).1 = Ret () →
  ∃ before after,
    emitted (_cleanup_files s d) c
    = [Request (List_ 1000 LIST_FIELDS None (Some (parent_query s)));
       Request (List_ 1000 LIST_FIELDS None (Some (parent_query d)))]
      ++ before ++ [Request (Delete old); Request (Update A d s X)] ++ after.
Proof.
  intros Hl Hin Hmem Hname Hmime Hget Hne Hs HX Hm Hret.
  rewrite (cleanup_files_loop _ _ _ _ _ _ _ Hl) in Hret.
  rewrite (emitted_ext _ _ _ _ (cleanup_files_loop _ _ _ _ _ _ _ Hl)).
  destruct Hl as (t1 & c1 & t2 & H1 & H2 & H3).
  apply get_file_info_one_page_Ret in H1 as (_ & Hf1 & Hl1).
  apply get_file_info_one_page_Ret in H2 as (_ & Hf2 & Hl2).
  cbn [truthy] in Hl1, Hl2.
  apply list_elem_of_split in Hin as (l1 & l2 & ->).
  destruct (for_each _ _ c2) as [r c5] eqn:Hrun. cbn [fst snd] in Hret |- *. subst r.
  rewrite for_each_app in Hrun.
  apply bind_Ret_inv in Hrun as ([] & c3 & Hrun1 & Hrun).
  cbn [for_each] in Hrun.
  apply bind_Ret_inv in Hrun as ([] & c4 & Hturn & Hrun2).
  destruct (for_each_extends s d names l1 c2) as [Hinfo3 [before Hlog3]].
  destruct (for_each_extends s d names l2 c4) as [_ [after Hlog5]].
  rewrite Hrun1 in Hinfo3, Hlog3. rewrite Hrun2 in Hlog5. cbn [snd] in *.
  apply (cleanup_one_promotes s d names A iA X m old) in Hturn; [|congruence|done..].
  exists before, after. rewrite Hlog5, Hturn, Hlog3, Hl2, Hl1.
  rewrite <- !app_assoc. rewrite drop_app_length. done.
Qed.

(** ** One turn of the loop on the store *)



(** A [Delete] the store answers: the file was there, and is removed. *)
Lemma store_delete_Ret x self resp self' :
  _delete_file x self = (Ret resp, self') →
  is_Some (Drive.files (service self) !! x)
  ∧ Drive.files (service self') = delete x (Drive.files (service self))
  ∧ file_info self' = file_info self.
Proof.
  intros (Hx & Hinfo & _)%execute_Ret_inv. unfold service_execute, Drive.execute in Hx.
  destruct (Drive.files (service self) !! x) as [f|]; [|done].
  injection Hx as _ <-. eauto.
Qed.

(** An [Update] the store answers. *)
Lemma store_update_Ret T d p n self resp self' :
  execute (Update T d p n) self = (Ret resp, self') →
  ∃ f, Drive.files (service self) !! T = Some f
       ∧ Drive.files (service self')
         = <[T := Drive.DriveFile n (Drive.mimeType f)
                    (Drive.remove_first p (Drive.parents f) ++ [d])]>
             (Drive.files (service self))
       ∧ file_info self' = file_info self.
Proof.
  intros (Hx & Hinfo & _)%execute_Ret_inv. unfold service_execute, Drive.execute in Hx.
  destruct (Drive.files (service self) !! T) as [f|]; [|done].
  destruct (bool_decide (p ∈ Drive.parents f)); [|done].
  injection Hx as _ <-. eauto.
Qed.

(** A [Get] the store answers. *)
Lemma store_get_Ret T fields self resp self' :
  execute (Get T fields) self = (Ret resp, self') →
  ∃ f, Drive.files (service self) !! T = Some f
       ∧ resp = File (Drive.resource T f)
       ∧ service self' = service self
       ∧ file_info self' = file_info self.
Proof.
  intros (Hx & Hinfo & _)%execute_Ret_inv. unfold service_execute, Drive.execute in Hx.
  destruct (Drive.files (service self) !! T) as [f|]; [|done].
  injection Hx as <- <-. eauto.
Qed.

(** A [move_file] the store answers: the file was there; it keeps its
    mime-type, is put under [d], and bears the supplied name if the three
    optional arguments are non-empty, the name it had otherwise. *)
Lemma store_move_Ret T d p n m self moved self' :
  move_file T d (Some p) (Some n) (Some m) self = (Ret moved, self') →
  ∃ f new_name ps,
    Drive.files (service self) !! T = Some f
    ∧ Drive.files (service self')
      = <[T := Drive.DriveFile new_name (Drive.mimeType f) (ps ++ [d])]>
          (Drive.files (service self))
    ∧ file_info self' = file_info self
    ∧ (if truthy (Some p) && truthy (Some n) && truthy (Some m)
       then new_name = n ∧ ps = Drive.remove_first p (Drive.parents f)
       else new_name = Drive.name f).
Proof.
  unfold move_file. destruct (truthy (Some p) && truthy (Some n) && truthy (Some m)).
  - intros ([p' n'] & self1 & [= <- <- <-] & (resp & self2 & Hu & Hid)%bind_Ret_inv)%bind_Ret_inv.
    apply lift_Ret_inv in Hid as [_ ->].
    apply store_update_Ret in Hu as (f & Hf & Hfiles & Hinfo).
    exists f, n, (Drive.remove_first p (Drive.parents f)). eauto.
  - intros ([p' n'] & self1 & Hget & (resp & self2 & Hu & Hid)%bind_Ret_inv)%bind_Ret_inv.
    apply lift_Ret_inv in Hid as [_ ->].
    apply bind_Ret_inv in Hget as (got & self0 & Hget & Hrest).
    apply store_get_Ret in Hget as (f & Hf & -> & Hw & Hinfo).
    apply bind_Ret_inv in Hrest as (p0 & s1 & [Hp0 ->]%lift_Ret_inv & Hrest).
    apply bind_Ret_inv in Hrest as (n0 & s2 & [Hn0 ->]%lift_Ret_inv & Hrest).
    apply bind_Ret_inv in Hrest as (m0 & s3 & [Hm0 ->]%lift_Ret_inv & Hrest).
    injection Hrest as <- <- <-.
    apply store_update_Ret in Hu as (f' & Hf' & Hfiles & Hinfo').
    rewrite Hw in Hf', Hfiles. rewrite Hf in Hf'. injection Hf' as <-.
    injection Hn0 as <-.
    exists f, (Drive.name f), (Drive.remove_first p0 (Drive.parents f)).
    split_and!; [done|done|congruence|done].
Qed.

(** A turn of the loop that returns, on the store. Either nothing is done
    (the file is one of the snapshot, or its clean name leads to itself in
    the destination map), or the file found under the clean name, if any,
    was in the store and is deleted, and the stray, still in the store, is
    put under [d]: with its clean name when the source parent, the clean
    name and the listed mime-type are non-empty, with the name it has in
    the store otherwise. *)
Lemma cleanup_one_store s d names T f0 self self' :
  cleanup_one s d names (T, Drive.info_of f0) self = (Ret (), self') →
  file_info self' = file_info self
  ∧ ((dict_mem T (file_info self) = true
      ∨ dict_get (clean (Drive.name f0)) names = Some T)
     ∧ Drive.files (service self') = Drive.files (service self)
     ∨ dict_mem T (file_info self) = false
       ∧ dict_get (clean (Drive.name f0)) names ≠ Some T
       ∧ ∃ base f new_name ps,
           match dict_get (clean (Drive.name f0)) names with
           | Some x => is_Some (Drive.files (service self) !! x)
                       ∧ base = delete x (Drive.files (service self))
           | None => base = Drive.files (service self)
           end
           ∧ base !! T = Some f
           ∧ Drive.files (service self')
             = <[T := Drive.DriveFile new_name (Drive.mimeType f) (ps ++ [d])]> base
           ∧ (if truthy (Some s) && truthy (Some (clean (Drive.name f0)))
                 && truthy (Some (Drive.mimeType f0))
              then new_name = clean (Drive.name f0)
                   ∧ ps = Drive.remove_first s (Drive.parents f)
              else new_name = Drive.name f)).
Proof.
  unfold cleanup_one. rewrite bind_unfold. cbn [lift field i_name Drive.info_of].
  rewrite bind_unfold. cbn [gets].
  destruct (dict_mem T (file_info self)) eqn:Hmem.
  { intros [= <-]. auto. }
  fold (clean (Drive.name f0)).
  assert (∀ self0 self1,
            (lift (field "mimeType" (i_mimeType (Drive.info_of f0)))
             ≫= λ mime_type,
                  move_file T d (Some s) (Some (clean (Drive.name f0))) (Some mime_type) ;;
                  mret ()) self0 = (Ret (), self1) →
            ∃ f new_name ps,
              Drive.files (service self0) !! T = Some f
              ∧ Drive.files (service self1)
                = <[T := Drive.DriveFile new_name (Drive.mimeType f) (ps ++ [d])]>
                    (Drive.files (service self0))
              ∧ file_info self1 = file_info self0
              ∧ (if truthy (Some s) && truthy (Some (clean (Drive.name f0)))
                    && truthy (Some (Drive.mimeType f0))
                 then new_name = clean (Drive.name f0)
                      ∧ ps = Drive.remove_first s (Drive.parents f)
                 else new_name = Drive.name f)) as Hmove.
  { intros self0 self1 (m & s1 & [[= <-] ->]%lift_Ret_inv & Hm)%bind_Ret_inv.
    apply bind_Ret_inv in Hm as (moved & s2 & Hm & [= <-]).
    by apply store_move_Ret in Hm. }
  destruct (dict_get (clean (Drive.name f0)) names) as [x|] eqn:Hx.
  - destruct (decide (x = T)) as [->|Hne].
    { intros [= <-]. auto. }
    intros (resp & self1 & (Hix & Hdel & Hinfo)%store_delete_Ret
            & (f & new_name & ps & Hf & Hfiles & Hinfo' & Hname)%Hmove)%bind_Ret_inv.
    split; [congruence|]. right. split; [done|]. split; [congruence|].
    exists (delete x (Drive.files (service self))), f, new_name, ps.
    rewrite <- Hdel. split_and!; [done|done|done|done|done].
  - intros (f & new_name & ps & Hf & Hfiles & Hinfo' & Hname)%Hmove.
    split; [done|]. right. split; [done|]. split; [done|].
    exists (Drive.files (service self)), f, new_name, ps. eauto.
Qed.

(** The pass on the store: its two listings are the full pages of the two
    parents, and the loop starts with the store as it was. *)
Lemma store_cleanup_loop s d self names :
  name_to_id (Drive.page (Some (parent_query d)) (service self)) [] = Ret names →
  _cleanup_files s d self
  = for_each (Drive.page (Some (parent_query s)) (service self))
      (cleanup_one s d names)
      (Cloner (service self) (file_info self) (copied_files self) (folders_copied self)
         (log self ++ [Request (List_ 1000 LIST_FIELDS None (Some (parent_query s)));
                       Request (List_ 1000 LIST_FIELDS None (Some (parent_query d)))])).
Proof.
  intros Hnames. unfold _cleanup_files.
  rewrite (bind_Ret _ _ _ _ _ (store_page s self)). cbv zeta.
  rewrite (bind_Ret _ _ _ _ _ (store_page d _)).
  cbn [service file_info copied_files folders_copied log].
  rewrite bind_unfold. unfold lift at 1. rewrite Hnames. by rewrite <- app_assoc.
Qed.

Lemma store_names_of q w : name_to_id (Drive.page q w) [] = Ret (names_of (Drive.page q w)).
Proof.
  unfold names_of.
  by destruct (name_to_id_total (Drive.page q w) [] (store_page_named _ _)) as [names ->].
Qed.

(** ** The pass on the store, with other strays in the listing *)

Section Promotion.
Variables (w0 : Drive.store) (snapshot : dict string info).
Variables (s d A old X : string) (fA : Drive.file) (names : dict string string).
Hypothesis source_parent_given : s ≠ "".
Hypothesis clean_name_given : X ≠ "".
Hypothesis mime_type_given : Drive.mimeType fA ≠ "".
Hypothesis stray_in_store : Drive.files w0 !! A = Some fA.
Hypothesis stray_is_decorated : Drive.name fA = prefix +:+ X.
Hypothesis stray_is_new : dict_mem A snapshot = false.
Hypothesis old_under_clean_name : dict_get X names = Some old.
Hypothesis old_is_not_the_stray : old ≠ A.
Hypothesis old_is_the_only_namesake :
  ∀ k f, Drive.files w0 !! k = Some f → d ∈ Drive.parents f → Drive.name f = X → k = old.
Hypothesis stray_is_not_a_target :
  ∀ T fT, Drive.files w0 !! T = Some fT → s ∈ Drive.parents fT → T ≠ A →
          dict_mem T snapshot = false →
          dict_get (clean (Drive.name fT)) names ≠ Some A.
Hypothesis namesakes_are_renamed :
  ∀ T fT, Drive.files w0 !! T = Some fT → s ∈ Drive.parents fT → T ≠ A → T ≠ old →
          dict_mem T snapshot = false → Drive.name fT = X →
          clean X ≠ "" ∧ Drive.mimeType fT ≠ "".

Local Abbreviation moved :=
  (Drive.DriveFile X (Drive.mimeType fA) (Drive.remove_first s (Drive.parents fA) ++ [d])).

(** What holds between two turns, [rest] being the items still to come:
    the snapshot is the same; the files of [rest] that are still in the
    store are as they were; nothing but the old entry and the stray is
    named [X] under [d]; before the turn of the stray, unless the old entry
    is gone; after it, the old entry is gone and the stray is as moved. *)
Local Abbreviation between rest self :=
  (file_info self = snapshot
   ∧ (∀ k f, k ∈ (rest : list (string * info)).*1 → Drive.files (service self) !! k = Some f →
             Drive.files w0 !! k = Some f)
   ∧ (A ∈ (rest : list (string * info)).*1 →
      Drive.files (service self) !! old = None
      ∨ ∀ k f, Drive.files (service self) !! k = Some f → d ∈ Drive.parents f →
               Drive.name f = X → k = old ∨ k = A)
   ∧ (A ∉ (rest : list (string * info)).*1 →
      (∀ k f, Drive.files (service self) !! k = Some f → d ∈ Drive.parents f →
              Drive.name f = X → k = old ∨ k = A)
      ∧ Drive.files (service self) !! old = None
      ∧ Drive.files (service self) !! A = Some moved)).

Lemma promotion_step T f0 (rest : list (string * info)) self self' :
  Drive.files w0 !! T = Some f0 → s ∈ Drive.parents f0 → NoDup (T :: rest.*1) →
  cleanup_one s d names (T, Drive.info_of f0) self = (Ret (), self') →
  between ((T, Drive.info_of f0) :: rest) self → between rest self'.
Proof.
  intros Hf0 Hs0 [HT Hnd]%NoDup_cons Hturn (Hinfo & Hunt & Hbefore & Hafter).
  rewrite fmap_cons in Hunt, Hbefore, Hafter. cbn [fst] in Hunt, Hbefore, Hafter.
  assert (clean (Drive.name fA) = X) as HcleanA
    by (rewrite stray_is_decorated; apply clean_decorated).
  apply cleanup_one_store in Hturn
    as (Hinfo' & [[Hskip Hsame] | (Hmem & Hnot & base & f & nm & ps & Hbase & HbT & Hfiles & Hnm)]).
  - (* nothing done *)
    assert (T ≠ A) as HTA.
    { intros ->. rewrite Hinfo in Hskip. rewrite Hf0 in stray_in_store.
      injection stray_in_store as ->. rewrite HcleanA in Hskip.
      destruct Hskip; congruence. }
    rewrite Hsame. split_and!.
    + congruence.
    + intros k f' Hk. apply Hunt. by right.
    + intros HA. apply Hbefore. by right.
    + intros HA. apply Hafter. by intros [?|?]%elem_of_cons.
  - assert (∀ k f', base !! k = Some f' → Drive.files (service self) !! k = Some f')
      as Hsub.
    { intros k f'. destruct (dict_get (clean (Drive.name f0)) names) as [x|].
      - destruct Hbase as [_ ->]. by intros [_ ?]%lookup_delete_Some.
      - by rewrite Hbase. }
    assert (f = f0) as ->.
    { apply Hsub, Hunt in HbT; [congruence|left]. }
    rewrite Hinfo in Hmem.
    destruct (decide (T = A)) as [->|HTA].
    + (* the turn of the stray *)
      rewrite Hf0 in stray_in_store. injection stray_in_store as ->.
      rewrite HcleanA, old_under_clean_name in Hbase. destruct Hbase as [[fo Hold] ->].
      rewrite HcleanA, !truthy_Some in Hnm by done. destruct Hnm as [-> ->].
      split_and!.
      * congruence.
      * intros k f' Hk. rewrite Hfiles, lookup_insert_ne by (by intros <-).
        intros Hl. apply Hunt; [by right|by apply Hsub].
      * by intros ?.
      * intros _. rewrite Hfiles. split_and!.
        -- intros k f'. destruct (decide (k = A)) as [->|HkA]; [by right|].
           rewrite lookup_insert_ne by done. intros [Hko Hl]%lookup_delete_Some Hd Hn.
           destruct Hbefore as [Hgone|HJ]; [by left|congruence|]. by apply (HJ k f').
        -- rewrite lookup_insert_ne by done. apply lookup_delete_eq.
        -- apply lookup_insert_eq.
    + (* the turn of another stray *)
      assert (nm = X → T ≠ old → Drive.files (service self) !! old = None → False)
        as Hsame_name.
      { intros -> HTo Hgone.
        destruct (truthy (Some s) && truthy (Some (clean (Drive.name f0)))
                  && truthy (Some (Drive.mimeType f0))) eqn:Hsupplied.
        - destruct Hnm as [Hclean _]. rewrite <- Hclean, old_under_clean_name in Hbase.
          destruct Hbase as [[fo Hold] _]. congruence.
        - destruct (namesakes_are_renamed T f0) as [Hc Hm]; [done..|].
          rewrite <- Hnm in Hsupplied. by rewrite !truthy_Some in Hsupplied. }
      assert (nm = X → T ≠ old → Drive.files (service self') !! old = None) as Hdeleted.
      { intros -> HTo. rewrite Hfiles, lookup_insert_ne by done.
        destruct (truthy (Some s) && truthy (Some (clean (Drive.name f0)))
                  && truthy (Some (Drive.mimeType f0))) eqn:Hsupplied.
        - destruct Hnm as [Hclean _]. rewrite <- Hclean, old_under_clean_name in Hbase.
          destruct Hbase as [_ ->]. apply lookup_delete_eq.
        - destruct (namesakes_are_renamed T f0) as [Hc Hm]; [done..|].
          rewrite <- Hnm in Hsupplied. by rewrite !truthy_Some in Hsupplied. }
      assert (∀ k f', k ≠ T → Drive.files (service self') !! k = Some f' →
                      Drive.files (service self) !! k = Some f') as Hother.
      { intros k f' Hk. rewrite Hfiles, lookup_insert_ne by done. apply Hsub. }
      assert (Drive.files (service self) !! old = None →
              Drive.files (service self') !! old = None) as Hgone.
      { intros Hgone. destruct (Drive.files (service self') !! old) as [fo|] eqn:Ho; [|done].
        destruct (decide (old = T)) as [->|HoT].
        - apply Hsub in HbT. congruence.
        - apply Hother in Ho; [congruence|done]. }
      split_and!.
      * congruence.
      * intros k f' Hk Hl. apply Hunt; [by right|]. apply (Hother k); [|done].
        by intros ->.
      * intros HA. destruct Hbefore as [Hold|HJ]; [by right|by left; apply Hgone|].
        destruct (decide (T = old)) as [->|HTo].
        { right. intros k f' Hl Hd Hn. destruct (decide (k = old)) as [|Hko]; [by left|].
          apply (HJ k f'); [by apply Hother|done..]. }
        destruct (decide (nm = X)) as [HnmX|HnmX]; [left; by apply Hdeleted|].
        right. intros k f' Hl Hd Hn. destruct (decide (k = T)) as [->|HkT].
        -- rewrite Hfiles, lookup_insert_eq in Hl. injection Hl as <-. done.
        -- apply (HJ k f'); [by apply Hother|done..].
      * intros HA. destruct Hafter as (HJ & Hold & Hmoved).
        { by intros [?|?]%elem_of_cons. }
        split_and!.
        -- intros k f' Hl Hd Hn. destruct (decide (k = T)) as [->|HkT].
           ++ rewrite Hfiles, lookup_insert_eq in Hl. injection Hl as <-. cbn in Hn.
              destruct (decide (T = old)) as [->|HTo]; [by left|].
              by destruct (Hsame_name Hn HTo Hold).
           ++ apply (HJ k f'); [by apply Hother|done..].
        -- by apply Hgone.
        -- rewrite Hfiles, lookup_insert_ne by done.
           destruct (dict_get (clean (Drive.name f0)) names) as [x|] eqn:Hx.
           ++ destruct Hbase as [_ ->]. rewrite lookup_delete_ne; [done|].
              intros ->. by apply (stray_is_not_a_target T f0).
           ++ by rewrite Hbase.
Qed.

Lemma promotion_loop (rest : list (string * info)) self self' :
  (∀ item, item ∈ rest → item ∈ Drive.page (Some (parent_query s)) w0) →
  NoDup rest.*1 →
  for_each rest (cleanup_one s d names) self = (Ret (), self') →
  between rest self → between [] self'.
Proof.
  revert self. induction rest as [|[T i] rest IH]; intros self Hin Hnd Hrun Hb.
  - by injection Hrun as <-.
  - cbn [for_each] in Hrun. apply bind_Ret_inv in Hrun as ([] & self1 & Hturn & Hrun).
    destruct (proj1 (elem_of_page s w0 T i)) as (f0 & -> & Hf0 & Hs0); [apply Hin; left|].
    apply (IH self1); [| |done|].
    + intros item Hitem. apply Hin. by right.
    + rewrite fmap_cons in Hnd. by apply NoDup_cons in Hnd as [_ ?].
    + by apply (promotion_step T f0 rest self).
Qed.

(** The pass, when it returns: the old entry is gone, the stray is under
    [d] with the name [X], and it is the only entry of that name there. *)
Lemma promotion_on_the_store self :
  service self = w0 → file_info self = snapshot →
  s ∈ Drive.parents fA →
  name_to_id (Drive.page (Some (parent_query d)) w0) [] = Ret names →
  (_cleanup_files s d self).1 = Ret () →
  Drive.files (service (_cleanup_files s d self).2) !! old = None
  ∧ Drive.files (service (_cleanup_files s d self).2) !! A = Some moved
  ∧ Drive.named_in d X (service (_cleanup_files s d self).2) = [A].
Proof.
  intros Hw Hsnap HsA Hnames Hret.
  assert (name_to_id (Drive.page (Some (parent_query d)) (service self)) [] = Ret names)
    as Hnames' by (by rewrite Hw).
  rewrite (store_cleanup_loop s d self names Hnames') in Hret |- *. rewrite Hw in Hret |- *.
  destruct (for_each _ _ _) as [r self'] eqn:Hrun. cbn [fst snd] in Hret |- *. subst r.
  apply promotion_loop in Hrun as (_ & _ & _ & Hafter).
  - destruct Hafter as (HJ & Hold & Hmoved); [apply not_elem_of_nil|].
    split_and!; [done|done|].
    apply only_element; [apply named_in_NoDup|].
    intros k. rewrite elem_of_named_in. split.
    + intros (f & Hf & Hd & Hn). destruct (HJ k f Hf Hd Hn) as [->|]; congruence.
    + intros ->. eexists. split_and!; [done| |done]. cbn. apply elem_of_app. right. left.
  - done.
  - change (NoDup (dict_keys (Drive.page (Some (parent_query s)) w0))).
    rewrite page_keys. apply listing_NoDup.
  - cbn [service file_info]. split_and!; [done|done| |].
    + intros _. right. intros k f Hf Hd Hn. left. by apply (old_is_the_only_namesake k f).
    + intros HA. destruct HA. apply list_elem_of_fmap.
      exists (A, Drive.info_of fA). split; [done|]. apply elem_of_page. eauto.
Qed.

End Promotion.

(** C4, as the code has it. A stray named ["Copy of X"] is listed under
    [s], exactly one entry named ["X"] is listed under [d], with another
    id, and [s], [X] and the listed mime-type of the stray are non-empty.

    Whatever the provider, a pass that returns has sent, after its two
    listings, the [Delete] of the old entry and directly after it the
    [Update] that moves the stray from [s] to [d] under the name ["X"].

    On the store (a provider that holds one set of files, applies every
    request to it at once and lists it in full), suppose moreover that the
    destination map does not hold the stray under the clean name of another
    stray of the listing of [s], and that no other stray of that listing,
    the old entry apart, is itself named ["X"] with an empty mime-type or an
    empty clean name. Then after a pass that returns the old entry is gone,
    the stray is under [d] instead of [s] with the name ["X"], and it is the
    only entry of that name under [d]. Other strays may be listed under [s]
    and are handled in the same pass. *)
Theorem stray_replaces_superseded_copy :
  (∀ W (H : Service W) s d (c : cloner W) cur dst names (c2 : cloner W) A iA X m old io,
     cleanup_listing s d c cur dst names c2 →
     (A, iA) ∈ cur → dict_mem A (file_info c) = false →
     i_name iA = Some (prefix +:+ X) → i_mimeType iA = Some m →
     (old, io) ∈ dst → i_name io = Some X → old ≠ A →
     (∀ k i, (k, i) ∈ dst → i_name i = Some X → k = old) →
     s ≠ "" → X ≠ "" → m ≠ "" →
     (_cleanup_files s d c).1 = Ret () →
     ∃ before after,
       emitted (_cleanup_files s d) c
       = [Request (List_ 1000 LIST_FIELDS None (Some (parent_query s)));
          Request (List_ 1000 LIST_FIELDS None (Some (parent_query d)))]
         ++ before ++ [Request (Delete old); Request (Update A d s X)] ++ after)
  ∧ (∀ self s d A fA X old fo,
       s ≠ "" → X ≠ "" → Drive.mimeType fA ≠ "" →
       Drive.files (service self) !! A = Some fA →
       s ∈ Drive.parents fA →
       Drive.name fA = prefix +:+ X →
       dict_mem A (file_info self) = false →
       Drive.files (service self) !! old = Some fo →
       d ∈ Drive.parents fo →
       Drive.name fo = X →
       old ≠ A →
       (∀ k f, Drive.files (service self) !! k = Some f → d ∈ Drive.parents f →
               Drive.name f = X → k = old) →
       (∀ T fT, Drive.files (service self) !! T = Some fT → s ∈ Drive.parents fT →
                T ≠ A → dict_mem T (file_info self) = false →
                dict_get (clean (Drive.name fT))
                  (names_of (Drive.page (Some (parent_query d)) (service self)))
                ≠ Some A) →
       (∀ T fT, Drive.files (service self) !! T = Some fT → s ∈ Drive.parents fT →
                T ≠ A → T ≠ old → dict_mem T (file_info self) = false →
                Drive.name fT = X →
                clean X ≠ "" ∧ Drive.mimeType fT ≠ "") →
       (_cleanup_files s d self).1 = Ret () →
       Drive.files (service (_cleanup_files s d self).2) !! old = None
       ∧ Drive.files (service (_cleanup_files s d self).2) !! A
         = Some (Drive.DriveFile X (Drive.mimeType fA)
                   (Drive.remove_first s (Drive.parents fA) ++ [d]))
       ∧ Drive.named_in d X (service (_cleanup_files s d self).2) = [A]).
Proof.
  split.
  - intros W H s d c cur dst names c2 A iA X m old io Hl HA Hnew Hname Hmime
      Hold Hnameo Hne Hone Hs HX Hm Hret.
    destruct Hl as (t1 & c1 & t2 & H1 & H2 & Hnames).
    eapply cleanup_files_promotes_requests; try done.
    + by exists t1, c1, t2.
    + by eapply names_of_unique.
  - intros self s d A fA X old fo Hs HX Hmime HA HsA Hname Hnew Hold Hdo Hnameo Hne
      Hone Htarget Hrenamed Hret.
    eapply (promotion_on_the_store (service self) (file_info self) s d A old X fA
              (names_of (Drive.page (Some (parent_query d)) (service self))));
      try done.
    + eapply names_of_unique_entry; [apply store_names_of|done..].
    + apply store_names_of.
Qed.
End Store.

(** * Concrete runs *)

Lemma copy_item_twice_witness :
  copy_item 2 "1" "4" None (session after_first_copy [call_run_cleanup])
  = (Ret None, (sleep COPY_SLEEP (session after_first_copy [call_run_cleanup])).2)
  ∧ service (sleep COPY_SLEEP (session after_first_copy [call_run_cleanup])).2
    = service (session after_first_copy [call_run_cleanup])
  ∧ log (sleep COPY_SLEEP (session after_first_copy [call_run_cleanup])).2
    = log (session after_first_copy [call_run_cleanup]) ++ [Sleep COPY_SLEEP].
Proof.
  apply (copy_item_twice 1 "1" "3" None before_first_copy "c1").
  vm_compute. reflexivity.
Defined.

Lemma copy_item_copied_no_op_witness :
  copy_item 1 "1" "3" None copied_and_known
  = (Ret None, (sleep COPY_SLEEP copied_and_known).2)
  ∧ service (sleep COPY_SLEEP copied_and_known).2 = service copied_and_known
  ∧ log (sleep COPY_SLEEP copied_and_known).2
    = log copied_and_known ++ [Sleep COPY_SLEEP].
Proof.
  apply (copy_item_copied_no_op 0 "1" "3" None copied_and_known).
  apply (bool_decide_unpack _). vm_compute. exact I.
Defined.

(** C6 does not hold for an id of the copied set that the snapshot does
    not know. The lookup comes first and raises; the call does not return
    [None]. *)
Lemma copy_item_copied_but_unknown_raises :
  "x" ∈ copied_files copied_but_unknown
  ∧ dict_get "x" (file_info copied_but_unknown) = None
  ∧ (copy_item 1 "x" "d" None copied_but_unknown).1 = Raise (KeyError "x").
Proof.
  split_and!; [|reflexivity|reflexivity].
  apply (bool_decide_unpack _). vm_compute. exact I.
Qed.

(** C9 does not hold for an argument that is supplied but empty. All three
    arguments are given, the name as the empty string: a [Get] is sent all
    the same and the [Update] carries the provider's parent and name, not
    the caller's. *)
Lemma move_file_empty_name_is_fetched :
  emitted (move_file "f" "d" (Some "p") (Some "") (Some "mime"))
    answers_get_then_update
  = [Request (Get "f" GET_FIELDS);
     Request (Update "f" "d" "remote parent" "remote name")].
Proof. vm_compute. reflexivity. Qed.

Lemma run_sweeps_then_ends_as_copy_item_witness :
  run 5 "R" "D" None sweep_goes_through
  = (Raise (KeyError "mimeType"), (run 5 "R" "D" None sweep_goes_through).2).
Proof.
  refine (proj1 (run_sweeps_then_ends_as_copy_item 5 "R" "D" None sweep_goes_through
                   (Raise (KeyError "mimeType"))
                   (copy_item 5 "R" "D" None sweep_goes_through).2 _) _ _).
  - vm_compute. reflexivity.
  - vm_compute. eapply sweep_cons; [vm_compute; reflexivity|apply sweep_nil].
Defined.

(** C1 does not hold when the sweep itself raises. The walk raises
    [KeyError] after one folder has been recorded; the provider then refuses
    the first listing of the sweep, and [run] raises that [HttpError]: the
    caller does not see the exception of the walk. *)
Lemma run_sweep_failure_replaces_exception :
  (copy_item 5 "R" "D" None sweep_fails).1 = Raise (KeyError "mimeType")
  ∧ folders_copied (copy_item 5 "R" "D" None sweep_fails).2 = [("F", "F'")]
  ∧ (run 5 "R" "D" None sweep_fails).1 = Raise (HttpError "backendError").
Proof. split_and!; vm_compute; reflexivity. Qed.

(** C3. When [copy_item] processes a folder (one of the snapshot, not
    copied yet, whose new folder has been created), it groups the children
    the snapshot gives it by the rank of their mime-type (folder 1,
    spreadsheet 0, anything else the default -1) and goes through whole
    groups, highest rank first: it calls itself on every folder child, then
    on every spreadsheet child, then on every other child, each group in the
    order of the snapshot; then it records the folder. Each of these calls,
    for a child that is not copied yet, first sends the [Create] of the new
    folder if the child is a folder and the [Copy] of the child otherwise.
    In particular, for a folder whose children are a plain file, a folder, a
    spreadsheet and a plain file, the [Create] of the folder child is sent
    before the [Copy] of the spreadsheet, which is sent before the [Copy] of
    either plain file. *)
Theorem children_copied_by_priority :
  (∀ W (H : Service W) depth item_id d n (self : cloner W) item_info name created self1,
     dict_get item_id (file_info self) = Some item_info →
     i_name item_info = Some name →
     i_mimeType item_info = Some FOLDER_TYPE →
     item_id ∉ copied_files self →
     create_folder d (if truthy n then default "" n else name) (sleep COPY_SLEEP self).2
     = (Ret created, self1) →
     copy_item (S depth) item_id d n self
     = match group_children (file_info self) item_id created [] with
       | Raise e => (Raise e, self1)
       | Ret _ =>
           (for_each (child_pairs is_folder (file_info self) item_id created
                      ++ child_pairs is_spreadsheet (file_info self) item_id created
                      ++ child_pairs is_other (file_info self) item_id created)
              (λ '(file_id, created_folder_id),
                 copy_item depth file_id created_folder_id None ;; mret ()) ;;
            copied_files_add item_id ;;
            folders_copied_append (item_id, created) ;;
            mret (Some created)) self1
       end)
  ∧ (∀ mimeType, priority_of mimeType
                 = if is_folder mimeType then 1
                   else if is_spreadsheet mimeType then 0 else -1)
  ∧ (∀ W (H : Service W) depth item_id d n (self : cloner W) item_info name mimeType,
       dict_get item_id (file_info self) = Some item_info →
       i_name item_info = Some name →
       i_mimeType item_info = Some mimeType →
       item_id ∉ copied_files self →
       ∃ events,
         emitted (copy_item (S depth) item_id d n) self
         = Sleep COPY_SLEEP
           :: Request (if is_folder mimeType
                       then Create (if truthy n then default "" n else name)
                              FOLDER_TYPE [d]
                       else Copy item_id)
           :: events)
  ∧ creates_and_copies (emitted (copy_item 3 "R" "D" None) four_children_session)
    = [Create "root" FOLDER_TYPE ["D"]; Create "sub" FOLDER_TYPE ["n1"];
       Copy "S"; Copy "p1"; Copy "p2"].
Proof.
  split_and!.
  - intros. by eapply copy_item_folder.
  - apply priority_of_cases.
  - intros. by eapply copy_item_first_request.
  - vm_compute. reflexivity.
Qed.

Lemma children_copied_by_priority_witness :
  copy_item 3 "R" "D" None four_children_session
  = (for_each [("F", "n1"); ("S", "n1"); ("p1", "n1"); ("p2", "n1")]
       (λ '(file_id, created_folder_id),
          copy_item 2 file_id created_folder_id None ;; mret ()) ;;
     copied_files_add "R" ;;
     folders_copied_append ("R", "n1") ;;
     mret (Some "n1"))
      (create_folder "D" "root" (sleep COPY_SLEEP four_children_session).2).2.
Proof.
  refine (proj1 children_copied_by_priority _ _ 2%nat "R" "D" None four_children_session
            (folder_info "root") "root" "n1"
            (create_folder "D" "root" (sleep COPY_SLEEP four_children_session).2).2
            _ _ _ _ _).
  - reflexivity.
  - reflexivity.
  - reflexivity.
  - apply not_elem_of_empty.
  - vm_compute. reflexivity.
Defined.

Lemma twin_strays_listing :
  cleanup_listing "s" "d" twin_strays (listing_of "s" twin_strays)
    (listing_of "d" twin_strays) (names_of (listing_of "d" twin_strays))
    (after_listing "d" (after_listing "s" twin_strays)).
Proof.
  exists None, (after_listing "s" twin_strays), None.
  split_and!; vm_compute; reflexivity.
Defined.

Lemma resolved_stray_is_not_moved_witness :
  (∀ added removed new_name,
     Request (Update "A" added removed new_name)
     ∉ emitted (_cleanup_files "s" "d") twin_strays)
  ∧ (Request (Delete "A") ∈ emitted (_cleanup_files "s" "d") twin_strays →
     ∃ T iT nT, (T, iT) ∈ listing_of "s" twin_strays ∧ T ≠ "A"
                ∧ dict_mem T (file_info twin_strays) = false
                ∧ i_name iT = Some nT ∧ clean nT = clean "X").
Proof.
  apply (resolved_stray_is_not_moved "s" "d" twin_strays
           (listing_of "s" twin_strays) (listing_of "d" twin_strays)
           (names_of (listing_of "d" twin_strays))
           (after_listing "d" (after_listing "s" twin_strays))
           "A" (Info (Some "drive#file") (Some "X") (Some "mime") (Some "s")) "X").
  - exact twin_strays_listing.
  - vm_compute. left.
  - vm_compute. reflexivity.
  - reflexivity.
  - vm_compute. reflexivity.
Defined.

(** C7 does not hold when another stray has the same clean name. ["A"] is
    a stray of the listing of ["s"] whose clean name ["X"] leads to ["A"]
    itself in the destination map; ["T"], named ["Copy of X"], is listed
    beside it, and for ["T"] the pass deletes what the map holds under
    ["X"]: a [Delete] of ["A"] is sent. *)
Lemma resolved_stray_is_deleted_for_its_twin :
  ("A", Info (Some "drive#file") (Some "X") (Some "mime") (Some "s"))
    ∈ listing_of "s" twin_strays
  ∧ dict_mem "A" (file_info twin_strays) = false
  ∧ dict_get (clean "X") (names_of (listing_of "d" twin_strays)) = Some "A"
  ∧ Request (Delete "A") ∈ emitted (_cleanup_files "s" "d") twin_strays.
Proof.
  split_and!.
  - vm_compute. left.
  - vm_compute. reflexivity.
  - vm_compute. reflexivity.
  - vm_compute. right. right. left.
Qed.

Lemma two_namesakes_listing :
  cleanup_listing "s" "d" two_namesakes (listing_of "s" two_namesakes)
    (listing_of "d" two_namesakes) (names_of (listing_of "d" two_namesakes))
    (after_listing "d" (after_listing "s" two_namesakes)).
Proof.
  exists None, (after_listing "s" two_namesakes), None.
  split_and!; vm_compute; reflexivity.
Defined.

(** C10. The destination map of [_cleanup_files] keeps, for every name, the
    id listed last under it. One turn of the loop sends at most one
    [Delete]. An id deleted in a pass is the last one listed under its name:
    an entry of the destination listing that is followed by another of the
    same name is not deleted. So the destination can end a pass with several
    entries of one name: with two entries named ["X"] and a stray
    ["Copy of X"], the pass returns and leaves two entries named ["X"]. *)
Theorem cleanup_deletes_only_last_listed :
  (∀ W (H : Service W) p d (self : cloner W) cur dst names self2,
     cleanup_listing p d self cur dst names self2 →
     (∀ n, dict_get n names = last_named n dst)
     ∧ (∀ item self', (length (filter (λ e, is_delete e)
                         (emitted (cleanup_one p d names item) self')) ≤ 1)%nat)
     ∧ (∀ x, Request (Delete x) ∈ emitted (_cleanup_files p d) self →
             ∃ n, last_named n dst = Some x)
     ∧ (∀ l1 k i l2 n,
          dst = l1 ++ (k, i) :: l2 → i_name i = Some n →
          Exists (λ kv, i_name kv.2 = Some n) l2 →
          Request (Delete k) ∉ emitted (_cleanup_files p d) self))
  ∧ (_cleanup_files "s" "d" two_namesakes).1 = Ret ()
  ∧ Drive.named_in "d" "X" (service two_namesakes) = ["o1"; "o2"]
  ∧ Drive.named_in "d" "X" (service (_cleanup_files "s" "d" two_namesakes).2)
    = ["o1"; "T"].
Proof.
  split; [|split_and!; vm_compute; reflexivity].
  intros. by eapply cleanup_deletes_last_listed.
Qed.

Lemma cleanup_deletes_only_last_listed_witness :
  (∀ n, dict_get n (names_of (listing_of "d" two_namesakes))
        = last_named n (listing_of "d" two_namesakes))
  ∧ (∀ x, Request (Delete x) ∈ emitted (_cleanup_files "s" "d") two_namesakes →
          ∃ n, last_named n (listing_of "d" two_namesakes) = Some x)
  ∧ Request (Delete "o1") ∉ emitted (_cleanup_files "s" "d") two_namesakes.
Proof.
  destruct (proj1 cleanup_deletes_only_last_listed _ _ "s" "d" two_namesakes _ _ _ _
              two_namesakes_listing) as (Hnames & _ & Hdel & Hkeep).
  split_and!; [exact Hnames|exact Hdel|].
  apply (Hkeep [] "o1" (file_in "X" "d") [("o2", file_in "X" "d")] "X");
    [vm_compute; reflexivity|reflexivity|].
  left. reflexivity.
Defined.

(** C5, on the listings of [_cleanup_files]. The listing of the source
    parent takes two pages, and the stray is on the second. The pass asks
    for the first page of each parent and for nothing else: the token is
    dropped, the stray is never seen, and the pass returns. The snapshot
    loop, given a token by the same provider, does ask for the next page. *)
Theorem cleanup_misses_second_page :
  (table (List_ 1000 LIST_FIELDS None (Some (parent_query "s"))) (service two_pages)).1
  = Ret (FileList [listed "3" "test_file" "mime" ["s"]] (Some "page-2"))
  ∧ (table (List_ 1000 LIST_FIELDS (Some "page-2") (Some (parent_query "s")))
       (service two_pages)).1
    = Ret (FileList [listed "5" "Copy of test_file" "mime" ["s"]] None)
  ∧ _cleanup_files "s" "d" two_pages
    = (Ret (),
       Cloner (service two_pages) (file_info two_pages) ∅ []
         [Request (List_ 1000 LIST_FIELDS None (Some (parent_query "s")));
          Request (List_ 1000 LIST_FIELDS None (Some (parent_query "d")))])
  ∧ emitted (_get_all_file_info 5) two_pages
    = [Request (List_ 1000 LIST_FIELDS None None);
       Request (List_ 1000 LIST_FIELDS (Some "page-2") None)].
Proof. split_and!; vm_compute; reflexivity. Qed.

Lemma two_strays_listing :
  cleanup_listing "s" "d" two_strays_and_old_copy
    (listing_of "s" two_strays_and_old_copy) (listing_of "d" two_strays_and_old_copy)
    (names_of (listing_of "d" two_strays_and_old_copy))
    (after_listing "d" (after_listing "s" two_strays_and_old_copy)).
Proof.
  exists None, (after_listing "s" two_strays_and_old_copy), None.
  split_and!; vm_compute; reflexivity.
Defined.

Lemma stray_replaces_superseded_copy_witness :
  (∃ before after,
     emitted (_cleanup_files "s" "d") two_strays_and_old_copy
     = [Request (List_ 1000 LIST_FIELDS None (Some (parent_query "s")));
        Request (List_ 1000 LIST_FIELDS None (Some (parent_query "d")))]
       ++ before
       ++ [Request (Delete "4"); Request (Update "5" "d" "s" "test_file")] ++ after)
  ∧ Drive.files (service (_cleanup_files "s" "d" two_strays_and_old_copy).2) !! "4" = None
  ∧ Drive.files (service (_cleanup_files "s" "d" two_strays_and_old_copy).2) !! "5"
    = Some (Drive.DriveFile "test_file" "mime" (Drive.remove_first "s" ["s"] ++ ["d"]))
  ∧ Drive.named_in "d" "test_file"
      (service (_cleanup_files "s" "d" two_strays_and_old_copy).2)
    = ["5"].
Proof.
  split.
  - apply (proj1 stray_replaces_superseded_copy _ _ "s" "d" two_strays_and_old_copy
             _ _ _ _ "5" (file_in "Copy of test_file" "s") "test_file" "mime"
             "4" (file_in "test_file" "d") two_strays_listing).
    + vm_compute. right. left.
    + vm_compute. reflexivity.
    + reflexivity.
    + reflexivity.
    + vm_compute. left.
    + reflexivity.
    + done.
    + intros k i Hin.
      assert (Forall (λ item, i_name item.2 = Some "test_file" → item.1 = "4")
                (listing_of "d" two_strays_and_old_copy)) as Hall
        by (apply (bool_decide_unpack _); vm_compute; exact I).
      rewrite Forall_forall in Hall. apply (Hall (k, i) Hin).
    + done.
    + done.
    + done.
    + vm_compute. reflexivity.
  - apply (proj2 stray_replaces_superseded_copy two_strays_and_old_copy "s" "d"
             "5" (Drive.DriveFile "Copy of test_file" "mime" ["s"]) "test_file"
             "4" (Drive.DriveFile "test_file" "mime" ["d"])).
    + done.
    + done.
    + done.
    + vm_compute. reflexivity.
    + vm_compute. left.
    + reflexivity.
    + vm_compute. reflexivity.
    + vm_compute. reflexivity.
    + vm_compute. left.
    + reflexivity.
    + done.
    + change (map_Forall (λ k f, "d" ∈ Drive.parents f → Drive.name f = "test_file"
                                 → k = "4")
                (Drive.files (service two_strays_and_old_copy))).
      apply (bool_decide_unpack _). vm_compute. exact I.
    + change (map_Forall
                (λ T fT, "s" ∈ Drive.parents fT → T ≠ "5" →
                         dict_mem T (file_info two_strays_and_old_copy) = false →
                         dict_get (clean (Drive.name fT))
                           (names_of (Drive.page (Some (parent_query "d"))
                                        (service two_strays_and_old_copy)))
                         ≠ Some "5")
                (Drive.files (service two_strays_and_old_copy))).
      apply (bool_decide_unpack _). vm_compute. exact I.
    + change (map_Forall
                (λ T fT, "s" ∈ Drive.parents fT → T ≠ "5" → T ≠ "4" →
                         dict_mem T (file_info two_strays_and_old_copy) = false →
                         Drive.name fT = "test_file" →
                         clean "test_file" ≠ "" ∧ Drive.mimeType fT ≠ "")
                (Drive.files (service two_strays_and_old_copy))).
      apply (bool_decide_unpack _). vm_compute. exact I.
    + vm_compute. reflexivity.
Defined.

(** C4 does not hold in five situations; in each the pass returns.

    With an empty clean name: the stray is named ["Copy of "] and the only
    entry under ["d"] has the empty name. The old entry is deleted, but
    [move_file] takes the empty name for a missing one, fetches the name of
    the stray and moves it under that name: the stray is not renamed, and no
    entry with the empty name is left under ["d"].

    With an empty mime-type of the stray, or with the empty string as the
    id of the source parent: [move_file] fetches the name all the same, and
    the stray arrives under ["d"] as ["Copy of X"], not as ["X"].

    With another stray whose clean name leads to the first one: ["A"],
    named ["Copy of X"], is shown under both parents, ["4"] is the only
    entry named ["X"] under ["d"], and ["T"] is a stray whose clean name is
    ["Copy of X"]. The pass promotes ["A"] and then, for ["T"], deletes what
    the destination map holds under ["Copy of X"], which is ["A"]: no entry
    named ["X"] is left under ["d"].

    With another stray that is itself named like the old entry and has an
    empty mime-type: ["5"] is named ["Copy of Copy of Y"], ["4"] is the only
    entry named ["Copy of Y"] under ["d"], and ["6"] is a stray named
    ["Copy of Y"]. The pass promotes ["5"]; for ["6"], [move_file] fetches
    the name and moves it as it is: two entries named ["Copy of Y"] are
    under ["d"]. *)
Lemma stray_is_not_always_promoted :
  ((_cleanup_files "s" "d" stray_with_empty_clean_name).1 = Ret ()
   ∧ Drive.named_in "s" "Copy of " (service stray_with_empty_clean_name) = ["5"]
   ∧ dict_mem "5" (file_info stray_with_empty_clean_name) = false
   ∧ Drive.named_in "d" "" (service stray_with_empty_clean_name) = ["4"]
   ∧ Drive.files (service (_cleanup_files "s" "d" stray_with_empty_clean_name).2) !! "5"
     = Some (Drive.DriveFile "Copy of " "mime" ["d"])
   ∧ Drive.named_in "d" "" (service (_cleanup_files "s" "d" stray_with_empty_clean_name).2)
     = [])
  ∧ ((_cleanup_files "s" "d" stray_without_mime_type).1 = Ret ()
     ∧ Drive.named_in "s" "Copy of X" (service stray_without_mime_type) = ["5"]
     ∧ dict_mem "5" (file_info stray_without_mime_type) = false
     ∧ Drive.named_in "d" "X" (service stray_without_mime_type) = ["4"]
     ∧ Drive.files (service (_cleanup_files "s" "d" stray_without_mime_type).2) !! "5"
       = Some (Drive.DriveFile "Copy of X" "" ["d"])
     ∧ Drive.named_in "d" "X" (service (_cleanup_files "s" "d" stray_without_mime_type).2)
       = [])
  ∧ ((_cleanup_files "" "d" stray_under_the_empty_id).1 = Ret ()
     ∧ Drive.named_in "" "Copy of X" (service stray_under_the_empty_id) = ["5"]
     ∧ dict_mem "5" (file_info stray_under_the_empty_id) = false
     ∧ Drive.named_in "d" "X" (service stray_under_the_empty_id) = ["4"]
     ∧ Drive.files (service (_cleanup_files "" "d" stray_under_the_empty_id).2) !! "5"
       = Some (Drive.DriveFile "Copy of X" "mime" ["d"])
     ∧ Drive.named_in "d" "X" (service (_cleanup_files "" "d" stray_under_the_empty_id).2)
       = [])
  ∧ ((_cleanup_files "s" "d" stray_beside_its_copy).1 = Ret ()
     ∧ Drive.named_in "s" "Copy of X" (service stray_beside_its_copy) = ["A"]
     ∧ dict_mem "A" (file_info stray_beside_its_copy) = false
     ∧ Drive.named_in "d" "X" (service stray_beside_its_copy) = ["4"]
     ∧ Drive.files (service (_cleanup_files "s" "d" stray_beside_its_copy).2) !! "A" = None
     ∧ Drive.named_in "d" "X" (service (_cleanup_files "s" "d" stray_beside_its_copy).2)
       = [])
  ∧ ((_cleanup_files "s" "d" stray_beside_an_untyped_namesake).1 = Ret ()
     ∧ Drive.named_in "s" "Copy of Copy of Y" (service stray_beside_an_untyped_namesake)
       = ["5"]
     ∧ dict_mem "5" (file_info stray_beside_an_untyped_namesake) = false
     ∧ Drive.named_in "d" "Copy of Y" (service stray_beside_an_untyped_namesake) = ["4"]
     ∧ Drive.named_in "d" "Copy of Y"
         (service (_cleanup_files "s" "d" stray_beside_an_untyped_namesake).2)
       = ["5"; "6"]).
Proof. split_and!; vm_compute; reflexivity. Qed.

(** * More on the clean-up pass *)

Section Pass.
Context {W : Type} `{!Service W}.
Implicit Types self : cloner W.

(** X17. A pass over a source listing in which every file is a file of the
    snapshot (and has a name) does nothing: it returns after its two
    listings, and these are the only requests it has sent. *)
Theorem cleanup_skips_the_originals p d self cur dst names self2 :
  cleanup_listing p d self cur dst names self2 →
  Forall (λ item, dict_mem item.1 (file_info self) = true ∧ is_Some (i_name item.2)) cur →
  _cleanup_files p d self = (Ret (), self2)
  ∧ emitted (_cleanup_files p d) self
    = [Request (List_ 1000 LIST_FIELDS None (Some (parent_query p)));
       Request (List_ 1000 LIST_FIELDS None (Some (parent_query d)))].
Proof.
  intros Hl Hall. pose proof (cleanup_files_loop _ _ _ _ _ _ _ Hl) as Hloop.
  destruct Hl as (t1 & s1 & t2 & H1 & H2 & H3).
  apply get_file_info_one_page_Ret in H1 as (_ & Hf1 & Hl1).
  apply get_file_info_one_page_Ret in H2 as (_ & Hf2 & Hl2).
  assert (_cleanup_files p d self = (Ret (), self2)) as Hrun.
  { rewrite Hloop. apply for_each_skip. intros [k i] Hin.
    rewrite Forall_forall in Hall. destruct (Hall _ Hin) as [Hk Hn].
    apply cleanup_one_known; [done|]. by rewrite Hf2, Hf1. }
  split; [done|]. apply emitted_app. rewrite Hrun. cbn [snd].
  by rewrite Hl2, Hl1, <- app_assoc.
Qed.

(** X18. One turn of the loop for a stray whose clean name is not a name of
    the destination listing: nothing is deleted, and the stray is moved
    from the source parent to the destination under its clean name, which
    is its name without one leading ["Copy of "] (a second one stays), or
    its name as it is when it does not start so. The source parent, the
    clean name and the mime-type are taken to be non-empty, so that
    [move_file] does not look them up. *)
Theorem stray_without_namesake_is_moved p d names T iT n m self :
  i_name iT = Some n →
  i_mimeType iT = Some m →
  dict_mem T (file_info self) = false →
  dict_get (clean n) names = None →
  p ≠ "" → clean n ≠ "" → m ≠ "" →
  emitted (cleanup_one p d names (T, iT)) self = [Request (Update T d p (clean n))]
  ∧ (∀ s, n = prefix +:+ s → clean n = s)
  ∧ (String.prefix prefix n = false → clean n = n).
Proof.
  intros Hn Hm Hstray Hnone Hp Hclean Hmime. split_and!.
  - apply emitted_app. unfold cleanup_one.
    rewrite bind_unfold, Hn. cbn [lift field]. rewrite bind_unfold. cbn [gets].
    rewrite Hstray. fold (clean n). rewrite Hnone.
    rewrite bind_unfold, Hm. cbn [lift field]. rewrite bind_unfold.
    pose proof (move_file_log T d (Some p) (Some (clean n)) (Some m) self) as Hlog.
    rewrite !truthy_Some in Hlog by done. cbn [andb default] in Hlog.
    by destruct (move_file _ _ _ _ _ self) as [[r|e] self1].
  - intros s ->. apply clean_decorated.
  - intros Hno. unfold clean. by rewrite Hno.
Qed.

End Pass.

(** * The cloner against the mock provider of the tests *)

Section Mock.
Implicit Types (self : cloner MockService.state) (w : MockService.state).

Lemma mock_listed_files w :
  NoDup (dict_keys (MockService.files w)) →
  MockService.listed_files w
  = map (λ kf, FileResource (Some kf.1) None (Some (MockService.name kf.2))
                 (Some (MockService.mimeType kf.2)) (Some (MockService.parents kf.2)))
      (MockService.files w).
Proof.
  intros Hnd. unfold MockService.listed_files.
  assert (∀ l : list (string * MockService.file),
            (∀ kf, kf ∈ l → dict_get kf.1 (MockService.files w) = Some kf.2) →
            omap (λ kf, match MockService._get kf.1 "name,parents,mimeType" w with
                        | Ret r => Some r
                        | Raise _ => None
                        end) l
            = map (λ kf, FileResource (Some kf.1) None (Some (MockService.name kf.2))
                           (Some (MockService.mimeType kf.2))
                           (Some (MockService.parents kf.2))) l) as Hl.
  { induction l as [|kf l IH]; intros Hget; [done|].
    cbn [omap list_omap map]. unfold MockService._get at 1.
    rewrite (Hget kf) by left. cbn.
    rewrite IH; [done|]. intros kf' Hin. apply Hget. by right. }
  apply Hl. intros [k f] Hin. by apply dict_get_elem.
Qed.

Lemma mock_page_first_seen (l : list (string * MockService.file)) acc :
  NoDup l.*1 → (∀ k, k ∈ l.*1 → dict_get k acc = None) →
  Forall (λ kf, MockService.parents kf.2 ≠ []) l →
  add_files (map (λ kf, FileResource (Some kf.1) None (Some (MockService.name kf.2))
                          (Some (MockService.mimeType kf.2))
                          (Some (MockService.parents kf.2))) l) acc
  = Ret (acc ++ map (λ kf, (kf.1, MockService.info_of kf.2)) l).
Proof.
  revert acc. induction l as [|[k f] l IH]; intros acc; cbn [map add_files].
  - intros _ _ _. by rewrite app_nil_r.
  - rewrite fmap_cons. intros [Hk Hnd]%NoDup_cons Hacc [Hp Hall]%Forall_cons.
    cbn [fst snd] in *. unfold add_file. cbn [r_id r_parents no_fields r_kind r_name
                                               r_mimeType].
    destruct (MockService.parents f) as [|p ps] eqn:Hps; [done|].
    rewrite Hacc by left. cbn [default mbind option_bind head].
    rewrite merge_empty_info, dict_set_absent by (apply Hacc; left).
    rewrite IH; [|done| |done].
    + rewrite <- app_assoc. cbn [app]. unfold MockService.info_of. by rewrite Hps.
    + intros k' Hk'. rewrite dict_get_app_r, Hacc by (by right). cbn [dict_get].
      rewrite decide_False; [done|]. by intros ->.
Qed.

Lemma add_files_IndexError fs page :
  Forall (λ f, is_Some (r_id f)) fs →
  Exists (λ f, r_parents f = Some []) fs →
  add_files fs page = Raise IndexError.
Proof.
  intros Hids Hbad. revert page.
  induction Hids as [|f fs [k Hk] _ IH]; intros page; [by apply Exists_nil in Hbad|].
  cbn [add_files]. unfold add_file. rewrite Hk.
  apply Exists_cons in Hbad as [->|Hbad]; [done|].
  destruct (r_parents f) as [[|]|]; [done|..]; destruct (no_fields f); by apply IH.
Qed.

(** The answer of the mock to a listing. *)
Lemma mock_list_answer size fields token q w :
  service_execute (List_ size fields token q) w
  = (Ret (FileList (MockService.listed_files w) (last (MockService.next_tokens w))),
     MockService.MockState (MockService.files w) (removelast (MockService.next_tokens w))
       (MockService.list_mock w ++ [List_ size fields token q])
       (MockService.get_mock w) (MockService.uuid4 w) (MockService.drawn w)).
Proof. done. Qed.

Lemma mock_one_page t q self :
  NoDup (dict_keys (MockService.files (service self))) →
  Forall (λ kf, MockService.parents kf.2 ≠ []) (MockService.files (service self)) →
  _get_file_info_one_page t q self
  = (Ret (MockService.page (service self), last (MockService.next_tokens (service self))),
     Cloner
       (MockService.MockState (MockService.files (service self))
          (removelast (MockService.next_tokens (service self)))
          (MockService.list_mock (service self)
           ++ [List_ 1000 LIST_FIELDS (if truthy t then t else None)
                 (if truthy q then q else None)])
          (MockService.get_mock (service self)) (MockService.uuid4 (service self))
          (MockService.drawn (service self)))
       (file_info self) (copied_files self) (folders_copied self)
       (log self ++ [Request (List_ 1000 LIST_FIELDS (if truthy t then t else None)
                                (if truthy q then q else None))])).
Proof.
  intros Hnd Hparents.
  rewrite (get_file_info_one_page_answer _ _ _ _ _ (mock_list_answer _ _ _ _ _)).
  rewrite bind_unfold. cbn [lift]. rewrite bind_unfold. cbn [lift resp_files].
  rewrite bind_unfold. unfold lift at 1.
  rewrite mock_listed_files by done.
  by rewrite (mock_page_first_seen _ []).
Qed.

(** X19. The mock does not look at the query or at the page token of a
    listing: when every file of the mock has a parent, any page the cloner
    asks for holds all the files of the mock, in the order of its dict,
    each with its name, its mime-type and the first of its parents, and
    comes with the token on top of [next_tokens], which is popped. When a
    file of the mock has no parent, the mock still answers, with an empty
    list of parents for it, and the cloner raises [IndexError]. *)
Theorem mock_lists_every_file t q self :
  NoDup (dict_keys (MockService.files (service self))) →
  (Forall (λ kf, MockService.parents kf.2 ≠ []) (MockService.files (service self)) →
   (_get_file_info_one_page t q self).1
   = Ret (MockService.page (service self), last (MockService.next_tokens (service self)))
   ∧ MockService.files (service (_get_file_info_one_page t q self).2)
     = MockService.files (service self)
   ∧ MockService.next_tokens (service (_get_file_info_one_page t q self).2)
     = removelast (MockService.next_tokens (service self)))
  ∧ (Exists (λ kf, MockService.parents kf.2 = []) (MockService.files (service self)) →
     (_get_file_info_one_page t q self).1 = Raise IndexError).
Proof.
  intros Hnd. split.
  - intros Hparents. by rewrite mock_one_page.
  - intros Hbad.
    rewrite (get_file_info_one_page_answer _ _ _ _ _ (mock_list_answer _ _ _ _ _)).
    rewrite bind_unfold. cbn [lift]. rewrite bind_unfold. cbn [lift resp_files].
    rewrite bind_unfold. unfold lift at 1.
    rewrite mock_listed_files by done. rewrite add_files_IndexError; [done| |].
    + apply Forall_fmap, Forall_true. intros kf. by eexists.
    + apply Exists_fmap. eapply Exists_impl; [exact Hbad|].
      intros kf Hkf. cbn. by rewrite Hkf.
Qed.

(** ** The snapshot of a mock with tokens queued *)

Lemma dict_set_same {V} (d : dict string V) k v : dict_get k d = Some v → dict_set k v d = d.
Proof.
  induction d as [|[k' v'] d IH]; cbn [dict_get dict_set]; [done|].
  case_decide as Hk; [intros [= ->]; by subst|]. intros H. by rewrite IH.
Qed.

Lemma merge_page_known (acc page : dict string info) :
  (∀ k i, (k, i) ∈ page → dict_get k acc = Some i) → merge_page acc page = acc.
Proof.
  revert acc. induction page as [|[k i] page IH]; intros acc Hknown; [done|].
  rewrite merge_page_cons, dict_set_same by (apply Hknown; left).
  apply IH. intros k' i' Hin. apply Hknown. by right.
Qed.

Lemma merge_page_fresh (acc page : dict string info) :
  NoDup (dict_keys (acc ++ page)) → merge_page acc page = acc ++ page.
Proof.
  revert acc. induction page as [|[k i] page IH]; intros acc Hnd.
  - by rewrite app_nil_r.
  - rewrite merge_page_cons, dict_set_absent.
    + rewrite IH; rewrite <- app_assoc; done.
    + apply dict_get_None. unfold dict_keys in *. rewrite fmap_app, fmap_cons in Hnd.
      apply NoDup_app in Hnd as (_ & Hnd & _). intros Hk. apply (Hnd k Hk). left.
Qed.

Lemma mock_page_keys w : dict_keys (MockService.page w) = dict_keys (MockService.files w).
Proof. unfold dict_keys, MockService.page. by rewrite <- list_fmap_compose. Qed.

Lemma get_all_pages_S {W} `{!Service W} pages token acc (self : cloner W) :
  get_all_pages (S pages) token acc self
  = ('(next_page_info, next_token) ← _get_file_info_one_page token None;
     if truthy next_token
     then get_all_pages pages next_token (merge_page acc next_page_info)
     else mret (Some (merge_page acc next_page_info))) self.
Proof. done. Qed.

Lemma mock_all_pages tokens :
  ∀ self token acc,
    NoDup (dict_keys (MockService.files (service self))) →
    Forall (λ kf, MockService.parents kf.2 ≠ []) (MockService.files (service self)) →
    Forall (λ t, t ≠ "") tokens →
    MockService.next_tokens (service self) = tokens →
    merge_page acc (MockService.page (service self)) = MockService.page (service self) →
    ∃ self2,
      get_all_pages (S (length tokens)) token acc self
      = (Ret (Some (MockService.page (service self))), self2)
      ∧ log self2
        = log self ++ Request (List_ 1000 LIST_FIELDS (if truthy token then token else None)
                                 None)
                      :: map (λ t, Request (List_ 1000 LIST_FIELDS (Some t) None))
                           (reverse tokens)
      ∧ MockService.files (service self2) = MockService.files (service self)
      ∧ MockService.next_tokens (service self2) = [].
Proof.
  induction tokens as [|t tokens IH] using rev_ind;
    intros self token acc Hnd Hparents Htokens Hnext Hacc.
  - cbn [length]. rewrite get_all_pages_S.
    rewrite (bind_Ret _ _ _ _ _ (mock_one_page token None self Hnd Hparents)).
    rewrite Hnext. cbn [last truthy]. rewrite Hacc. eexists. split; [done|].
    cbn [log service MockService.files MockService.next_tokens removelast]. done.
  - apply Forall_app in Htokens as [Htokens [Ht _]%Forall_cons].
    rewrite length_app. cbn [length]. rewrite Nat.add_1_r, get_all_pages_S.
    rewrite (bind_Ret _ _ _ _ _ (mock_one_page token None self Hnd Hparents)).
    cbv beta iota zeta. rewrite Hnext, last_snoc, truthy_Some by done.
    cbv beta iota. rewrite Hacc.
    match goal with
    | |- context [get_all_pages _ _ _ ?s] =>
        destruct (IH s (Some t) (MockService.page (service self))) as (self2 & Hrun & Hlog & Hf & Hn)
    end.
    + done.
    + done.
    + done.
    + cbn [service MockService.next_tokens]. apply removelast_last.
    + cbn [service MockService.files]. apply merge_page_known. intros k i Hin.
      apply dict_get_elem; [|done]. by rewrite mock_page_keys.
    + exists self2. cbn [service MockService.files MockService.page] in Hrun.
      split_and!; [exact Hrun| |done|done].
      rewrite Hlog. cbn [log]. rewrite truthy_Some by done.
      rewrite reverse_snoc. cbn [map]. by rewrite <- app_assoc.
Qed.

(** X20. [_get_all_file_info] against a mock that has tokens queued, all
    non-empty, and whose files all have a parent: it asks for one page
    more than there are tokens, the first without a token and then one for
    each token, last queued first; every page is the whole mock, so the
    snapshot is the page of the mock; and no token is left. *)
Theorem mock_snapshot_pops_every_token self :
  NoDup (dict_keys (MockService.files (service self))) →
  Forall (λ kf, MockService.parents kf.2 ≠ []) (MockService.files (service self)) →
  Forall (λ t, t ≠ "") (MockService.next_tokens (service self)) →
  (_get_all_file_info (S (length (MockService.next_tokens (service self)))) self).1
  = Ret (Some (MockService.page (service self)))
  ∧ emitted (_get_all_file_info (S (length (MockService.next_tokens (service self))))) self
    = Request (List_ 1000 LIST_FIELDS None None)
      :: map (λ t, Request (List_ 1000 LIST_FIELDS (Some t) None))
           (reverse (MockService.next_tokens (service self)))
  ∧ MockService.next_tokens
      (service (_get_all_file_info (S (length (MockService.next_tokens (service self))))
                  self).2)
    = [].
Proof.
  intros Hnd Hparents Htokens.
  destruct (mock_all_pages _ self None [] Hnd Hparents Htokens eq_refl)
    as (self2 & Hrun & Hlog & _ & Hnext).
  { apply (merge_page_fresh []). cbn [app]. by rewrite mock_page_keys. }
  unfold _get_all_file_info. split_and!.
  - by rewrite Hrun.
  - apply emitted_app. by rewrite Hrun.
  - by rewrite Hrun.
Qed.

(** ** Moving a file of the mock *)

Lemma list_remove_None x l : x ∉ l → list_remove x l = None.
Proof.
  induction l as [|y l IH]; [done|]. intros [Hne Hin]%not_elem_of_cons.
  cbn [list_remove]. rewrite decide_False by done. by rewrite IH.
Qed.

Lemma mock_execute_get f fields self file :
  dict_get f (MockService.files (service self)) = Some file →
  execute (Get f fields) self
  = (Ret (File {| r_id := Some f;
                  r_kind := if bool_decide ("kind" ∈ split_commas fields)
                            then Some "kind_value" else None;
                  r_name := Some (MockService.name file);
                  r_mimeType := Some (MockService.mimeType file);
                  r_parents := Some (MockService.parents file) |}),
     Cloner
       (MockService.MockState (MockService.files (service self))
          (MockService.next_tokens (service self)) (MockService.list_mock (service self))
          (MockService.get_mock (service self) ++ [Get f fields])
          (MockService.uuid4 (service self)) (MockService.drawn (service self)))
       (file_info self) (copied_files self) (folders_copied self)
       (log self ++ [Request (Get f fields)])).
Proof.
  intros Hf. unfold execute, service_execute, MockService.execute, MockService._get.
  cbn [emit snd service]. by rewrite Hf.
Qed.

Lemma mock_execute_update f added removed new_name self file rest :
  dict_get f (MockService.files (service self)) = Some file →
  list_remove removed (MockService.parents file) = Some rest →
  execute (Update f added removed new_name) self
  = (Ret (id_only f),
     Cloner
       (MockService.MockState
          (dict_set f
             (MockService.MockFile (MockService.id file) new_name (rest ++ [added])
                (MockService.mimeType file))
             (MockService.files (service self)))
          (MockService.next_tokens (service self)) (MockService.list_mock (service self))
          (MockService.get_mock (service self))
          (MockService.uuid4 (service self)) (MockService.drawn (service self)))
       (file_info self) (copied_files self) (folders_copied self)
       (log self ++ [Request (Update f added removed new_name)])).
Proof.
  intros Hf Hrest. unfold execute, service_execute, MockService.execute.
  cbn [emit snd service]. by rewrite Hf, Hrest.
Qed.

(** X21. [move_file] against the mock. Called without the optional
    arguments for a file of the mock that has a parent, it looks the file
    up and moves it out of the first of its parents: the file keeps its id,
    name and mime-type, loses its first parent and gets the destination as
    its last one, and its id is returned. Called with a current parent
    that is not among the parents of the file, it raises the [ValueError]
    of the mock and the files of the mock are as they were. *)
Theorem mock_move_file f d self file :
  dict_get f (MockService.files (service self)) = Some file →
  (∀ p ps, MockService.parents file = p :: ps →
     (move_file f d None None None self).1 = Ret f
     ∧ MockService.files (service (move_file f d None None None self).2)
       = dict_set f
           (MockService.MockFile (MockService.id file) (MockService.name file)
              (ps ++ [d]) (MockService.mimeType file))
           (MockService.files (service self))
     ∧ emitted (move_file f d None None None) self
       = [Request (Get f GET_FIELDS); Request (Update f d p (MockService.name file))])
  ∧ (∀ p n m, p ≠ "" → n ≠ "" → m ≠ "" → p ∉ MockService.parents file →
       (move_file f d (Some p) (Some n) (Some m) self).1 = Raise ValueError
       ∧ MockService.files (service (move_file f d (Some p) (Some n) (Some m) self).2)
         = MockService.files (service self)).
Proof.
  intros Hfile. split.
  - intros p ps Hps.
    assert (move_file f d None None None self
            = (Ret f,
               Cloner
                 (MockService.MockState
                    (dict_set f
                       (MockService.MockFile (MockService.id file) (MockService.name file)
                          (ps ++ [d]) (MockService.mimeType file))
                       (MockService.files (service self)))
                    (MockService.next_tokens (service self))
                    (MockService.list_mock (service self))
                    (MockService.get_mock (service self) ++ [Get f GET_FIELDS])
                    (MockService.uuid4 (service self)) (MockService.drawn (service self)))
                 (file_info self) (copied_files self) (folders_copied self)
                 (log self ++ [Request (Get f GET_FIELDS);
                               Request (Update f d p (MockService.name file))]))) as Hrun.
    { unfold move_file, _get_one_file_info. cbn [truthy andb].
      change (String.concat "," ["id"; "mimeType"; "name"; "parents"]) with GET_FIELDS.
      rewrite bind_unfold, bind_unfold, (mock_execute_get _ _ _ _ Hfile).
      rewrite bind_unfold. cbn [lift resp_first_parent resp_resource r_parents].
      rewrite Hps. rewrite bind_unfold. cbn [lift field resp_resource r_name].
      rewrite bind_unfold. cbn [lift field resp_resource r_mimeType].
      cbn [mret M_ret]. cbv beta iota. rewrite bind_unfold.
      erewrite mock_execute_update;
        [|exact Hfile|rewrite Hps; cbn [list_remove]; by rewrite decide_True].
      cbn [lift resp_id resp_resource id_only r_id field service MockService.files
             MockService.next_tokens MockService.list_mock MockService.get_mock
             MockService.uuid4 MockService.drawn file_info copied_files folders_copied log].
      by rewrite <- app_assoc. }
    rewrite Hrun. split_and!; [done|done|]. apply emitted_app. by rewrite Hrun.
  - intros p n m Hp Hn Hm Hnot.
    rewrite move_file_supplied by done. rewrite bind_unfold.
    unfold execute, service_execute, MockService.execute. cbn [emit snd service].
    rewrite Hfile, list_remove_None by done. done.
Qed.

End Mock.

(** * Copying one file against the store *)

Section StoreCopy.
Implicit Types (self : cloner Drive.store).

Lemma execute_copy self file_id f new_id rest :
  Drive.files (service self) !! file_id = Some f →
  Drive.fresh (service self) = new_id :: rest →
  execute (Copy file_id) self
  = (Ret (id_only new_id),
     Cloner (Drive.Store
               (<[new_id := Drive.DriveFile (prefix +:+ Drive.name f) (Drive.mimeType f)
                              (Drive.parents f)]> (Drive.files (service self)))
               rest)
       (file_info self) (copied_files self) (folders_copied self)
       (log self ++ [Request (Copy file_id)])).
Proof.
  intros Hf Hfresh. unfold execute, service_execute, Drive.execute. cbn [emit snd service].
  by rewrite Hf, Hfresh.
Qed.

(** A pass over a store in which every file under the source parent is a
    file of the snapshot: the two listings, and nothing else. *)
Lemma store_cleanup_skips self p d :
  (∀ k fk, Drive.files (service self) !! k = Some fk → p ∈ Drive.parents fk →
           dict_mem k (file_info self) = true) →
  _cleanup_files p d self
  = (Ret (),
     Cloner (service self) (file_info self) (copied_files self) (folders_copied self)
       (log self ++ [Request (List_ 1000 LIST_FIELDS None (Some (parent_query p)));
                     Request (List_ 1000 LIST_FIELDS None (Some (parent_query d)))])).
Proof.
  intros Hknown. unfold _cleanup_files.
  rewrite (bind_Ret _ _ _ _ _ (store_page p self)). cbv zeta.
  rewrite (bind_Ret _ _ _ _ _ (store_page d _)).
  cbn [service file_info copied_files folders_copied log].
  destruct (name_to_id_total (Drive.page (Some (parent_query d)) (service self)) []
              (store_page_named _ _)) as [names Hnames].
  rewrite bind_unfold. unfold lift at 1. rewrite Hnames.
  rewrite for_each_skip; [by rewrite <- app_assoc|].
  intros [k i] Hin. apply elem_of_page in Hin as (fk & -> & Hfk & Hp).
  apply cleanup_one_known; [by eexists|]. cbn [file_info]. by eapply Hknown.
Qed.

(** X22. [copy_file] against the store, for a file that the snapshot knows
    with a parent, a name and a mime-type (all non-empty), that the store
    holds under that one parent, copied to another folder, when every file
    the store holds under the parent is a file of the snapshot: the call
    returns the id the provider gave to the clone; the clone, which the
    provider made beside the original under a decorated name, is now under
    the destination only, with the name the snapshot has for the original;
    the original and every other file are as they were; the file is marked
    as copied; and the clean-up pass found nothing to do. *)
Theorem copy_file_on_the_store f d self current p n m file new_id rest :
  dict_get f (file_info self) = Some current →
  i_parent current = Some p → i_name current = Some n → i_mimeType current = Some m →
  p ≠ "" → n ≠ "" → m ≠ "" → d ≠ p →
  Drive.files (service self) !! f = Some file →
  Drive.parents file = [p] →
  Drive.fresh (service self) = new_id :: rest →
  (∀ k fk, Drive.files (service self) !! k = Some fk → p ∈ Drive.parents fk →
           dict_mem k (file_info self) = true) →
  copy_file f d self
  = (Ret new_id,
     Cloner
       (Drive.Store
          (<[new_id := Drive.DriveFile n (Drive.mimeType file) [d]]>
             (Drive.files (service self)))
          rest)
       (file_info self) ({[ f ]} ∪ copied_files self) (folders_copied self)
       (log self
        ++ [Request (Copy f); Request (Update new_id d p n)]
        ++ (if decide (m = SPREADSHEET_TYPE) then [Sleep SPREADSHEET_SLEEP] else [])
        ++ [Request (List_ 1000 LIST_FIELDS None (Some (parent_query p)));
            Request (List_ 1000 LIST_FIELDS None (Some (parent_query d)))])).
Proof.
  intros Hitem Hparent Hname Hmime Hp Hn Hm Hd Hfile Hparents Hfresh Hknown.
  unfold copy_file, _clone_file.
  rewrite bind_unfold, (execute_copy _ _ _ _ _ Hfile Hfresh).
  rewrite bind_unfold. cbn [gets file_info].
  rewrite bind_unfold. unfold getitem. rewrite Hitem. cbn [lift].
  rewrite bind_unfold. cbn [lift resp_id resp_resource id_only r_id field].
  rewrite bind_unfold, Hparent. cbn [lift field].
  rewrite bind_unfold, Hname. cbn [lift field].
  rewrite bind_unfold, Hmime. cbn [lift field].
  rewrite bind_unfold, move_file_supplied by done. rewrite bind_unfold.
  rewrite (execute_update _ new_id
             (Drive.DriveFile (prefix +:+ Drive.name file) (Drive.mimeType file)
                (Drive.parents file)) d p n);
    [|cbn [service Drive.files]; apply lookup_insert_eq
     |cbn [Drive.parents]; rewrite Hparents; left].
  cbn [lift resp_id resp_resource id_only r_id field service Drive.files Drive.fresh
         Drive.parents Drive.mimeType file_info copied_files folders_copied log].
  rewrite Hparents. cbn [Drive.remove_first]. destruct (decide (p = p)); [|done].
  cbn [app].
  rewrite insert_insert_eq.
  assert (∀ self1 : cloner Drive.store,
            ((if decide (m = SPREADSHEET_TYPE) then sleep SPREADSHEET_SLEEP else mret ())
             : M Drive.store ()) self1
            = (Ret (),
               Cloner (service self1) (file_info self1) (copied_files self1)
                 (folders_copied self1)
                 (log self1 ++ if decide (m = SPREADSHEET_TYPE)
                               then [Sleep SPREADSHEET_SLEEP] else []))) as Hsleep.
  { intros [w fi cf fc l]. destruct (decide (m = SPREADSHEET_TYPE)); [done|].
    cbn. by rewrite app_nil_r. }
  rewrite bind_unfold, Hsleep. cbn [service file_info copied_files folders_copied log].
  rewrite bind_unfold. cbn [copied_files_add service file_info copied_files
                              folders_copied log].
  rewrite bind_unfold, store_cleanup_skips.
  - cbn [service file_info copied_files folders_copied log mret M_ret].
    by rewrite <- !app_assoc.
  - cbn [service file_info Drive.files]. intros k fk Hk Hin.
    destruct (decide (k = new_id)) as [->|Hne].
    + rewrite lookup_insert_eq in Hk. injection Hk as <-. cbn [Drive.parents] in Hin.
      apply list_elem_of_singleton in Hin. by destruct Hd.
    + rewrite lookup_insert_ne in Hk by done. by apply (Hknown k fk).
Qed.

End StoreCopy.

(** * Concrete runs of the further properties *)

Lemma page_lists_the_resources_witness :
  _get_file_info_one_page None (Some (parent_query "s")) two_pages
  = (Ret ([("3", Info None (Some "test_file") (Some "mime") (Some "s"))], Some "page-2"),
     Cloner (service two_pages) (file_info two_pages) ∅ []
       [Request (List_ 1000 LIST_FIELDS None (Some (parent_query "s")))]).
Proof.
  refine (page_lists_the_resources None (Some (parent_query "s")) two_pages
            [listed "3" "test_file" "mime" ["s"]] (Some "page-2") (service two_pages)
            _ _ _).
  - vm_compute. reflexivity.
  - repeat constructor.
  - apply NoDup_singleton.
Defined.

Lemma page_raises_at_first_bad_resource_witness :
  (IndexError = KeyError "id" ∨ IndexError = IndexError)
  ∧ _get_file_info_one_page None None parentless_listing
    = (Raise IndexError,
       Cloner [] [] ∅ [] [Request (List_ 1000 LIST_FIELDS None None)]).
Proof.
  refine (page_raises_at_first_bad_resource None None parentless_listing
            [listed "1" "a" "mime" ["p"]] (listed "2" "b" "mime" [])
            [listed "3" "c" "mime" ["p"]] None [] IndexError _ _ _).
  - reflexivity.
  - repeat constructor.
  - reflexivity.
Defined.

Lemma later_page_replaces_entry_witness :
  (∀ k, dict_get k (merge_page first_page second_page)
        = match dict_get k second_page with
          | Some i => Some i
          | None => dict_get k first_page
          end)
  ∧ (∃ new, dict_keys (merge_page first_page second_page) = dict_keys first_page ++ new)
  ∧ NoDup (dict_keys (merge_page first_page second_page)).
Proof.
  apply later_page_replaces_entry; apply (bool_decide_unpack _); vm_compute; exact I.
Defined.

Lemma snapshot_follows_every_token_witness :
  listed_to_the_end None [] two_pages two_pages_snapshot (_get_all_file_info 2 two_pages).2
  ∧ ∀ pages', (2 ≤ pages')%nat →
      _get_all_file_info pages' two_pages
      = (Ret (Some two_pages_snapshot), (_get_all_file_info 2 two_pages).2).
Proof.
  apply (proj1 (snapshot_follows_every_token two_pages) 2%nat).
  vm_compute. reflexivity.
Defined.

Lemma new_object_is_empty_witness :
  copied_files two_pages_object = ∅
  ∧ folders_copied two_pages_object = []
  ∧ NoDup (dict_keys (file_info two_pages_object))
  ∧ consistent two_pages_object
  ∧ Forall (λ e, ∃ token, e = Request (List_ 1000 LIST_FIELDS token None))
      (log two_pages_object).
Proof.
  apply (new_object_is_empty 5 (service two_pages)). vm_compute. reflexivity.
Defined.

Lemma copy_file_marks_its_file_only_witness :
  "1" ∈ copied_files (copy_file "1" "3" before_first_copy).2.
Proof.
  apply (proj2 (proj2 (proj2 (proj2
           (copy_file_marks_its_file_only "1" "3" before_first_copy)))) "c1").
  vm_compute. reflexivity.
Defined.

Lemma copy_file_pauses_for_a_spreadsheet_only_witness :
  ∃ current mimeType,
    dict_get "1" (file_info before_spreadsheet_copy) = Some current
    ∧ i_mimeType current = Some mimeType
    ∧ filter (λ e, is_sleep e = true) (emitted (copy_file "1" "3") before_spreadsheet_copy)
      = if decide (mimeType = SPREADSHEET_TYPE) then [Sleep SPREADSHEET_SLEEP] else [].
Proof.
  apply (copy_file_pauses_for_a_spreadsheet_only "1" "3" before_spreadsheet_copy "c1"
           (copy_file "1" "3" before_spreadsheet_copy).2).
  vm_compute. reflexivity.
Defined.

Lemma copy_file_clones_before_it_looks_up_witness :
  copy_file "ghost" "d" answers_get_then_update
  = (Raise (KeyError "ghost"),
     Cloner [Ret (id_only "f")] [] ∅ [] [Request (Copy "ghost")]).
Proof.
  refine (copy_file_clones_before_it_looks_up "ghost" "d" answers_get_then_update
            (File (listed "f" "remote name" "mime" ["remote parent"]))
            [Ret (id_only "f")] (KeyError "ghost") _ _ _).
  - reflexivity.
  - by eexists.
  - reflexivity.
Defined.

Lemma run_on_an_unknown_root_witness :
  run 1 "ghost" "d" None answers_get_then_update
  = (Raise (KeyError "ghost"),
     Cloner (service answers_get_then_update) [] ∅ []
       [Sleep COPY_SLEEP; Sleep CLEANUP_SLEEP]).
Proof.
  refine (run_on_an_unknown_root 0 "ghost" "d" None answers_get_then_update _ _);
    reflexivity.
Defined.

Lemma folder_with_an_untyped_child_witness :
  copy_item 1 "G" "D" None sweep_goes_through
  = (Raise (KeyError "mimeType"),
     (create_folder "D" "second" (sleep COPY_SLEEP sweep_goes_through).2).2)
  ∧ emitted (copy_item 1 "G" "D" None) sweep_goes_through
    = [Sleep COPY_SLEEP; Request (Create "second" FOLDER_TYPE ["D"])]
  ∧ copied_files (create_folder "D" "second" (sleep COPY_SLEEP sweep_goes_through).2).2
    = copied_files sweep_goes_through
  ∧ folders_copied (create_folder "D" "second" (sleep COPY_SLEEP sweep_goes_through).2).2
    = folders_copied sweep_goes_through.
Proof.
  refine (folder_with_an_untyped_child 0 "G" "D" None sweep_goes_through
            (Info None (Some "second") (Some FOLDER_TYPE) (Some "R")) "second" "R'"
            (create_folder "D" "second" (sleep COPY_SLEEP sweep_goes_through).2).2
            "bad" (Info None (Some "no type") None (Some "G")) _ _ _ _ _ _ _ _).
  - reflexivity.
  - reflexivity.
  - reflexivity.
  - apply not_elem_of_empty.
  - vm_compute. reflexivity.
  - do 3 right. left.
  - reflexivity.
  - reflexivity.
Defined.

Lemma folder_is_recorded_after_its_descendants_witness :
  ∃ item_info mimeType,
    dict_get "R" (file_info four_children_session) = Some item_info
    ∧ i_mimeType item_info = Some mimeType
    ∧ if decide (mimeType = FOLDER_TYPE)
      then ∃ inner, folders_copied (copy_item 3 "R" "D" None four_children_session).2
                    = folders_copied four_children_session ++ inner ++ [("R", "n1")]
                    ∧ Forall (is_snapshot_folder (file_info four_children_session)) inner
      else folders_copied (copy_item 3 "R" "D" None four_children_session).2
           = folders_copied four_children_session.
Proof.
  apply (folder_is_recorded_after_its_descendants 3 "R" "D" None four_children_session
           "n1" (copy_item 3 "R" "D" None four_children_session).2).
  vm_compute. reflexivity.
Defined.

Lemma stores_stay_consistent_witness :
  consistent (session before_first_copy [call_copy_item 1 "1" "3" None; call_run_cleanup]).
Proof.
  apply stores_stay_consistent. split.
  - intros file_id Hin. by apply not_elem_of_empty in Hin.
  - constructor.
Defined.

Lemma stray_and_old_copy_listing :
  cleanup_listing "s" "d" stray_and_old_copy (listing_of "s" stray_and_old_copy)
    (listing_of "d" stray_and_old_copy) (names_of (listing_of "d" stray_and_old_copy))
    (after_listing "d" (after_listing "s" stray_and_old_copy)).
Proof.
  exists None, (after_listing "s" stray_and_old_copy), None.
  split_and!; vm_compute; reflexivity.
Defined.

Lemma cleanup_deletes_for_a_stray_only_witness :
  ∃ T iT n x_info,
    (T, iT) ∈ listing_of "s" stray_and_old_copy
    ∧ dict_mem T (file_info stray_and_old_copy) = false ∧ i_name iT = Some n
    ∧ T ≠ "4" ∧ ("4", x_info) ∈ listing_of "d" stray_and_old_copy
    ∧ i_name x_info = Some (clean n).
Proof.
  apply (cleanup_deletes_for_a_stray_only "s" "d" stray_and_old_copy _ _ _ _ "4"
           stray_and_old_copy_listing).
  vm_compute. right. right. left.
Defined.

Lemma every_child_is_visited_once_witness :
  copy_order four_children_groups ≡ₚ child_pairs (λ _, true) four_children "R" "n1"
  ∧ NoDup (copy_order four_children_groups)
  ∧ (∀ child child_info,
       (child, child_info) ∈ four_children → i_parent child_info = Some "R" →
       (child, "n1") ∈ copy_order four_children_groups)
  ∧ (∀ child folder, (child, folder) ∈ copy_order four_children_groups →
       folder = "n1"
       ∧ ∃ child_info, (child, child_info) ∈ four_children
                       ∧ i_parent child_info = Some "R").
Proof.
  apply every_child_is_visited_once.
  - vm_compute. reflexivity.
  - apply (bool_decide_unpack _). vm_compute. exact I.
Defined.

Lemma two_pages_listing :
  cleanup_listing "s" "d" two_pages (listing_of "s" two_pages) (listing_of "d" two_pages)
    (names_of (listing_of "d" two_pages)) (after_listing "d" (after_listing "s" two_pages)).
Proof.
  exists (Some "page-2"), (after_listing "s" two_pages), None.
  split_and!; vm_compute; reflexivity.
Defined.

Lemma cleanup_skips_the_originals_witness :
  _cleanup_files "s" "d" two_pages
  = (Ret (), after_listing "d" (after_listing "s" two_pages))
  ∧ emitted (_cleanup_files "s" "d") two_pages
    = [Request (List_ 1000 LIST_FIELDS None (Some (parent_query "s")));
       Request (List_ 1000 LIST_FIELDS None (Some (parent_query "d")))].
Proof.
  apply (cleanup_skips_the_originals "s" "d" two_pages _ _ _ _ two_pages_listing).
  apply (bool_decide_unpack _). vm_compute. exact I.
Defined.

Lemma stray_without_namesake_is_moved_witness :
  emitted (cleanup_one "s" "d" [] ("5", file_in "Copy of test_file" "s")) stray_and_old_copy
  = [Request (Update "5" "d" "s" (clean "Copy of test_file"))]
  ∧ (∀ s, "Copy of test_file" = prefix +:+ s → clean "Copy of test_file" = s)
  ∧ (String.prefix prefix "Copy of test_file" = false
     → clean "Copy of test_file" = "Copy of test_file").
Proof.
  apply (stray_without_namesake_is_moved "s" "d" [] "5" (file_in "Copy of test_file" "s")
           "Copy of test_file" "mime" stray_and_old_copy).
  - reflexivity.
  - reflexivity.
  - vm_compute. reflexivity.
  - reflexivity.
  - discriminate.
  - vm_compute. discriminate.
  - discriminate.
Defined.

Lemma mock_lists_every_file_witness :
  (_get_file_info_one_page (Some "pageToken") (Some "query") (mock_session ["nextToken"])).1
  = Ret (MockService.page (service (mock_session ["nextToken"])),
         last (MockService.next_tokens (service (mock_session ["nextToken"]))))
  ∧ MockService.files
      (service (_get_file_info_one_page (Some "pageToken") (Some "query")
                  (mock_session ["nextToken"])).2)
    = MockService.files (service (mock_session ["nextToken"]))
  ∧ MockService.next_tokens
      (service (_get_file_info_one_page (Some "pageToken") (Some "query")
                  (mock_session ["nextToken"])).2)
    = removelast (MockService.next_tokens (service (mock_session ["nextToken"]))).
Proof.
  refine (proj1 (mock_lists_every_file (Some "pageToken") (Some "query")
                   (mock_session ["nextToken"]) _) _);
    apply (bool_decide_unpack _); vm_compute; exact I.
Defined.

Lemma mock_snapshot_pops_every_token_witness :
  (_get_all_file_info
     (S (length (MockService.next_tokens (service (mock_session ["t1"; "t2"])))))
     (mock_session ["t1"; "t2"])).1
  = Ret (Some (MockService.page (service (mock_session ["t1"; "t2"]))))
  ∧ emitted
      (_get_all_file_info
         (S (length (MockService.next_tokens (service (mock_session ["t1"; "t2"]))))))
      (mock_session ["t1"; "t2"])
    = Request (List_ 1000 LIST_FIELDS None None)
      :: map (λ t, Request (List_ 1000 LIST_FIELDS (Some t) None))
           (reverse (MockService.next_tokens (service (mock_session ["t1"; "t2"]))))
  ∧ MockService.next_tokens
      (service (_get_all_file_info
                  (S (length (MockService.next_tokens (service (mock_session ["t1"; "t2"])))))
                  (mock_session ["t1"; "t2"])).2)
    = [].
Proof.
  apply mock_snapshot_pops_every_token; apply (bool_decide_unpack _); vm_compute; exact I.
Defined.

Lemma mock_move_file_witness :
  (move_file "1" "3" None None None (mock_session [])).1 = Ret "1"
  ∧ MockService.files (service (move_file "1" "3" None None None (mock_session [])).2)
    = dict_set "1" (MockService.MockFile "1" "file1" ([] ++ ["3"]) "mime")
        (MockService.files (service (mock_session [])))
  ∧ emitted (move_file "1" "3" None None None) (mock_session [])
    = [Request (Get "1" GET_FIELDS); Request (Update "1" "3" "2" "file1")].
Proof.
  refine (proj1 (mock_move_file "1" "3" (mock_session [])
                   (MockService.MockFile "1" "file1" ["2"] "mime") _) "2" [] _);
    reflexivity.
Defined.

Lemma copy_file_on_the_store_witness :
  copy_file "p1" "D" four_children_session
  = (Ret "n1",
     Cloner
       (Drive.Store
          (<["n1" := Drive.DriveFile "a.txt" "text/plain" ["D"]]>
             (Drive.files (service four_children_session)))
          ["n2"; "n3"; "n4"; "n5"; "n6"])
       (file_info four_children_session) ({[ "p1" ]} ∪ copied_files four_children_session)
       (folders_copied four_children_session)
       (log four_children_session
        ++ [Request (Copy "p1"); Request (Update "n1" "D" "R" "a.txt")]
        ++ (if decide ("text/plain" = SPREADSHEET_TYPE) then [Sleep SPREADSHEET_SLEEP] else [])
        ++ [Request (List_ 1000 LIST_FIELDS None (Some (parent_query "R")));
            Request (List_ 1000 LIST_FIELDS None (Some (parent_query "D")))])).
Proof.
  refine (copy_file_on_the_store "p1" "D" four_children_session
            (Info (Some "drive#file") (Some "a.txt") (Some "text/plain") (Some "R"))
            "R" "a.txt" "text/plain" (Drive.DriveFile "a.txt" "text/plain" ["R"])
            "n1" ["n2"; "n3"; "n4"; "n5"; "n6"] _ _ _ _ _ _ _ _ _ _ _ _).
  - reflexivity.
  - reflexivity.
  - reflexivity.
  - reflexivity.
  - discriminate.
  - discriminate.
  - discriminate.
  - discriminate.
  - vm_compute. reflexivity.
  - reflexivity.
  - reflexivity.
  - change (map_Forall (λ k fk, "R" ∈ Drive.parents fk
                                → dict_mem k (file_info four_children_session) = true)
              (Drive.files (service four_children_session))).
    apply (bool_decide_unpack _). vm_compute. exact I.
Defined.

Lemma recursion_budget_is_monotone_witness :
  copy_item 7 "R" "D" None four_children_session
  = (Ret (Some "n1"), (copy_item 3 "R" "D" None four_children_session).2).
Proof.
  apply (recursion_budget_is_monotone 3 7).
  - vm_compute. reflexivity.
  - discriminate.
  - lia.
Defined.

Lemma store_is_quiet (r : request) (w : Drive.store) :
  (service_execute r w).1 ≠ Raise RecursionError.
Proof.
  unfold service_execute, Drive.execute, Drive.not_found.
  destruct r; repeat case_match; cbn; discriminate.
Qed.

Lemma enough_budget_is_never_exhausted_witness :
  (copy_item 3 "R" "D" None four_children_session).1 ≠ Raise RecursionError
  ∧ ∀ depth', (3 ≤ depth')%nat →
      copy_item depth' "R" "D" None four_children_session
      = copy_item 3 "R" "D" None four_children_session.
Proof.
  apply (enough_budget_is_never_exhausted store_is_quiet).
  vm_compute. reflexivity.
Defined.

Lemma copy_item_of_a_childless_folder_witness :
  copy_item 1 "F" "D" (Some "renamed") sweep_goes_through
  = (Ret (Some "R'"),
     Cloner [Ret (id_only "F'"); Ret (id_only "G'");
             Ret (FileList [] None); Ret (FileList [] None)]
       (file_info sweep_goes_through) ({[ "F" ]} ∪ copied_files sweep_goes_through)
       (folders_copied sweep_goes_through ++ [("F", "R'")])
       (log sweep_goes_through
        ++ [Sleep COPY_SLEEP;
            Request (Create (if truthy (Some "renamed") then default "" (Some "renamed")
                             else "first") FOLDER_TYPE ["D"])])).
Proof.
  refine (copy_item_of_a_childless_folder 0 "F" "D" (Some "renamed") sweep_goes_through
            (Info None (Some "first") (Some FOLDER_TYPE) (Some "R")) "first"
            (id_only "R'")
            [Ret (id_only "F'"); Ret (id_only "G'");
             Ret (FileList [] None); Ret (FileList [] None)]
            "R'" _ _ _ _ _ _ _).
  - reflexivity.
  - reflexivity.
  - reflexivity.
  - apply not_elem_of_empty.
  - apply (bool_decide_unpack _). vm_compute. exact I.
  - reflexivity.
  - reflexivity.
Defined.
